(** * OptMATH instance generators: a shallow embedding

    Every generator of [data/generators] is a class [Generator] with the
    same three methods: [__init__] stores a dictionary of parameters as
    attributes and seeds Python's global random source, [generate_instance]
    draws the data of an instance and declares a model through the gurobipy
    modelling API, and (for some generators) [print_solution] reports a
    solved model.

    The embedding follows the Python text: attributes are a finite map from
    attribute names to values, every method is a function in a state and
    exception monad over the state it can touch, Python's [random] module is
    an interface, and a gurobipy model is the record of what was declared. *)

From Stdlib Require Import ZArith Lia SpecFloat Ascii String.
From Stdlib Require Reals Lra.
From stdpp Require Import gmap strings list fin_maps pretty.

(** ** Python: exceptions, floats, the [random] module *)

Module Py.

Inductive exn :=
| TypeError | ValueError | AttributeError | IndexError | KeyError
| OverflowError.

(** The outcome of running a piece of Python. [OutOfFuel] is reported when
    a [while] loop has used up the bound on its iterations that the
    embedding gives it. *)
Inductive outcome (A : Type) :=
| Ret (a : A)
| Raise (e : exn)
| OutOfFuel.
Arguments Ret {A} a.
Arguments Raise {A} e.
Arguments OutOfFuel {A}.

(** State and exception monad: the state survives an exception, as the
    mutations of a Python object do. *)
Definition M (S A : Type) : Type := S → outcome A * S.

Definition ret {S A} (a : A) : M S A := λ s, (Ret a, s).
Definition raise {S A} (e : exn) : M S A := λ s, (Raise e, s).
Definition out_of_fuel {S A} : M S A := λ s, (OutOfFuel, s).
Definition bind {S A B} (c : M S A) (k : A → M S B) : M S B :=
  λ s, match c s with
       | (Ret a, s') => k a s'
       | (Raise e, s') => (Raise e, s')
       | (OutOfFuel, s') => (OutOfFuel, s')
       end.
Definition get {S} : M S S := λ s, (Ret s, s).
Definition gets {S A} (f : S → A) : M S A := λ s, (Ret (f s), s).
Definition modify {S} (f : S → S) : M S unit := λ s, (Ret tt, f s).

#[global] Instance M_ret {S} : MRet (M S) := λ A, ret.
#[global] Instance M_bind {S} : MBind (M S) := λ A B k c, bind c k.

(** The same sequencing for an expression that touches no state. *)
#[global] Instance outcome_ret : MRet outcome := λ A, Ret.
#[global] Instance outcome_bind : MBind outcome := λ A B k o,
  match o with
  | Ret a => k a
  | Raise e => Raise e
  | OutOfFuel => OutOfFuel
  end.

(** [for x in l: body x], collecting what the bodies return (a list or
    dict comprehension). *)
Fixpoint for_each {S A B} (body : A → M S B) (l : list A) : M S (list B) :=
  match l with
  | [] => ret []
  | x :: l' => y ← body x; ys ← for_each body l'; ret (y :: ys)
  end.

(** [for x in l: body x] for a body run for its effect. *)
Fixpoint for_ {S A} (body : A → M S unit) (l : list A) : M S unit :=
  match l with
  | [] => ret tt
  | x :: l' => body x;; for_ body l'
  end.

(** [range(n)] and [range(a, b)] *)
Definition range (n : Z) : list nat := seq 0 (Z.to_nat n).
Definition range2 (a b : Z) : list Z :=
  (λ k : nat, (a + Z.of_nat k)%Z) <$> seq 0 (Z.to_nat (b - a)).

(** *** Floats: IEEE 754 binary64, round to nearest even *)

Definition prec : Z := 53.
Definition emax : Z := 1024.
Abbreviation float := spec_float.

(** [float(n)] for an int [n]; CPython raises [OverflowError] when [n] is
    too large for a double. *)
Definition float_of_int (n : Z) : outcome float :=
  match binary_normalize prec emax n 0 false with
  | S754_infinity _ => Raise OverflowError
  | x => Ret x
  end.

Definition fmul (x y : float) : float := SFmul prec emax x y.
Definition fdiv (x y : float) : float := SFdiv prec emax x y.
Definition flt (x y : float) : bool := SFltb x y.
Definition fle (x y : float) : bool := SFleb x y.

(** [int(x)] for a float [x]: truncation toward zero. *)
Definition int_of_float (x : float) : outcome Z :=
  match x with
  | S754_zero _ => Ret 0%Z
  | S754_infinity _ => Raise OverflowError
  | S754_nan => Raise ValueError
  | S754_finite s m e =>
      let a := (if 0 <=? e then Z.pos m * 2 ^ e else Z.pos m / 2 ^ (- e))%Z in
      Ret (if s then (- a)%Z else a)
  end.

(** [math.floor(x)], used to state what truncation is not. *)
Definition floor_of_float (x : float) : outcome Z :=
  match x with
  | S754_zero _ => Ret 0%Z
  | S754_infinity _ => Raise OverflowError
  | S754_nan => Raise ValueError
  | S754_finite s m e =>
      Ret (if 0 <=? e
           then (if s then - (Z.pos m * 2 ^ e) else Z.pos m * 2 ^ e)
           else (if s then Z.neg m / 2 ^ (- e) else Z.pos m / 2 ^ (- e)))%Z
  end.

(** *** The [random] module

    A random source is a state with CPython's [_randbelow]: a draw below a
    positive bound. [randint] and [choice] are written on top of it as in
    CPython's [random.py]. *)
Class Random := {
  rng : Type;
  seed_rng : Z → rng;
  randbelow : Z → rng → Z * rng;
  randbelow_range : ∀ n g, (0 < n)%Z → (0 ≤ (randbelow n g).1 < n)%Z
}.

(** [random.randint(a, b)]: [randrange(a, b + 1)], which raises
    [ValueError] on an empty range. *)
Definition randint `{Random} (a b : Z) (g : rng) : outcome Z * rng :=
  if (a <=? b)%Z
  then let '(r, g') := randbelow (b - a + 1) g in (Ret (a + r)%Z, g')
  else (Raise ValueError, g).

(** [random.choice(seq)]: [IndexError] on an empty sequence. *)
Definition choice `{Random} {A} (l : list A) (g : rng) : outcome A * rng :=
  match l with
  | [] => (Raise IndexError, g)
  | x :: _ =>
      let '(r, g') := randbelow (Z.of_nat (length l)) g in
      (Ret (nth (Z.to_nat r) l x), g')
  end.

(** A linear congruential source. *)
Definition lcg_next (g : Z) : Z := ((1103515245 * g + 12345) mod 2147483648)%Z.

#[program] Instance lcg : Random := {
  rng := Z;
  seed_rng s := (s mod 2147483648)%Z;
  randbelow n g := (((lcg_next g / 65536) mod n)%Z, lcg_next g)
}.
Next Obligation. intros n g Hn. simpl. apply Z.mod_pos_bound. lia. Qed.

End Py.


(** ** [Generator.__init__]

    Every generator starts the same way:
<<
    def __init__(self, parameters=None, seed=None):
        self.problem_type = ...
        self.mathematical_formulation = ...
        default_parameters = {...}
        if parameters is None or not parameters:
            parameters = default_parameters
        for key, value in parameters.items():
            setattr(self, key, value)
        self.seed = seed
        if self.seed is not None:
            random.seed(seed)
>>
    MCND and Structure_based_assignment test [parameters is None] alone. *)

Module Init.
Import Py.

(** The test that selects the defaults. *)
Inductive guard :=
| NoneOrEmpty   (* if parameters is None or not parameters: *)
| NoneOnly.     (* if parameters is None: *)

Record generator_class (V : Type) := {
  default_parameters : gmap string V;
  default_guard : guard
}.
Arguments default_parameters {V} _.
Arguments default_guard {V} _.

(** An instance: the attributes stored through [setattr] (and later through
    assignments of [generate_instance]), and [self.seed]. The two constant
    texts [problem_type] and [mathematical_formulation] are attributes too;
    their content plays no part and is not kept. *)
Record Generator (V : Type) := {
  attrs : gmap string V;
  seed : option Z
}.
Arguments attrs {V} _.
Arguments seed {V} _.

(** What reading an attribute gives. *)
Inductive attribute (V : Type) :=
| Param (v : V)
| Seed (s : option Z)
| Doc.
Arguments Param {V} v.
Arguments Seed {V} s.
Arguments Doc {V}.

Section init.
Context `{Random} {V : Type}.

(** [self.seed] is assigned after the loop and [problem_type] and
    [mathematical_formulation] before it. *)
Definition getattr (self : Generator V) (name : string) : option (attribute V) :=
  if decide (name = "seed") then Some (Seed (seed self))
  else match attrs self !! name with
       | Some v => Some (Param v)
       | None =>
           if decide (name = "problem_type" ∨ name = "mathematical_formulation")
           then Some Doc else None
       end.

Definition use_defaults (gd : guard) (parameters : option (gmap string V)) : bool :=
  match parameters, gd with
  | None, _ => true
  | Some p, NoneOrEmpty => bool_decide (size p = 0)   (* not parameters *)
  | Some p, NoneOnly => false
  end.

(** The [setattr] loop over [parameters.items()]. *)
Definition setattr_items (parameters : gmap string V) (a : gmap string V)
  : gmap string V :=
  map_fold (λ key value a, <[key := value]> a) a parameters.

Definition __init__ (cls : generator_class V)
    (parameters : option (gmap string V)) (sd : option Z)
  : M rng (Generator V) :=
  let parameters :=
    if use_defaults (default_guard cls) parameters
    then default_parameters cls
    else default (default_parameters cls) parameters in
  let self := {| attrs := setattr_items parameters ∅; seed := sd |} in
  match sd with
  | Some s => λ _, (Ret self, seed_rng s)   (* random.seed(seed) *)
  | None => ret self
  end.

End init.
End Init.


(** ** Parameter values and the state of [generate_instance] *)

Module Value.
Import Py Init.

(** A Python number. *)
Inductive number :=
| NInt (n : Z)
| NFloat (x : float).

(** The values an attribute can hold: an int, a float, a tuple of two ints
    (a range to draw from), and, for what [generate_instance] stores, a
    list of names and a dict from names or tuples of names to numbers. *)
Inductive value :=
| VInt (n : Z)
| VFloat (x : float)
| VRange (lo hi : Z)
| VList (l : list string)
| VDict (d : list (list string * number)).

(** The float literal [num/den] written in decimal, such as [0.7]: the
    double nearest to the quotient. *)
Definition lit (num den : Z) : float :=
  fdiv (binary_normalize prec emax num 0 false)
       (binary_normalize prec emax den 0 false).

(** [n * v] for an int [n] and a number [v]. For a tuple or a list [v] the
    product is a tuple or a list (as long as its length fits in memory),
    and the [int(...)] that every caller applies to the product raises
    [TypeError]; for a dict the product itself does. *)
Definition int_times (n : Z) (v : value) : outcome number :=
  match v with
  | VInt r => Ret (NInt (n * r))
  | VFloat x => f ← float_of_int n; Ret (NFloat (fmul f x))
  | VRange _ _ | VList _ | VDict _ => Raise TypeError
  end.

(** [int(p)] *)
Definition int_of (p : number) : outcome Z :=
  match p with
  | NInt n => Ret n
  | NFloat x => int_of_float x
  end.

(** [math.floor(p)] *)
Definition floor_of (p : number) : outcome Z :=
  match p with
  | NInt n => Ret n
  | NFloat x => floor_of_float x
  end.

(** [p >= 0] *)
Definition nonneg (p : number) : bool :=
  match p with
  | NInt n => bool_decide (0 ≤ n)%Z
  | NFloat x => fle (S754_zero false) x
  end.

(** A range attribute one can draw from, and a value within it. *)
Definition valid_range (self : Generator value) (name : string) : Prop :=
  ∃ lo hi, attrs self !! name = Some (VRange lo hi) ∧ (lo ≤ hi)%Z.

Definition within (self : Generator value) (name : string) (v : Z) : Prop :=
  ∃ lo hi, attrs self !! name = Some (VRange lo hi) ∧ (lo ≤ v ≤ hi)%Z.

Section world.
Context `{Random}.

(** What [generate_instance] can touch: the object and the global random
    source. *)
Definition world : Type := Generator value * rng.

Definition lift {A} (o : outcome A) : M world A := λ w, (o, w).

(** [self.name] *)
Definition getparam (name : string) : M world value :=
  λ w, match attrs w.1 !! name with
       | Some v => (Ret v, w)
       | None => (Raise AttributeError, w)
       end.

(** [self.name = v] *)
Definition setparam (name : string) (v : value) : M world unit :=
  modify (λ w, ({| attrs := <[name := v]> (attrs w.1); seed := seed w.1 |}, w.2)).

(** [random.randint(a, b)] on the global source *)
Definition random_randint (a b : Z) : M world Z :=
  λ w, let '(o, g) := randint a b w.2 in (o, (w.1, g)).

(** [random.choice(l)] on the global source *)
Definition random_choice {A} (l : list A) : M world A :=
  λ w, let '(o, g) := choice l w.2 in (o, (w.1, g)).

(** [random.randint( *v )]: the argument is unpacked. A number is not
    iterable; a list unpacks to names and a dict to its keys, which are no
    bounds (or not two). *)
Definition randint_unpack (v : value) : M world Z :=
  match v with
  | VRange lo hi => random_randint lo hi
  | VInt _ | VFloat _ | VList _ | VDict _ => raise TypeError
  end.

(** [range(v)] *)
Definition range_of (v : value) : M world (list nat) :=
  match v with
  | VInt n => ret (range n)
  | VFloat _ | VRange _ _ | VList _ | VDict _ => raise TypeError
  end.

(** [isinstance(v, tuple)] *)
Definition is_tuple (v : value) : bool :=
  match v with
  | VRange _ _ => true
  | _ => false
  end.

(** [random.randint( *self.name )] *)
Definition randint_star (name : string) : M world Z :=
  v ← getparam name; randint_unpack v.

End world.
End Value.


(** ** What gurobipy records of a model *)

Module Gurobi.

Inductive vtype := CONTINUOUS | BINARY | INTEGER.
Inductive sense := LESS_EQUAL | GREATER_EQUAL | EQUAL.
Inductive objsense := MINIMIZE | MAXIMIZE.

(** A variable of [addVars(keys, name=family)]: its [VarName] is
    [family[k1,k2,...]]. *)
Record var := Var { family : string; key : list string }.

#[global] Instance var_eq_dec : EqDecision var.
Proof. solve_decision. Defined.

(** A linear expression: the terms in the order [quicksum] adds them. *)
Definition linexpr : Type := list (Z * var).

Record constr := Constr {
  lhs : linexpr;
  csense : sense;
  rhs : Z;
  cname : option string
}.

Record model := Model {
  model_name : string;
  vars : list (var * vtype);
  objective : linexpr;
  model_sense : objsense;
  constrs : list constr
}.

(** [gp.Model(name)] *)
Definition new_model (name : string) : model :=
  Model name [] [] MINIMIZE [].

(** [model.addVars(keys, vtype=vt, name=family)] *)
Definition addVars (keys : list (list string)) (vt : vtype) (fam : string)
    (m : model) : model :=
  Model (model_name m) (vars m ++ ((λ k, (Var fam k, vt)) <$> keys))
        (objective m) (model_sense m) (constrs m).

(** [model.setObjective(e, sense)] *)
Definition setObjective (e : linexpr) (s : objsense) (m : model) : model :=
  Model (model_name m) (vars m) e s (constrs m).

(** [model.addConstr(lhs <sense> rhs, name)] *)
Definition addConstr (c : constr) (m : model) : model :=
  Model (model_name m) (vars m) (objective m) (model_sense m) (constrs m ++ [c]).

(** [for x in l: model.addConstr(c x)] *)
Definition addConstrs {A} (c : A → constr) (l : list A) (m : model) : model :=
  foldl (λ m x, addConstr (c x) m) m l.

(** The value of an expression under an assignment, and what a constraint
    asks of it. *)
Definition eval (a : var → Z) (e : linexpr) : Z :=
  foldr (λ t acc, (t.1 * a t.2 + acc)%Z) 0%Z e.

Definition satisfies (a : var → Z) (c : constr) : Prop :=
  match csense c with
  | LESS_EQUAL => (eval a (lhs c) ≤ rhs c)%Z
  | GREATER_EQUAL => (rhs c ≤ eval a (lhs c))%Z
  | EQUAL => eval a (lhs c) = rhs c
  end.

End Gurobi.


(** ** Dictionaries and loops in the monad *)

Module Loops.
Import Py.

(** A Python dict keeps its keys in insertion order: a list of key and
    value pairs with distinct keys. *)
Section dict.
Context {K : Type} `{EqDecision K} {V : Type}.

(** [d[k] = v]: an existing key keeps its place. *)
Fixpoint dict_set (d : list (K * V)) (k : K) (v : V) : list (K * V) :=
  match d with
  | [] => [(k, v)]
  | (k', v') :: d' =>
      if decide (k' = k) then (k', v) :: d' else (k', v') :: dict_set d' k v
  end.

Fixpoint dict_lookup (d : list (K * V)) (k : K) : option V :=
  match d with
  | [] => None
  | (k', v') :: d' => if decide (k' = k) then Some v' else dict_lookup d' k
  end.

(** The dict built from key and value pairs in order. *)
Definition dict_of (l : list (K * V)) : list (K * V) :=
  foldl (λ d kv, dict_set d kv.1 kv.2) [] l.

(** [{k: body(k) for k in keys}] *)
Definition dict_comp {S} (body : K → M S V) (keys : list K) : M S (list (K * V)) :=
  kvs ← for_each (λ k, v ← body k; mret (k, v)) keys;
  mret (dict_of kvs).

(** [d[k]] *)
Definition dict_get {S} (d : list (K * V)) (k : K) : M S V :=
  match dict_lookup d k with
  | Some v => ret v
  | None => raise KeyError
  end.

End dict.

End Loops.


(** ** KnapSack/Knapsack.py *)

Module Knapsack.
Import Py Init Value Gurobi Loops.

Definition cls : generator_class value := {|
  default_parameters := list_to_map [
    ("n_items", VRange 3 30);
    ("value_range", VRange 10 300);
    ("weight_range", VRange 1 50);
    ("capacity_ratio", VFloat (lit 7 10))
  ];
  default_guard := NoneOrEmpty
|}.

(** The locals of [generate_instance] that hold the data of the instance. *)
Record data := Data {
  items : list string;
  item_values : list (string * Z);
  item_weights : list (string * Z);
  knapsack_capacity : Z
}.

(** [f"item_{i}"] *)
Definition item (i : nat) : string := "item_" +:+ pretty i.

(** [sum(l)] *)
Definition sum (l : list Z) : Z := foldl Z.add 0%Z l.

(** [x[i]] for [x = model.addVars(items, vtype=GRB.BINARY, name="Items")] *)
Definition x (i : string) : var := Var "Items" [i].

Section generate.
Context `{Random}.

(** Lines 52 to 58: the number of items, the items, their values and
    weights. *)
Definition sample : M world (list string * list (string * Z) * list (string * Z)) :=
  n ← randint_star "n_items";
  setparam "n_items" (VInt n);;
  n_items ← getparam "n_items";
  r ← range_of n_items;
  let items := item <$> r in
  item_values ← dict_comp (λ _, randint_star "value_range") items;
  item_weights ← dict_comp (λ _, randint_star "weight_range") items;
  mret (items, item_values, item_weights).

(** Lines 52 to 62: the data of the instance. *)
Definition draw_data : M world data :=
  '(items, item_values, item_weights) ← sample;
  let total_weight := sum item_weights.*2 in
  capacity_ratio ← getparam "capacity_ratio";
  product ← lift (int_times total_weight capacity_ratio);
  knapsack_capacity ← lift (int_of product);
  mret (Data items item_values item_weights knapsack_capacity).

(** Lines 64 to 83: the model. *)
Definition build_model (d : data) : M world model :=
  let model := new_model "Knapsack" in
  let model := addVars ((λ i, [i]) <$> items d) BINARY "Items" model in
  obj ← for_each (λ i, c ← dict_get (item_values d) i; mret (c, x i)) (items d);
  let model := setObjective obj MAXIMIZE model in
  load ← for_each (λ i, w ← dict_get (item_weights d) i; mret (w, x i)) (items d);
  let model :=
    addConstr (Constr load LESS_EQUAL (knapsack_capacity d) (Some "WeightCapacity"))
              model in
  mret model.

Definition generate_instance : M world model :=
  d ← draw_data; build_model d.

End generate.

(** The state after the draw of the number of items. *)
Definition drawn (self : Generator value) (n : Z) : Generator value :=
  {| attrs := <["n_items" := VInt n]> (attrs self); seed := seed self |}.

(** The model a returning [generate_instance] gives, in terms of the data
    it drew. *)
Definition model_of (d : data) : model :=
  Model "Knapsack"
    ((λ i, (x i, BINARY)) <$> items d)
    ((λ kv, (kv.2, x kv.1)) <$> item_values d)
    MAXIMIZE
    [Constr ((λ kv, (kv.2, x kv.1)) <$> item_weights d) LESS_EQUAL
            (knapsack_capacity d) (Some "WeightCapacity")].

End Knapsack.


(** ** TSP/TSP.py: [generate_instance] *)

Module TSP.
Import Py Init Value Gurobi Loops.

Definition cls : generator_class value := {|
  default_parameters := list_to_map [
    ("n_cities", VRange 3 20);
    ("distance_range", VRange 10 1000)
  ];
  default_guard := NoneOrEmpty
|}.

(** [f"city_{i}"] *)
Definition city (i : nat) : string := "city_" +:+ pretty i.

(** [x[i,j]] and [u[i]] for
    [x = model.addVars(self.distances.keys(), vtype=GRB.BINARY, name="route")]
    and [u = model.addVars(self.cities, vtype=GRB.INTEGER, name="u")] *)
Definition x (i j : string) : var := Var "route" [i; j].
Definition u (i : string) : var := Var "u" [i].

(** [(i, j) for i in cities for j in cities if i != j] *)
Definition arcs (cities : list string) : list (string * string) :=
  i ← cities; (λ j, (i, j)) <$> filter (λ j, i ≠ j) cities.

(** The constraints, in the order of the four loops. *)
Definition visit (cities : list string) (j : string) : constr :=
  Constr ((λ i, (1%Z, x i j)) <$> filter (λ i, i ≠ j) cities)
         EQUAL 1 (Some ("visit_" +:+ j)).

Definition depart (cities : list string) (i : string) : constr :=
  Constr ((λ j, (1%Z, x i j)) <$> filter (λ j, i ≠ j) cities)
         EQUAL 1 (Some ("depart_" +:+ i)).

Definition u_lower (i : string) : constr :=
  Constr [(1%Z, u i)] GREATER_EQUAL 0 None.

Definition u_upper (n : nat) (i : string) : constr :=
  Constr [(1%Z, u i)] LESS_EQUAL (Z.of_nat n - 1) None.

Definition mtz (n : nat) (i j : string) : constr :=
  Constr [(1%Z, u i); ((-1)%Z, u j); (Z.of_nat n, x i j)]
         LESS_EQUAL (Z.of_nat n - 1) None.

(** [l[0]] *)
Definition first {S} (l : list string) : M S string :=
  match l with
  | [] => raise IndexError
  | c :: _ => ret c
  end.

Section generate.
Context `{Random}.

Definition generate_instance : M world model :=
  n_cities ← getparam "n_cities";
  (if is_tuple n_cities
   then n ← randint_unpack n_cities; setparam "n_cities" (VInt n)
   else mret tt);;
  n_cities ← getparam "n_cities";
  r ← range_of n_cities;
  let cities := city <$> r in
  setparam "cities" (VList cities);;
  distances ← dict_comp (λ _, randint_star "distance_range") (arcs cities);
  setparam "distances" (VDict ((λ kd, ([kd.1.1; kd.1.2], NInt kd.2)) <$> distances));;
  let model := new_model "TSP" in
  let model := addVars ((λ k, [k.1; k.2]) <$> distances.*1) BINARY "route" model in
  let model := addVars ((λ c, [c]) <$> cities) INTEGER "u" model in
  let model :=
    setObjective ((λ kd, (kd.2, x kd.1.1 kd.1.2)) <$> distances) MINIMIZE model in
  let model := addConstrs (visit cities) cities model in
  let model := addConstrs (depart cities) cities model in
  bounds ← for_each (λ i,
      c0 ← first cities;
      mret (if decide (i ≠ c0)
            then [u_lower i; u_upper (length cities) i] else [])) cities;
  let model := addConstrs id (concat bounds) model in
  subtours ← for_each (λ k,
      c0 ← first cities;
      if decide (k.1 ≠ c0)
      then c0 ← first cities;
           mret (if decide (k.2 ≠ c0) then [mtz (length cities) k.1 k.2] else [])
      else mret []) distances.*1;
  let model := addConstrs id (concat subtours) model in
  mret model.

End generate.

(** The constraints of the four loops, for the cities and the keys of
    [self.distances]. *)
Definition bounds_of (cities : list string) : list constr :=
  concat ((λ i, if decide (Some i ≠ head cities)
                then [u_lower i; u_upper (length cities) i] else []) <$> cities).

Definition subtours_of (cities : list string) (keys : list (string * string))
  : list constr :=
  concat ((λ k, if decide (Some k.1 ≠ head cities ∧ Some k.2 ≠ head cities)
                then [mtz (length cities) k.1 k.2] else []) <$> keys).

(** The model a returning [generate_instance] gives, in terms of the cities
    and of the distances it drew. *)
Definition model_of (cities : list string) (distances : list (string * string * Z))
  : model :=
  Model "TSP"
    (((λ k, (x k.1 k.2, BINARY)) <$> distances.*1) ++ ((λ c, (u c, INTEGER)) <$> cities))
    ((λ kd, (kd.2, x kd.1.1 kd.1.2)) <$> distances)
    MINIMIZE
    ((visit cities <$> cities) ++ (depart cities <$> cities)
     ++ bounds_of cities ++ subtours_of cities distances.*1).

(** What [generate_instance] leaves in the attributes. *)
Definition stored (self : Generator value) (n : Z)
    (distances : list (string * string * Z)) : Generator value :=
  {| attrs :=
       <["distances" := VDict ((λ kd, ([kd.1.1; kd.1.2], NInt kd.2)) <$> distances)]>
         (<["cities" := VList (city <$> range n)]>
            (<["n_cities" := VInt n]> (attrs self)));
     seed := seed self |}.

End TSP.


(** ** CFLP/CFLP_parsed.py: the sampling of [generate_instance] *)

Module CFLP.
Import Py Init Value Gurobi Loops.

Definition cls : generator_class value := {|
  default_parameters := list_to_map [
    ("n_facilities", VRange 3 3);
    ("n_customers", VRange 3 3);
    ("fixed_cost_range", VRange 80000 120000);
    ("transport_cost_range", VRange 10 100);
    ("demand_range", VRange 300 500);
    ("capacity_range", VRange 800 1200)
  ];
  default_guard := NoneOrEmpty
|}.

Record data := Data {
  facilities : list string;
  customers : list string;
  fixed_costs : list (string * Z);
  transport_costs : list (string * string * Z);
  demands : list (string * Z);
  capacities : list (string * Z)
}.

Definition facility (j : nat) : string := "facility_" +:+ pretty j.
Definition customer (i : nat) : string := "customer_" +:+ pretty i.

Section generate.
Context `{Random}.

(** Lines 66 to 79. *)
Definition sample : M world data :=
  n ← randint_star "n_facilities";
  setparam "n_facilities" (VInt n);;
  n ← randint_star "n_customers";
  setparam "n_customers" (VInt n);;
  n_facilities ← getparam "n_facilities";
  r ← range_of n_facilities;
  let facilities := facility <$> r in
  n_customers ← getparam "n_customers";
  r ← range_of n_customers;
  let customers := customer <$> r in
  fixed_costs ← dict_comp (λ _, randint_star "fixed_cost_range") facilities;
  transport_costs ← dict_comp (λ _, randint_star "transport_cost_range")
                      (i ← customers; (λ j, (i, j)) <$> facilities);
  demands ← dict_comp (λ _, randint_star "demand_range") customers;
  capacities ← dict_comp (λ _, randint_star "capacity_range") facilities;
  mret (Data facilities customers fixed_costs transport_costs demands capacities).

End generate.
End CFLP.


(** ** MCND/MCND.py and Structure_based_assignment: [__init__] and the
    first reads of [generate_instance] *)

Module MCND.
Import Py Init Value Loops.

Definition cls : generator_class value := {|
  default_parameters := list_to_map [
    ("n_nodes", VRange 2 10);
    ("n_commodities", VRange 2 10);
    ("density", VFloat (lit 3 10));
    ("capacity_range", VRange 10 500);
    ("fixed_cost_range", VRange 100 5000);
    ("variable_cost_range", VRange 1 10);
    ("demand_range", VRange 10 20)
  ];
  default_guard := NoneOnly
|}.

Section generate.
Context `{Random}.

(** Lines 108 to 110: the first statements of [generate_instance]. *)
Definition draw_sizes : M world (Z * Z) :=
  n ← randint_star "n_nodes";
  setparam "n_nodes" (VInt n);;
  k ← randint_star "n_commodities";
  setparam "n_commodities" (VInt k);;
  mret (n, k).

End generate.
End MCND.

Module SBA.
Import Py Init.

(** The parameters of this generator are ints, floats and a pair of
    floats. *)
Inductive value :=
| VInt (n : Z)
| VFloat (x : float)
| VFloatRange (lo hi : float).

Definition cls : generator_class value := {|
  default_parameters := list_to_map [
    ("n_peaks", VInt 10);
    ("n_acids", VInt 12);
    ("n_assignments", VInt 8);
    ("noe_density", VFloat (Value.lit 3 10));
    ("nth", VFloat (Value.lit 5 1));
    ("cost_range", VFloatRange (S754_zero false) (Value.lit 1 1))
  ];
  default_guard := NoneOnly
|}.

End SBA.


(** ** SetCover/SetCover.py *)

Module SetCover.
Import Py Init Value Gurobi Loops.

Definition cls : generator_class value := {|
  default_parameters := list_to_map [
    ("n_sets", VRange 5 20);
    ("n_elements", VRange 10 30);
    ("density", VFloat (lit 4 10));
    ("cost_range", VRange 1 100)
  ];
  default_guard := NoneOrEmpty
|}.

(** [f"e{j}"] *)
Definition element (j : Z) : string := "e" +:+ pretty j.

(** [x[i]] for
    [x = model.addVars(sets.keys(), vtype=GRB.BINARY, name="Selected")] *)
Definition x (i : Z) : var := Var "Selected" [pretty i].

(** [v * n] for a number [v] and an int [n]; for a tuple or a list the
    product is a tuple or a list, on which [int(...)] raises [TypeError]. *)
Definition times_int (v : value) (n : Z) : outcome number :=
  match v with
  | VInt r => Ret (NInt (r * n))
  | VFloat x => f ← float_of_int n; Ret (NFloat (fmul x f))
  | VRange _ _ | VList _ | VDict _ => Raise TypeError
  end.

(** The locals that hold the instance. *)
Record data := Data {
  elements : list string;
  sets : list (Z * gset string);
  costs : list (Z * Z)
}.

(** [any(e in sets[i] for i in sets)] *)
Definition covered (sets : list (Z * gset string)) (e : string) : bool :=
  bool_decide (Exists (λ kv, e ∈ kv.2) sets).

(** [sets[i].add(e)] *)
Definition add_to {S} (sets : list (Z * gset string)) (i : Z) (e : string)
  : M S (list (Z * gset string)) :=
  s ← dict_get sets i;
  mret (dict_set sets i ({[e]} ∪ s)).

(** [for a in l: acc = body(acc, a)] *)
Fixpoint fold_for {S A B} (body : B → A → M S B) (l : list A) (acc : B) : M S B :=
  match l with
  | [] => mret acc
  | a :: l' => acc' ← body acc a; fold_for body l' acc'
  end.

(** The coverage constraint of an element. *)
Definition cover (sets : list (Z * gset string)) (e : string) : constr :=
  Constr ((λ kv, (1%Z, x kv.1)) <$> filter (λ kv, e ∈ kv.2) sets)
         GREATER_EQUAL 1 (Some ("Cover_" +:+ e)).

Section generate.
Context `{Random}.

(** Lines 67 to 70:
<<
    while len(associations) < num_associations:
        i = random.randint(1, self.n_sets)
        j = random.randint(1, self.n_elements)
        associations.add((i, j))
>>
    with a bound [fuel] on the number of iterations. *)
Fixpoint sample_associations (fuel : nat) (num_associations n_sets n_elements : Z)
    (associations : gset (Z * Z)) : M world (gset (Z * Z)) :=
  if decide (Z.of_nat (size associations) < num_associations)%Z
  then match fuel with
       | O => out_of_fuel
       | S fuel' =>
           i ← random_randint 1 n_sets;
           j ← random_randint 1 n_elements;
           sample_associations fuel' num_associations n_sets n_elements
                               ({[(i, j)]} ∪ associations)
       end
  else mret associations.

(** Lines 81 to 85: the feasibility repair. *)
Definition ensure_feasibility (elements : list string)
    (sets : list (Z * gset string)) : M world (list (Z * gset string)) :=
  fold_for (λ sets e,
      if covered sets e then mret sets
      else random_set ← random_choice sets.*1; add_to sets random_set e)
    elements sets.

(** [int(self.density * total_associations)] *)
Definition num_associations (density : value) (total_associations : Z) : outcome Z :=
  p ← times_int density total_associations; int_of p.

(** Lines 53 to 85. *)
Definition draw_data (fuel : nat) : M world data :=
  n ← randint_star "n_sets";
  setparam "n_sets" (VInt n);;
  m ← randint_star "n_elements";
  setparam "n_elements" (VInt m);;
  let elements := element <$> range2 1 (m + 1) in
  let total_associations := (n * m)%Z in
  density ← getparam "density";
  num ← lift (num_associations density total_associations);
  associations ← sample_associations fuel num n m ∅;
  let sets := (λ i, (i, ∅ : gset string)) <$> range2 1 (n + 1) in
  sets ← fold_for (λ sets ij, add_to sets ij.1 (element ij.2))
                  (base.elements associations) sets;
  costs ← dict_comp (λ _, randint_star "cost_range") (range2 1 (n + 1));
  sets ← ensure_feasibility elements sets;
  mret (Data elements sets costs).

(** Lines 87 to 107. *)
Definition build_model (d : data) : M world model :=
  let model := new_model "SetCovering" in
  let model := addVars ((λ i : Z, [pretty i]) <$> (sets d).*1) BINARY "Selected" model in
  obj ← for_each (λ i, c ← dict_get (costs d) i; mret (c, x i)) (sets d).*1;
  let model := setObjective obj MINIMIZE model in
  let model := addConstrs (cover (sets d)) (elements d) model in
  mret model.

Definition generate_instance (fuel : nat) : M world model :=
  d ← draw_data fuel; build_model d.

End generate.

(** The pairs that the first [t] iterations of the sampling loop draw when
    nothing stops it, added to [acc]. *)
Fixpoint drawn_pairs `{Random} (t : nat) (n_sets n_elements : Z)
    (acc : gset (Z * Z)) : M world (gset (Z * Z)) :=
  match t with
  | O => mret acc
  | S t' =>
      i ← random_randint 1 n_sets;
      j ← random_randint 1 n_elements;
      drawn_pairs t' n_sets n_elements ({[(i, j)]} ∪ acc)
  end.

(** All the pairs there are: [1..n_sets] times [1..n_elements]. *)
Definition all_pairs (n_sets n_elements : Z) : gset (Z * Z) :=
  list_to_set (i ← range2 1 (n_sets + 1); (λ j, (i, j)) <$> range2 1 (n_elements + 1)).

(** Every element covered by [sets] is covered by [sets']. *)
Definition grows (sets sets' : list (Z * gset string)) : Prop :=
  ∀ e, covered sets e = true → covered sets' e = true.

End SetCover.


(** ** [print_solution]

    [print_solution(self, model)] is called with a solved model on a
    generator whose [generate_instance] has returned, so the attributes it
    reads hold what [generate_instance] stored: lists of names and dicts
    keyed by names. The state it can touch is the generator's stored data,
    the model, and standard output; the log [reads] records every read of a
    variable's value [v.X]. *)

Module Report.
Import Py Value Loops.

(** A variable of a solved model. *)
Record gvar := GVar { VarName : string; X : float }.

Record solved := Solved {
  Status : Z;
  ObjVal : float;
  Vars : list gvar
}.

(** [GRB.OPTIMAL] *)
Definition OPTIMAL : Z := 2.

Record pworld (D : Type) := PWorld {
  self : D;
  mdl : solved;
  stdout : list string;
  reads : list string
}.
Arguments PWorld {D} _ _ _ _.
Arguments self {D} _.
Arguments mdl {D} _.
Arguments stdout {D} _.
Arguments reads {D} _.

(** String formatting and float summation are Python's; only the text they
    give differs, so they are left as an interface:
    [fixed n x] is [f"{x:.nf}"], [div_fixed n a b] is [f"{a/b:.nf}"],
    [center w s] is [f"{s:^w}"], [center_int w n] is [f"{n:^w}"],
    [center_fixed w n x] is [f"{x:^w.nf}"], and [float_sum l] is [sum(l)] for a list of floats. *)
Class Format := {
  fixed : nat → number → outcome string;
  div_fixed : nat → Z → Z → outcome string;
  center : nat → string → string;
  center_int : nat → Z → string;
  center_fixed : nat → nat → float → string;
  float_sum : list float → number
}.

(** [s.split(sep)] for a separator of one character *)
Fixpoint split (sep : Ascii.ascii) (s : string) : list string :=
  match s with
  | EmptyString => [EmptyString]
  | String c s' =>
      if decide (c = sep) then EmptyString :: split sep s'
      else match split sep s' with
           | [] => [String c EmptyString]
           | p :: ps => String c p :: ps
           end
  end.

(** [sep.join(l)] *)
Fixpoint join (sep : string) (l : list string) : string :=
  match l with
  | [] => ""
  | [s] => s
  | s :: l' => s +:+ sep +:+ join sep l'
  end.

Section ops.
Context {D : Type}.

Definition print (s : string) : M (pworld D) unit :=
  modify (λ w, PWorld (self w) (mdl w) (stdout w ++ [s]) (reads w)).

(** [v.X] *)
Definition read_X (v : gvar) : M (pworld D) float :=
  λ w, (Ret (X v), PWorld (self w) (mdl w) (stdout w) (reads w ++ [VarName v])).

Definition lift {A} (o : outcome A) : M (pworld D) A := λ w, (o, w).

(** [l[i]] *)
Definition index {A} (l : list A) (i : nat) : M (pworld D) A :=
  match l !! i with
  | Some a => ret a
  | None => raise IndexError
  end.

(** [v.VarName.split('[')[1].split(']')[0]] *)
Definition var_key (v : gvar) : M (pworld D) string :=
  rest ← index (split "["%char (VarName v)) 1;
  index (split "]"%char rest) 0.

End ops.

(** A computation that leaves the generator's data and the model as they
    are and only appends to standard output. *)
Definition frames {D A} (c : M (pworld D) A) : Prop :=
  ∀ w o w', c w = (o, w') →
    self w' = self w ∧ mdl w' = mdl w ∧ ∃ out, stdout w' = stdout w ++ out.

End Report.


(** ** TSP/TSP.py: [print_solution] *)

Module TSPReport.
Import Py Value Loops Report.

(** What [generate_instance] stored in [self.cities] and [self.distances]. *)
Record data := Data {
  cities : list string;
  distances : list (string * string * Z)
}.

Section print.
Context `{Format}.

(** The inner loop: the first variable [route[current_city,city2]] whose
    value is above one half gives [next_city = city2]. *)
Fixpoint find_next (current_city : string) (vs : list gvar)
  : M (pworld data) (option string) :=
  match vs with
  | [] => mret None
  | v :: vs' =>
      if String.prefix "route" (VarName v)
      then k ← var_key v;
           match split ","%char k with
           | [city1; city2] =>
               if decide (city1 = current_city)
               then x ← read_X v;
                    if flt (lit 1 2) x then mret (Some city2)
                    else find_next current_city vs'
               else find_next current_city vs'
           | _ => raise ValueError
           end
      else find_next current_city vs'
  end.

(** The outer loop, [for _ in range(len(self.cities))], with its [break]. *)
Fixpoint follow (steps : nat) (current_city : string) (route : list string)
  : M (pworld data) (list string) :=
  match steps with
  | O => mret route
  | S steps' =>
      vs ← gets (λ w, Vars (mdl w));
      next_city ← find_next current_city vs;
      match next_city with
      | None => mret route
      | Some c => follow steps' c (route ++ [current_city])
      end
  end.

(** The loop over the segments of the route. *)
Fixpoint segments (route : list string) (total_distance : Z)
  : M (pworld data) Z :=
  match route with
  | a :: (b :: _) as route' =>
      d ← gets (λ w, distances (self w));
      distance ← dict_get d (a, b);
      print (center 10 a +:+ " " +:+ center 10 b +:+ " " +:+ center_int 10 distance);;
      segments route' (total_distance + distance)%Z
  | _ => mret total_distance
  end.

Definition nl : string := String "010"%char "".

Definition print_solution : M (pworld data) unit :=
  status ← gets (λ w, Status (mdl w));
  if decide (status ≠ OPTIMAL) then print "No optimal solution found."
  else
    print (nl +:+ "=== Traveling Salesman Solution ===");;
    obj ← gets (λ w, ObjVal (mdl w));
    s ← lift (fixed 2 (NFloat obj));
    print ("Total Distance: " +:+ s);;
    cs ← gets (λ w, cities (self w));
    current_city ← index cs 0;
    cs ← gets (λ w, cities (self w));
    route ← follow (length cs) current_city [];
    r0 ← index route 0;
    let route := route ++ [r0] in
    print (nl +:+ "Optimal Route:");;
    print (join " -> " route);;
    print (nl +:+ "Segment Details:");;
    print (center 10 "From" +:+ " " +:+ center 10 "To" +:+ " " +:+ center 10 "Distance");;
    print "------------------------------";;
    total_distance ← segments route 0%Z;
    print (nl +:+ "Statistics:");;
    cs ← gets (λ w, cities (self w));
    print ("Number of cities: " +:+ pretty (length cs));;
    s ← lift (fixed 2 (NInt total_distance));
    print ("Total distance: " +:+ s);;
    cs ← gets (λ w, cities (self w));
    s ← lift (div_fixed 2 total_distance (Z.of_nat (length cs)));
    print ("Average segment distance: " +:+ s).

End print.
End TSPReport.


(** ** Portfolio/Portfolio.py: [print_solution] *)

Module PortfolioReport.
Import Py Value Loops Report.

(** What [generate_instance] stored in [self.assets], [self.returns] and
    [self.volatilities]. *)
Record data := Data {
  assets : list string;
  returns : list (string * float);
  volatilities : list (string * float)
}.

(** [np.sqrt(x)] *)
Definition fsqrt (x : float) : float := SFsqrt prec emax x.

(** [max(l)] and [min(l)]: the first item, replaced by each later item that
    compares greater (less). *)
Definition py_max (l : list float) : outcome float :=
  match l with
  | [] => Raise ValueError
  | x :: l' => Ret (foldl (λ m y, if flt m y then y else m) x l')
  end.

Definition py_min (l : list float) : outcome float :=
  match l with
  | [] => Raise ValueError
  | x :: l' => Ret (foldl (λ m y, if flt y m then y else m) x l')
  end.

Definition nl : string := String "010"%char "".

Section print.
Context `{Format}.

(** [model.getVarByName(name).X]: [getVarByName] gives [None] when no
    variable has the name. *)
Definition X_by_name (name : string) : M (pworld data) float :=
  vs ← gets (λ w, Vars (mdl w));
  match list_find (λ v, VarName v = name) vs with
  | Some (_, v) => read_X v
  | None => raise AttributeError
  end.

(** The loop that fills [weights]. *)
Fixpoint collect (vs : list gvar) (weights : list (string * float))
  : M (pworld data) (list (string * float)) :=
  match vs with
  | [] => mret weights
  | v :: vs' =>
      if String.prefix "Weights" (VarName v)
      then asset ← var_key v;
           x ← read_X v;
           collect vs' (dict_set weights asset x)
      else collect vs' weights
  end.

Definition print_solution : M (pworld data) unit :=
  status ← gets (λ w, Status (mdl w));
  if decide (status ≠ OPTIMAL) then print "No optimal solution found."
  else
    print (nl +:+ "=== Portfolio Optimization Results ===");;
    variance ← X_by_name "PortfolioVariance";
    s ← lift (fixed 4 (NFloat (fsqrt variance)));
    print ("Portfolio Risk (Std Dev): " +:+ s);;
    vs ← gets (λ w, Vars (mdl w));
    weights ← collect vs [];
    a ← gets (λ w, assets (self w));
    terms ← for_each (λ i,
        w ← dict_get weights i;
        r ← gets (λ w, returns (self w));
        ri ← dict_get r i;
        mret (fmul w ri)) a;
    let port_return := float_sum terms in
    print (nl +:+ "Portfolio Allocation:");;
    print (center 12 "Asset" +:+ " " +:+ center 10 "Weight" +:+ " "
           +:+ center 10 "Return" +:+ " " +:+ center 10 "Risk");;
    print "---------------------------------------------";;
    a ← gets (λ w, assets (self w));
    for_ (λ asset,
        w ← dict_get weights asset;
        r ← gets (λ w, returns (self w));
        ri ← dict_get r asset;
        v ← gets (λ w, volatilities (self w));
        vi ← dict_get v asset;
        print (center 12 asset +:+ " " +:+ center_fixed 10 4 w +:+ " "
               +:+ center_fixed 10 4 ri +:+ " " +:+ center_fixed 10 4 vi)) a;;
    print (nl +:+ "Portfolio Statistics:");;
    a ← gets (λ w, assets (self w));
    print ("Number of assets: " +:+ pretty (length a));;
    s ← lift (fixed 4 port_return);
    print ("Portfolio expected return: " +:+ s);;
    hi ← lift (py_max weights.*2);
    s ← lift (fixed 4 (NFloat hi));
    print ("Highest individual weight: " +:+ s);;
    lo ← lift (py_min weights.*2);
    s ← lift (fixed 4 (NFloat lo));
    print ("Lowest individual weight: " +:+ s);;
    let herfindahl := float_sum ((λ w, fmul w w) <$> weights.*2) in
    s ← lift (fixed 4 herfindahl);
    print ("Herfindahl Index (concentration): " +:+ s).

End print.
End PortfolioReport.


(** * What the specification claims, and the inputs it is tried on *)

Import Py Init Value Gurobi Loops.

(** C1 as the specification words it: for a non-empty user dict, every key
    of the dict is stored with the user's value and every default key that
    the dict omits is stored with its default value. *)
Definition merges_with_defaults `{Random} {V} (cls : generator_class V) : Prop :=
  ∀ (p : gmap string V) sd g self g',
    size p ≠ 0 →
    __init__ cls (Some p) sd g = (Ret self, g') →
    (∀ k v, p !! k = Some v → getattr self k = Some (Param v)) ∧
    (∀ k v, default_parameters cls !! k = Some v → p !! k = None →
            getattr self k = Some (Param v)).

(** The names that [__init__] assigns itself. *)
Definition reserved (k : string) : Prop :=
  k = "seed" ∨ k = "problem_type" ∨ k = "mathematical_formulation".

(** [g = Generator(parameters, seed); g.generate_instance()] run from a
    state [g0] of the global random source: the data of the instance. *)
Definition seeded_instance `{Random} (parameters : option (gmap string value))
    (sd : option Z) : M rng Knapsack.data :=
  bind (__init__ Knapsack.cls parameters sd) (λ self g,
    let '(o, w) := Knapsack.draw_data (self, g) in (o, w.2)).

Definition seeded_model `{Random} (parameters : option (gmap string value))
    (sd : option Z) : M rng model :=
  bind (__init__ Knapsack.cls parameters sd) (λ self g,
    let '(o, w) := Knapsack.generate_instance (self, g) in (o, w.2)).

(** C3 as the specification words it: two constructions with the same
    parameters and seed, followed by one [generate_instance] call each,
    give the same data. The four calls come in the order construct,
    construct, generate, generate, on the one global random source. *)
Definition two_constructions_agree `{Random} : Prop :=
  ∀ (parameters : option (gmap string value)) (s : Z) g0 a g1 b g2 da wa db wb,
    __init__ Knapsack.cls parameters (Some s) g0 = (Ret a, g1) →
    __init__ Knapsack.cls parameters (Some s) g1 = (Ret b, g2) →
    Knapsack.draw_data (a, g2) = (Ret da, wa) →
    Knapsack.draw_data (b, wa.2) = (Ret db, wb) →
    da = db.

(** Two items with values and weights from 1 to 9. *)
Definition two_items : gmap string value :=
  list_to_map [
    ("n_items", VRange 2 2);
    ("value_range", VRange 1 9);
    ("weight_range", VRange 1 9);
    ("capacity_ratio", VFloat (lit 1 2))
  ].

(** C4 as the specification words it, for the right-hand side of the
    constraint: [K] is the floor of the product. *)
Definition capacity_is_floor `{Random} : Prop :=
  ∀ self g m w',
    Knapsack.generate_instance (self, g) = (Ret m, w') →
    ∃ d ratio product K,
      Knapsack.draw_data (self, g) = (Ret d, w') ∧
      attrs self !! "capacity_ratio" = Some ratio ∧
      int_times (Knapsack.sum (Knapsack.item_weights d).*2) ratio = Ret product ∧
      floor_of product = Ret K ∧
      rhs <$> constrs m = [K].

(** One item of weight [-3] and a ratio of one half. *)
Definition negative_weight : Generator value := {|
  attrs := list_to_map [
    ("n_items", VRange 1 1);
    ("value_range", VRange 1 1);
    ("weight_range", VRange (-3) (-3));
    ("capacity_ratio", VFloat (lit 1 2))
  ];
  seed := None
|}.

(** The instances built from the defaults. *)
Definition knapsack_default : Generator value :=
  {| attrs := default_parameters Knapsack.cls; seed := None |}.

Definition cflp_default : Generator value :=
  {| attrs := default_parameters CFLP.cls; seed := None |}.

(** Three cities. *)
Definition three_cities : Generator value := {|
  attrs := list_to_map [("n_cities", VRange 3 3); ("distance_range", VRange 10 20)];
  seed := None
|}.

(** A universe of four elements and at most three sets. *)
Definition small_cover : Generator value := {|
  attrs := list_to_map [
    ("n_sets", VRange 2 3);
    ("n_elements", VRange 3 4);
    ("density", VFloat (lit 4 10));
    ("cost_range", VRange 1 9)
  ];
  seed := None
|}.

(** C8 as the specification words it. First half: for a density of at
    most 1, on a stream whose draws bring the number of distinct pairs to
    [int(density * n_sets * n_elements)], the loop returns with that many
    pairs. Second half: with a density above 1 the loop never returns. *)
Definition terminates_up_to_one `{Random} : Prop :=
  ∀ (density : float) n_sets n_elements num (w : world),
    fle density (lit 1 1) = true →
    SetCover.num_associations (VFloat density) (n_sets * n_elements) = Ret num →
    ∀ t pairs w1,
      SetCover.drawn_pairs t n_sets n_elements ∅ w = (Ret pairs, w1) →
      Z.of_nat (size pairs) = num →
      ∃ fuel associations w',
        SetCover.sample_associations fuel num n_sets n_elements ∅ w
        = (Ret associations, w') ∧
        Z.of_nat (size associations) = num.

Definition never_exits_above_one `{Random} : Prop :=
  ∀ (density : float) n_sets n_elements num,
    flt (lit 1 1) density = true →
    SetCover.num_associations (VFloat density) (n_sets * n_elements) = Ret num →
    ∀ fuel (w : world) associations w',
      SetCover.sample_associations fuel num n_sets n_elements ∅ w
      ≠ (Ret associations, w').

(** A formatting that keeps no digits, to run [print_solution]. *)
#[local] Instance plain_format : Report.Format := {|
  Report.fixed _ _ := Ret "0";
  Report.div_fixed _ _ _ := Ret "0";
  Report.center _ s := s;
  Report.center_int _ n := pretty n;
  Report.center_fixed _ _ _ := "0";
  Report.float_sum _ := NInt 0
|}.

(** An infeasible model ([GRB.INFEASIBLE] is 3) of two variables. *)
Definition infeasible : Report.solved :=
  Report.Solved 3 (S754_zero false)
    [Report.GVar "route[city_0,city_1]" (S754_zero false);
     Report.GVar "route[city_1,city_0]" (S754_zero false)].

Definition two_cities : TSPReport.data :=
  TSPReport.Data ["city_0"; "city_1"]
    [("city_0", "city_1", 10%Z); ("city_1", "city_0", 12%Z)].

Definition two_assets : PortfolioReport.data :=
  PortfolioReport.Data ["asset_0"; "asset_1"]
    [("asset_0", lit 1 10); ("asset_1", lit 12 100)]
    [("asset_0", lit 2 10); ("asset_1", lit 15 100)].


(** * More of the generators *)

(** ** Variables and their default bounds *)

Module Bounds.
Import Py Init Value Gurobi.

(** [addVars] without [lb] and [ub] gives every variable the bounds 0 and
    infinity; a [GRB.BINARY] variable takes the values 0 and 1. *)
Definition in_bounds (a : var → Z) (vv : var * vtype) : Prop :=
  match vv.2 with
  | BINARY => (0 ≤ a vv.1 ≤ 1)%Z
  | CONTINUOUS | INTEGER => (0 ≤ a vv.1)%Z
  end.

(** An assignment that the model accepts. *)
Definition feasible (a : var → Z) (m : model) : Prop :=
  Forall (in_bounds a) (vars m) ∧ Forall (satisfies a) (constrs m).

(** A float that is not below zero: a zero of either sign, a positive
    float, or no number at all. *)
Definition not_negative (x : float) : Prop :=
  match x with
  | S754_zero _ | S754_nan => True
  | S754_infinity s | S754_finite s _ _ => s = false
  end.

(** [v >= 0] for a parameter that holds a number. *)
Definition nonneg_value (v : value) : Prop :=
  match v with
  | VInt r => (0 ≤ r)%Z
  | VFloat x => fle (S754_zero false) x = true
  | VRange _ _ | VList _ | VDict _ => False
  end.

(** A parameter that holds a finite number. *)
Definition finite_value (v : value) : Prop :=
  match v with
  | VInt _ | VFloat (S754_zero _) | VFloat (S754_finite _ _ _) => True
  | VFloat (S754_infinity _) | VFloat S754_nan
  | VRange _ _ | VList _ | VDict _ => False
  end.

(** A parameter that holds a zero: [0], [0.0] or [-0.0]. *)
Definition zero_value (v : value) : Prop :=
  match v with
  | VInt n => n = 0%Z
  | VFloat (S754_zero _) => True
  | VFloat _ | VRange _ _ | VList _ | VDict _ => False
  end.

End Bounds.

(** ** SetCover: how the repair changes the sets *)

Module Repair.

(** The set [new] is stored under the key of [old], holds what [old] held
    and beyond that only members of [added]. *)
Definition extends (added : list string) (old new : Z * gset string) : Prop :=
  old.1 = new.1 ∧ old.2 ⊆ new.2 ∧ ∀ e, e ∈ new.2 → e ∈ old.2 ∨ e ∈ added.

(** In how many of the sets an element lies. *)
Definition multiplicity (sets : list (Z * gset string)) (e : string) : nat :=
  length (filter (λ kv, e ∈ kv.2) sets).

End Repair.

(** ** The tour that visits the cities in the order of their numbers *)

Module Tour.
Import Py Init Value Gurobi.

(** The city after city [k] of [n]. *)
Definition next (n k : nat) : nat := if decide (S k = n) then 0 else S k.

(** The number of a city, looked up among the [n] cities. *)
Definition position (n : nat) (c : string) : option nat :=
  fst <$> list_find (λ k, TSP.city k = c) (seq 0 n).

(** [route[i,j] = 1] when [j] comes after [i], and [u[i]] is the number of
    [i]. *)
Definition tour (n : nat) (v : var) : Z :=
  match key v with
  | [i; j] =>
      if decide (family v = "route")
      then match position n i, position n j with
           | Some a, Some b => if decide (b = next n a) then 1%Z else 0%Z
           | _, _ => 0%Z
           end
      else 0%Z
  | [i] =>
      if decide (family v = "u")
      then match position n i with
           | Some a => Z.of_nat a
           | None => 0%Z
           end
      else 0%Z
  | _ => 0%Z
  end.

End Tour.

(** ** Constraints with an expression on both sides *)

Module Expr.
Import Gurobi.

(** [-e] *)
Definition neg (e : linexpr) : linexpr := (λ t, ((- t.1)%Z, t.2)) <$> e.

(** [model.addConstr(l <= r, name)] for expressions [l] and [r]: gurobipy
    moves the terms of [r] to the left, the row is [l - r <= 0]. *)
Definition le_expr (l r : linexpr) (name : option string) : constr :=
  Constr (l ++ neg r) LESS_EQUAL 0 name.

End Expr.

(** ** CFLP/CFLP_parsed.py: the model *)

Module CFLPModel.
Import Py Init Value Gurobi Loops Expr CFLP.

(** [y[j]] and [x[i,j]] for
    [y = model.addVars(facilities, vtype=GRB.BINARY, name="FacilityOpen")]
    and [x = model.addVars(customers, facilities, name="ShippedAmount")] *)
Definition y (j : string) : var := Var "FacilityOpen" [j].
Definition x (i j : string) : var := Var "ShippedAmount" [i; j].

(** [for i in customers for j in facilities] *)
Definition pairs (customers facilities : list string) : list (string * string) :=
  i ← customers; (λ j, (i, j)) <$> facilities.

(** The constraints of the three loops. *)
Definition demand (facilities : list string) (i : string) (d : Z) : constr :=
  Constr ((λ j, (1%Z, x i j)) <$> facilities) EQUAL d (Some ("Demand_" +:+ i)).

Definition valid (i j : string) (d : Z) : constr :=
  le_expr [(1%Z, x i j)] [(d, y j)] (Some ("Valid_" +:+ i +:+ "_" +:+ j)).

Definition capacity (customers : list string) (j : string) (k : Z) : constr :=
  le_expr ((λ i, (1%Z, x i j)) <$> customers) [(k, y j)] (Some ("Capacity_" +:+ j)).

Section generate.
Context `{Random}.

(** Lines 81 to 118. *)
Definition build_model (d : data) : M world model :=
  let model := new_model "CapacitatedFacilityLocation" in
  let model := addVars ((λ j, [j]) <$> facilities d) BINARY "FacilityOpen" model in
  let model :=
    addVars ((λ ij, [ij.1; ij.2]) <$> pairs (customers d) (facilities d))
            CONTINUOUS "ShippedAmount" model in
  fixed ← for_each (λ j, c ← dict_get (fixed_costs d) j; mret (c, y j)) (facilities d);
  transport ← for_each (λ ij, c ← dict_get (transport_costs d) ij;
                              mret (c, x ij.1 ij.2))
                 (pairs (customers d) (facilities d));
  let model := setObjective (fixed ++ transport) MINIMIZE model in
  cs ← for_each (λ i, di ← dict_get (demands d) i; mret (demand (facilities d) i di))
         (customers d);
  let model := addConstrs id cs model in
  cs ← for_each (λ ij, di ← dict_get (demands d) ij.1; mret (valid ij.1 ij.2 di))
         (pairs (customers d) (facilities d));
  let model := addConstrs id cs model in
  cs ← for_each (λ j, kj ← dict_get (capacities d) j; mret (capacity (customers d) j kj))
         (facilities d);
  let model := addConstrs id cs model in
  mret model.

Definition generate_instance : M world model :=
  d ← sample; build_model d.

End generate.

(** [d[k]] for a key that the dict holds. *)
Definition at_key {K} `{EqDecision K} (d : list (K * Z)) (k : K) : Z :=
  default 0%Z (dict_lookup d k).

(** The model a returning [generate_instance] gives, in terms of the data
    it drew. *)
Definition model_of (d : data) : model :=
  Model "CapacitatedFacilityLocation"
    (((λ j, (y j, BINARY)) <$> facilities d)
     ++ ((λ ij, (x ij.1 ij.2, CONTINUOUS)) <$> pairs (customers d) (facilities d)))
    (((λ j, (at_key (fixed_costs d) j, y j)) <$> facilities d)
     ++ ((λ ij, (at_key (transport_costs d) ij, x ij.1 ij.2))
           <$> pairs (customers d) (facilities d)))
    MINIMIZE
    (((λ i, demand (facilities d) i (at_key (demands d) i)) <$> customers d)
     ++ ((λ ij, valid ij.1 ij.2 (at_key (demands d) ij.1))
           <$> pairs (customers d) (facilities d))
     ++ ((λ j, capacity (customers d) j (at_key (capacities d) j)) <$> facilities d)).

(** Customer [i] is served by facility [i], and every facility is open. *)
Definition one_to_one (d : data) (v : var) : Z :=
  match key v with
  | [i; j] =>
      if decide (family v = "ShippedAmount")
      then match list_find (λ k, customer k = i ∧ facility k = j)
                           (seq 0 (length (customers d))) with
           | Some _ => at_key (demands d) i
           | None => 0%Z
           end
      else 0%Z
  | [j] => if decide (family v = "FacilityOpen") then 1%Z else 0%Z
  | _ => 0%Z
  end.

End CFLPModel.

(** ** Real values for the variables

    A [GRB.CONTINUOUS] variable takes real values; what a constraint asks
    of an assignment of reals. *)

Module Continuous.
Import Gurobi Rdefinitions.

Definition evalR (a : var → R) (e : linexpr) : R :=
  foldr (λ t acc, (IZR t.1 * a t.2 + acc)%R) 0%R e.

Definition satisfiesR (a : var → R) (c : constr) : Prop :=
  match csense c with
  | LESS_EQUAL => (evalR a (lhs c) <= IZR (rhs c))%R
  | GREATER_EQUAL => (IZR (rhs c) <= evalR a (lhs c))%R
  | EQUAL => evalR a (lhs c) = IZR (rhs c)
  end.

(** The sum of the [f i] over a list. *)
Definition sumR {A} (f : A → R) (l : list A) : R :=
  foldr (λ i acc, (f i + acc)%R) 0%R l.

End Continuous.


(** * Properties *)

(** ** Python's [random], [__init__], the model record, dicts and loops *)

Module PyFacts.
Import Py.

Lemma randint_spec `{Random} a b g :
  (a ≤ b)%Z → ∃ v g', randint a b g = (Ret v, g') ∧ (a ≤ v ≤ b)%Z.
Proof.
  intros Hab. unfold randint.
  destruct (Z.leb_spec a b) as [_|]; [|lia].
  pose proof (randbelow_range (b - a + 1) g ltac:(lia)) as Hr.
  destruct (randbelow (b - a + 1) g) as [r g']; simpl in Hr.
  exists (a + r)%Z, g'. split; [done|lia].
Qed.

Lemma randint_ret `{Random} a b g v g' :
  randint a b g = (Ret v, g') → (a ≤ v ≤ b)%Z.
Proof.
  unfold randint. destruct (Z.leb_spec a b) as [Hab|]; [|done].
  pose proof (randbelow_range (b - a + 1) g ltac:(lia)) as Hr.
  destruct (randbelow (b - a + 1) g) as [r g'']; simpl in Hr.
  intros [= <- <-]. lia.
Qed.

Lemma randint_empty `{Random} a b g :
  (b < a)%Z → randint a b g = (Raise ValueError, g).
Proof. intros Hab. unfold randint. by destruct (Z.leb_spec a b); [lia|]. Qed.

Lemma choice_ret `{Random} {A} (l : list A) g x g' :
  choice l g = (Ret x, g') → x ∈ l.
Proof.
  destruct l as [|y l]; [done|]. unfold choice.
  remember (y :: l) as l' eqn:El.
  assert (0 < Z.of_nat (length l'))%Z as Hlen by (subst l'; simpl; lia).
  pose proof (randbelow_range _ g Hlen) as Hr.
  destruct (randbelow _ g) as [r g'']; simpl in Hr.
  intros [= <- <-]. apply list_elem_of_In, nth_In. lia.
Qed.

Lemma choice_spec `{Random} {A} (l : list A) g :
  l ≠ [] → ∃ x g', choice l g = (Ret x, g') ∧ x ∈ l.
Proof.
  intros Hl. destruct (choice l g) as [o g'] eqn:E.
  assert (∃ x, o = Ret x) as [x ->].
  { destruct l as [|y l]; [done|]. unfold choice in E.
    destruct (randbelow _ g). injection E as <- <-. eauto. }
  exists x, g'. split; [done|]. by eapply choice_ret.
Qed.

End PyFacts.

Module InitFacts.
Import Py Init.

Section init.
Context `{Random} {V : Type}.

Lemma setattr_items_lookup (p a : gmap string V) k :
  setattr_items p a !! k = match p !! k with Some v => Some v | None => a !! k end.
Proof.
  unfold setattr_items.
  induction p as [|i x p Hi Hfold IH] using map_first_key_ind.
  - by rewrite map_fold_empty, lookup_empty.
  - rewrite map_fold_insert_first_key by done.
    destruct (decide (i = k)) as [->|Hne].
    + by rewrite !lookup_insert_eq.
    + by rewrite !lookup_insert_ne.
Qed.

Lemma setattr_items_empty (p : gmap string V) : setattr_items p ∅ = p.
Proof.
  apply map_eq. intros k. rewrite setattr_items_lookup, lookup_empty.
  by destruct (p !! k).
Qed.

Lemma init_attrs (cls : generator_class V) (parameters : option (gmap string V))
    (sd : option Z) (g : rng) :
  ∃ self,
    __init__ cls parameters sd g
      = (Ret self, match sd with Some s => seed_rng s | None => g end) ∧
    seed self = sd ∧
    attrs self =
      if use_defaults (default_guard cls) parameters
      then default_parameters cls
      else default (default_parameters cls) parameters.
Proof.
  unfold __init__. eexists. split; [by destruct sd|].
  split; [done|]. simpl. apply setattr_items_empty.
Qed.

End init.
End InitFacts.

Module GurobiFacts.
Import Gurobi.

Lemma constrs_addConstrs {A} (c : A → constr) l m :
  constrs (addConstrs c l m) = constrs m ++ (c <$> l).
Proof.
  unfold addConstrs. revert m.
  induction l as [|x l IH]; intros m; simpl.
  - by rewrite app_nil_r.
  - rewrite IH. simpl. by rewrite <- app_assoc.
Qed.

Lemma addConstrs_eq {A} (c : A → constr) l m :
  addConstrs c l m
  = Model (model_name m) (vars m) (objective m) (model_sense m)
          (constrs m ++ (c <$> l)).
Proof.
  unfold addConstrs. revert m.
  induction l as [|x l IH]; intros m; simpl.
  - rewrite app_nil_r. by destruct m.
  - rewrite IH. simpl. by rewrite <- app_assoc.
Qed.

Lemma vars_addConstrs {A} (c : A → constr) l m :
  vars (addConstrs c l m) = vars m.
Proof.
  unfold addConstrs. revert m. induction l as [|x l IH]; intros m; simpl; [done|].
  by rewrite IH.
Qed.

End GurobiFacts.

Module LoopFacts.
Import Py Loops.

Section dict.
Context {K : Type} `{EqDecision K} {V : Type}.

Lemma dict_set_fresh (d : list (K * V)) k v :
  k ∉ d.*1 → dict_set d k v = d ++ [(k, v)].
Proof.
  induction d as [|[k' v'] d IH]; intros Hk; simpl; [done|].
  rewrite fmap_cons, not_elem_of_cons in Hk. destruct Hk as [Hne Hk].
  destruct (decide (k' = k)) as [->|_]; [done|]. by rewrite IH.
Qed.

Lemma dict_of_from (d l : list (K * V)) :
  NoDup (d ++ l).*1 → foldl (λ d kv, dict_set d kv.1 kv.2) d l = d ++ l.
Proof.
  revert d. induction l as [|[k v] l IH]; intros d Hnd; simpl.
  - by rewrite app_nil_r.
  - rewrite dict_set_fresh.
    + rewrite IH; rewrite <- app_assoc; done.
    + rewrite fmap_app in Hnd. apply NoDup_app in Hnd as (_ & Hd & _).
      intros Hin. apply (Hd k Hin). rewrite fmap_cons. apply list_elem_of_here.
Qed.

(** With distinct keys the dict is the list of pairs itself. *)
Lemma dict_of_nodup (l : list (K * V)) : NoDup l.*1 → dict_of l = l.
Proof. intros Hnd. unfold dict_of. by rewrite dict_of_from. Qed.

Lemma dict_lookup_zip (ks : list K) (vs : list V) i k v :
  NoDup ks → ks !! i = Some k → vs !! i = Some v →
  dict_lookup (zip ks vs) k = Some v.
Proof.
  revert vs i. induction ks as [|k0 ks IH]; intros vs i Hnd Hk Hv; [done|].
  destruct vs as [|v0 vs]; [done|]. apply NoDup_cons in Hnd as [Hk0 Hnd].
  simpl. destruct i as [|i]; simpl in *.
  - injection Hk as ->. injection Hv as ->. by rewrite decide_True.
  - rewrite decide_False; [by eapply IH|].
    intros ->. apply Hk0. by eapply list_elem_of_lookup_2.
Qed.

End dict.

(** Reading a run of the monad backwards and forwards. *)
Section monad.
Context {S : Type}.

Lemma bind_ret {A B} (c : M S A) (k : A → M S B) s b s' :
  (c ≫= k) s = (Ret b, s') ↔ ∃ a s1, c s = (Ret a, s1) ∧ k a s1 = (Ret b, s').
Proof.
  unfold mbind, M_bind, bind. split.
  - destruct (c s) as [[a| |] s1]; [eauto|done|done].
  - intros (a & s1 & -> & Hk). done.
Qed.

Lemma bind_run {A B} (c : M S A) (k : A → M S B) s a s1 :
  c s = (Ret a, s1) → (c ≫= k) s = k a s1.
Proof. unfold mbind, M_bind, bind. by intros ->. Qed.

Lemma bind_raise {A B} (c : M S A) (k : A → M S B) s e s1 :
  c s = (Raise e, s1) → (c ≫= k) s = (Raise e, s1).
Proof. unfold mbind, M_bind, bind. by intros ->. Qed.

Lemma mret_run {A} (a : A) (s : S) : (mret a : M S A) s = (Ret a, s).
Proof. done. Qed.

(** A [for] loop whose body keeps an invariant of the state and always
    returns, returns; each result is one the body gave. *)
Lemma for_each_total {A B} (I : S → Prop) (Q : A → B → Prop)
    (body : A → M S B) (l : list A) s :
  I s →
  (∀ x s1, x ∈ l → I s1 → ∃ y s2, body x s1 = (Ret y, s2) ∧ I s2 ∧ Q x y) →
  ∃ ys s', for_each body l s = (Ret ys, s') ∧ I s' ∧ Forall2 Q l ys.
Proof.
  revert s. induction l as [|x l IH]; intros s Hs Hbody.
  - exists [], s. by repeat split; [|constructor].
  - destruct (Hbody x s) as (y & s2 & Hy & Hs2 & HQ); [apply list_elem_of_here|done|].
    destruct (IH s2 Hs2) as (ys & s' & Hys & Hs' & HQs).
    { intros x' s1 Hx'. apply Hbody. by apply list_elem_of_further. }
    exists (y :: ys), s'. split; [|split; [done|by constructor]].
    simpl. rewrite (bind_run _ _ _ _ _ Hy), (bind_run _ _ _ _ _ Hys). done.
Qed.

Lemma for_each_ret {A B} (I : S → Prop) (Q : A → B → Prop)
    (body : A → M S B) (l : list A) s ys s' :
  I s →
  (∀ x s1 y s2, x ∈ l → I s1 → body x s1 = (Ret y, s2) → I s2 ∧ Q x y) →
  for_each body l s = (Ret ys, s') → I s' ∧ Forall2 Q l ys.
Proof.
  revert s ys. induction l as [|x l IH]; intros s ys Hs Hbody; simpl.
  - intros [= <- <-]. by split; [|constructor].
  - intros (y & s1 & Hy & Hrest)%bind_ret.
    apply bind_ret in Hrest as (ys' & s2 & Hys & Hret).
    injection Hret as <- <-.
    destruct (Hbody x s y s1) as [Hs1 HQ]; [apply list_elem_of_here|done|done|].
    destruct (IH s1 ys' Hs1) as [Hs2 HQs]; [|done|].
    { intros x' s3 y' s4 Hx'. apply Hbody. by apply list_elem_of_further. }
    split; [done|by constructor].
Qed.

Lemma for_each_cons {A B} (body : A → M S B) x l :
  for_each body (x :: l) = (y ← body x; ys ← for_each body l; ret (y :: ys)).
Proof. done. Qed.

(** A loop whose body neither fails nor touches the state is a map. *)
Lemma for_each_pure {A B} (body : A → M S B) (f : A → B) (l : list A) s :
  (∀ x, x ∈ l → body x s = (Ret (f x), s)) →
  for_each body l s = (Ret (f <$> l), s).
Proof.
  induction l as [|x l IH]; intros Hbody; [done|]. simpl.
  rewrite (bind_run _ _ _ _ _ (Hbody x (list_elem_of_here _ _))).
  rewrite (bind_run _ _ _ _ _ (IH (λ y Hy, Hbody y (list_elem_of_further _ _ _ Hy)))).
  done.
Qed.

Lemma dict_lookup_elem {K} `{EqDecision K} {V} (d : list (K * V)) k v :
  NoDup d.*1 → (k, v) ∈ d → dict_lookup d k = Some v.
Proof.
  induction d as [|[k0 v0] d IH]; intros Hnd Hin; [by apply elem_of_nil in Hin|].
  rewrite fmap_cons in Hnd. apply NoDup_cons in Hnd as [Hk0 Hnd]. simpl.
  apply elem_of_cons in Hin as [[= -> ->]|Hin].
  - by rewrite decide_True.
  - rewrite decide_False; [by apply IH|].
    intros ->. apply Hk0. apply list_elem_of_fmap. by exists (k, v).
Qed.

(** [[d[k] * f(k) for k in d]] reads the dict in order. *)
Lemma for_each_dict_get {K} `{EqDecision K} {V B} (d : list (K * V))
    (f : K → V → B) s :
  NoDup d.*1 →
  for_each (λ k, v ← dict_get (S:=S) d k; mret (f k v)) d.*1 s
  = (Ret ((λ kv, f kv.1 kv.2) <$> d), s).
Proof.
  intros Hnd.
  assert (∀ l, l ⊆ d →
    for_each (λ k, v ← dict_get (S:=S) d k; mret (f k v)) l.*1 s
    = (Ret ((λ kv, f kv.1 kv.2) <$> l), s)) as Hsub; [|by apply Hsub].
  induction l as [|[k v] l IH]; intros Hl; [done|].
  assert ((v ← dict_get (S:=S) d k; mret (f k v)) s = (Ret (f k v), s)) as Hbody.
  { unfold dict_get. rewrite (dict_lookup_elem d k v); [done|done|].
    apply Hl, list_elem_of_here. }
  rewrite fmap_cons, for_each_cons. simpl fst.
  rewrite (bind_run _ _ _ _ _ Hbody).
  rewrite (bind_run _ _ _ _ _ (IH (λ y Hy, Hl y (list_elem_of_further _ _ _ Hy)))).
  done.
Qed.

End monad.

End LoopFacts.


(** ** Drawing from a range attribute *)

Module ValueFacts.
Import Py Init Value Loops PyFacts LoopFacts.

Section facts.
Context `{Random}.

Lemma randint_star_ret name (w : world) v w' :
  randint_star name w = (Ret v, w') →
  w'.1 = w.1 ∧
  ∃ lo hi, attrs w.1 !! name = Some (VRange lo hi) ∧ (lo ≤ v ≤ hi)%Z.
Proof.
  unfold randint_star. intros (a & w1 & Hget & Hdraw)%bind_ret.
  unfold getparam in Hget. destruct (attrs w.1 !! name) as [a'|] eqn:Ha; [|done].
  injection Hget as <- <-.
  destruct a' as [| |lo hi| |]; try done.
  simpl in Hdraw. unfold random_randint in Hdraw.
  destruct (randint lo hi w.2) as [o g'] eqn:Hr. injection Hdraw as -> <-.
  apply randint_ret in Hr. eauto.
Qed.

Lemma randint_star_total name (w : world) lo hi :
  attrs w.1 !! name = Some (VRange lo hi) → (lo ≤ hi)%Z →
  ∃ v w', randint_star name w = (Ret v, w') ∧ w'.1 = w.1 ∧ (lo ≤ v ≤ hi)%Z.
Proof.
  intros Ha Hle. destruct (randint_spec lo hi w.2 Hle) as (v & g' & Hr & Hv).
  exists v, (w.1, g'). split; [|done].
  unfold randint_star, mbind, M_bind, bind, getparam. rewrite Ha. simpl.
  unfold random_randint. by rewrite Hr.
Qed.

(** A dict comprehension that draws every value from one range attribute. *)
Lemma dict_comp_randint_ret {K} `{EqDecision K} name (keys : list K) (w : world) d w' :
  NoDup keys →
  dict_comp (λ _, randint_star name) keys w = (Ret d, w') →
  w'.1 = w.1 ∧ d.*1 = keys ∧
  ∀ k v, (k, v) ∈ d →
    ∃ lo hi, attrs w.1 !! name = Some (VRange lo hi) ∧ (lo ≤ v ≤ hi)%Z.
Proof.
  intros Hnd. unfold dict_comp. intros (kvs & w1 & Hloop & Hret)%bind_ret.
  injection Hret as <- <-.
  apply (for_each_ret (λ s, s.1 = w.1)
           (λ k kv, kv.1 = k ∧ ∃ lo hi, attrs w.1 !! name = Some (VRange lo hi)
                                        ∧ (lo ≤ kv.2 ≤ hi)%Z)) in Hloop
    as [Hw1 Hall]; [|done|].
  - assert (kvs.*1 = keys) as Hkeys.
    { clear -Hall. induction Hall as [|k kv ks kvs [Hk _] _ IH]; [done|].
      rewrite fmap_cons. by f_equal. }
    rewrite dict_of_nodup by by rewrite Hkeys.
    split; [done|]. split; [done|].
    intros k v Hin. clear -Hall Hin.
    induction Hall as [|k0 kv ks kvs [Hk Hr] _ IH]; [by apply elem_of_nil in Hin|].
    apply elem_of_cons in Hin as [<-|Hin]; [done|by apply IH].
  - intros k s1 kv s2 _ Hs1. intros (v & s3 & Hv & Hkv)%bind_ret.
    injection Hkv as <- <-. apply randint_star_ret in Hv as [Hs3 Hv].
    rewrite Hs1 in Hs3, Hv. done.
Qed.

Lemma dict_comp_randint_total {K} `{EqDecision K} name (keys : list K) (w : world) lo hi :
  NoDup keys →
  attrs w.1 !! name = Some (VRange lo hi) → (lo ≤ hi)%Z →
  ∃ d w', dict_comp (λ _, randint_star name) keys w = (Ret d, w') ∧
          w'.1 = w.1 ∧ d.*1 = keys ∧
          ∀ k v, (k, v) ∈ d → (lo ≤ v ≤ hi)%Z.
Proof.
  intros Hnd Ha Hle.
  destruct (for_each_total (λ s : world, s.1 = w.1) (λ k kv, kv.1 = k ∧ (lo ≤ kv.2 ≤ hi)%Z)
              (λ k, v ← randint_star name; mret (k, v)) keys w)
    as (kvs & w' & Hloop & Hw' & Hall); [done| |].
  - intros k s1 _ Hs1.
    destruct (randint_star_total name s1 lo hi) as (v & s2 & Hv & Hs2 & Hin);
      [by rewrite Hs1|done|].
    exists (k, v), s2. split; [by rewrite (bind_run _ _ _ _ _ Hv)|].
    split; [congruence|done].
  - assert (kvs.*1 = keys) as Hkeys.
    { clear -Hall. induction Hall as [|k kv ks kvs [Hk _] _ IH]; [done|].
      rewrite fmap_cons. by f_equal. }
    exists kvs, w'. unfold dict_comp. rewrite (bind_run _ _ _ _ _ Hloop).
    rewrite mret_run, dict_of_nodup by by rewrite Hkeys.
    split; [done|]. split; [done|]. split; [done|].
    intros k v Hin. clear -Hall Hin.
    induction Hall as [|k0 kv ks kvs [Hk Hr] _ IH]; [by apply elem_of_nil in Hin|].
    apply elem_of_cons in Hin as [<-|Hin]; [done|by apply IH].
Qed.

Lemma setparam_run name v (w : world) :
  setparam name v w
  = (Ret tt, ({| attrs := <[name := v]> (attrs w.1); seed := seed w.1 |}, w.2)).
Proof. done. Qed.

Lemma getparam_run name (w : world) v :
  attrs w.1 !! name = Some v → getparam name w = (Ret v, w).
Proof. unfold getparam. by intros ->. Qed.

Lemma getparam_ret name (w : world) v w' :
  getparam name w = (Ret v, w') → w' = w ∧ attrs w.1 !! name = Some v.
Proof.
  unfold getparam. destruct (attrs w.1 !! name); [|done]. by intros [= <- <-].
Qed.

End facts.

(** Names made of a fixed prefix and a number are distinct. *)
Lemma numbered_inj (prefix : string) : Inj (=) (=) (λ i : nat, prefix +:+ pretty i).
Proof.
  intros i j Heq. apply (inj (String.app prefix)) in Heq. by apply (inj pretty).
Qed.

Lemma numbered_NoDup (prefix : string) (l : list nat) :
  NoDup l → NoDup ((λ i : nat, prefix +:+ pretty i) <$> l).
Proof. apply NoDup_fmap_2, numbered_inj. Qed.

Lemma range_NoDup n : NoDup (range n).
Proof. apply NoDup_seq. Qed.

End ValueFacts.


(** ** Knapsack: what [generate_instance] draws and builds *)

Module KnapsackFacts.
Import Py Init Value Gurobi Loops PyFacts GurobiFacts LoopFacts ValueFacts Knapsack.

Lemma items_NoDup (r : list nat) : NoDup r → NoDup (item <$> r).
Proof. apply (numbered_NoDup "item_"). Qed.

Section facts.
Context `{Random}.

Lemma sample_ret self g its vals wts w' :
  sample (self, g) = (Ret (its, vals, wts), w') →
  ∃ n, within self "n_items" n ∧ w'.1 = drawn self n ∧
       its = item <$> range n ∧ vals.*1 = its ∧ wts.*1 = its ∧
       (∀ k v, (k, v) ∈ vals → within self "value_range" v) ∧
       (∀ k v, (k, v) ∈ wts → within self "weight_range" v).
Proof.
  unfold sample.
  intros (n & w1 & Hn & Hrest)%bind_ret.
  apply randint_star_ret in Hn as [Hw1 Hn]. simpl in Hw1, Hn.
  apply bind_ret in Hrest as ([] & w2 & Hset & Hrest).
  rewrite setparam_run in Hset. injection Hset as <-.
  apply bind_ret in Hrest as (ni & w3 & Hget & Hrest).
  apply getparam_ret in Hget as [-> Hni]. simpl in Hni.
  rewrite lookup_insert_eq in Hni. injection Hni as <-.
  apply bind_ret in Hrest as (r & w4 & Hr & Hrest). injection Hr as <- <-.
  apply bind_ret in Hrest as (vs & w5 & Hvs & Hrest).
  apply bind_ret in Hrest as (ws & w6 & Hws & Hrest).
  injection Hrest as <- <- <- <-.
  pose proof (items_NoDup _ (range_NoDup n)) as Hnd.
  apply dict_comp_randint_ret in Hvs as (Hw5 & Hkv & Hvs); [|done].
  apply dict_comp_randint_ret in Hws as (Hw6 & Hkw & Hws); [|done].
  exists n. rewrite Hw6, Hw5, Hw1. simpl. repeat split; try done.
  - intros k v Hin. destruct (Hvs k v Hin) as (lo & hi & Ha & Hv).
    simpl in Ha. rewrite lookup_insert_ne in Ha by done.
    rewrite Hw1 in Ha. by exists lo, hi.
  - intros k v Hin. destruct (Hws k v Hin) as (lo & hi & Ha & Hv).
    rewrite Hw5 in Ha. simpl in Ha. rewrite lookup_insert_ne in Ha by done.
    rewrite Hw1 in Ha. by exists lo, hi.
Qed.

Lemma sample_total self g :
  valid_range self "n_items" → valid_range self "value_range" →
  valid_range self "weight_range" →
  ∃ its vals wts w', sample (self, g) = (Ret (its, vals, wts), w').
Proof.
  intros (ln & hn & Hn & Hlen) (lv & hv & Hv & Hlev) (lw & hw & Hw & Hlew).
  destruct (randint_star_total "n_items" (self, g) ln hn Hn Hlen)
    as (n & w1 & Hdraw & Hw1 & _).
  pose proof (items_NoDup _ (range_NoDup n)) as Hnd.
  set (w2 := (drawn self n, w1.2)).
  destruct (dict_comp_randint_total "value_range" (item <$> range n) w2 lv hv)
    as (vals & w3 & Hvals & Hw3 & _);
    [done|by simpl; rewrite lookup_insert_ne|done|].
  destruct (dict_comp_randint_total "weight_range" (item <$> range n) w3 lw hw)
    as (wts & w4 & Hwts & Hw4 & _);
    [done|by rewrite Hw3; simpl; rewrite lookup_insert_ne|done|].
  exists (item <$> range n), vals, wts, w4. unfold sample.
  rewrite (bind_run _ _ _ _ _ Hdraw).
  erewrite bind_run by apply setparam_run. rewrite Hw1. simpl.
  erewrite bind_run by (apply getparam_run; simpl; apply lookup_insert_eq).
  erewrite bind_run by done.
  fold w2. rewrite (bind_run _ _ _ _ _ Hvals), (bind_run _ _ _ _ _ Hwts). done.
Qed.

Lemma lift_ret {A} (o : outcome A) (w : world) a w' :
  lift o w = (Ret a, w') → o = Ret a ∧ w' = w.
Proof. unfold lift. by intros [= -> ->]. Qed.

Lemma draw_data_ret self g d w' :
  draw_data (self, g) = (Ret d, w') →
  ∃ n ratio product,
    within self "n_items" n ∧ w'.1 = drawn self n ∧
    items d = item <$> range n ∧
    (item_values d).*1 = items d ∧ (item_weights d).*1 = items d ∧
    (∀ k v, (k, v) ∈ item_values d → within self "value_range" v) ∧
    (∀ k v, (k, v) ∈ item_weights d → within self "weight_range" v) ∧
    attrs self !! "capacity_ratio" = Some ratio ∧
    int_times (sum (item_weights d).*2) ratio = Ret product ∧
    int_of product = Ret (knapsack_capacity d).
Proof.
  unfold draw_data. intros ([[its vals] wts] & w1 & Hs & Hrest)%bind_ret.
  apply sample_ret in Hs as (n & Hn & Hw1 & Hits & Hvals & Hwts & Hv & Hw).
  apply bind_ret in Hrest as (ratio & w2 & Hget & Hrest).
  apply getparam_ret in Hget as [-> Hratio].
  apply bind_ret in Hrest as (product & w3 & Hp & Hrest).
  apply lift_ret in Hp as [Hp ->].
  apply bind_ret in Hrest as (K & w4 & HK & Hrest).
  apply lift_ret in HK as [HK ->]. injection Hrest as <- <-.
  exists n, ratio, product. simpl. repeat split; try done.
  rewrite Hw1 in Hratio. simpl in Hratio.
  by rewrite lookup_insert_ne in Hratio.
Qed.

Lemma build_model_run d (w : world) :
  (item_values d).*1 = items d → (item_weights d).*1 = items d →
  NoDup (items d) →
  build_model d w = (Ret (model_of d), w).
Proof.
  destruct d as [its vals wts K]. simpl. intros <- Hw Hnd.
  unfold build_model, model_of. simpl.
  erewrite bind_run; last first.
  { by apply (for_each_dict_get vals (λ i c, (c, x i))). }
  rewrite <- Hw in Hnd |- *. erewrite bind_run; last first.
  { by apply (for_each_dict_get wts (λ i c, (c, x i))). }
  rewrite mret_run. unfold addConstr, setObjective, addVars, new_model.
  simpl. by rewrite <- list_fmap_compose.
Qed.

Lemma knapsack_generate_instance_ret self g m w' :
  generate_instance (self, g) = (Ret m, w') →
  ∃ d, draw_data (self, g) = (Ret d, w') ∧ m = model_of d.
Proof.
  unfold generate_instance. intros (d & w1 & Hd & Hb)%bind_ret.
  destruct (draw_data_ret _ _ _ _ Hd)
    as (n & _ & _ & _ & _ & Hits & Hv & Hw & _).
  rewrite build_model_run in Hb; [|done|done|].
  - injection Hb as <- <-. by exists d.
  - rewrite Hits. apply items_NoDup, range_NoDup.
Qed.

End facts.
End KnapsackFacts.


(** ** CFLP: what the sampling draws *)

Module CFLPFacts.
Import Py Init Value Loops PyFacts LoopFacts ValueFacts CFLP.

Lemma pairs_NoDup {A B} (l1 : list A) (l2 : list B) :
  NoDup l1 → NoDup l2 → NoDup (i ← l1; (λ j, (i, j)) <$> l2).
Proof.
  intros H1 H2. apply NoDup_bind; [|intros; by apply (NoDup_fmap_2 _)|done].
  intros x1 x2 [a b] _ _ (j1 & [= -> ->] & _)%list_elem_of_fmap
    (j2 & [= -> _] & _)%list_elem_of_fmap. done.
Qed.

Section facts.
Context `{Random}.

Lemma sample_spec self g :
  Forall (valid_range self)
    ["n_facilities"; "n_customers"; "fixed_cost_range"; "transport_cost_range";
     "demand_range"; "capacity_range"] →
  ∃ d w' nf nc,
    sample (self, g) = (Ret d, w') ∧
    within self "n_facilities" nf ∧ within self "n_customers" nc ∧
    facilities d = facility <$> range nf ∧
    customers d = customer <$> range nc ∧
    (∀ k v, (k, v) ∈ fixed_costs d → within self "fixed_cost_range" v) ∧
    (∀ k v, (k, v) ∈ transport_costs d → within self "transport_cost_range" v) ∧
    (∀ k v, (k, v) ∈ demands d → within self "demand_range" v) ∧
    (∀ k v, (k, v) ∈ capacities d → within self "capacity_range" v).
Proof.
  intros Hall.
  apply Forall_cons in Hall as [(lo & hi & Ha & Hle) Hall].
  apply Forall_cons in Hall as [(lo0 & hi0 & Ha0 & Hle0) Hall].
  apply Forall_cons in Hall as [(lo1 & hi1 & Ha1 & Hle1) Hall].
  apply Forall_cons in Hall as [(lo2 & hi2 & Ha2 & Hle2) Hall].
  apply Forall_cons in Hall as [(lo3 & hi3 & Ha3 & Hle3) Hall].
  apply Forall_cons in Hall as [(lo4 & hi4 & Ha4 & Hle4) _].
  destruct (randint_star_total "n_facilities" (self, g) _ _ Ha Hle)
    as (nf & w1 & Hnf & Hw1 & Hnfin).
  set (w2 := ({| attrs := <["n_facilities" := VInt nf]> (attrs self);
                 seed := seed self |}, w1.2)).
  destruct (randint_star_total "n_customers" w2 lo0 hi0)
    as (nc & w3 & Hnc & Hw3 & Hncin);
    [by simpl; rewrite lookup_insert_ne|done|].
  set (a := <["n_customers" := VInt nc]> (<["n_facilities" := VInt nf]> (attrs self))).
  set (w4 := ({| attrs := a; seed := seed self |}, w3.2)).
  assert (∀ name, name ≠ "n_customers" → name ≠ "n_facilities" →
                  a !! name = attrs self !! name) as Hframe.
  { intros name ? ?. unfold a. by rewrite !lookup_insert_ne. }
  pose proof (numbered_NoDup "facility_" _ (range_NoDup nf)) as Hndf.
  pose proof (numbered_NoDup "customer_" _ (range_NoDup nc)) as Hndc.
  fold facility in Hndf. fold customer in Hndc.
  destruct (dict_comp_randint_total "fixed_cost_range" (facility <$> range nf) w4 lo1 hi1)
    as (fc & w5 & Hfc & Hw5 & _ & Hfcin);
    [done|by simpl; rewrite Hframe|done|].
  destruct (dict_comp_randint_total "transport_cost_range"
              (i ← customer <$> range nc; (λ j, (i, j)) <$> (facility <$> range nf))
              w5 lo2 hi2)
    as (tc & w6 & Htc & Hw6 & _ & Htcin);
    [by apply pairs_NoDup|by rewrite Hw5; simpl; rewrite Hframe|done|].
  destruct (dict_comp_randint_total "demand_range" (customer <$> range nc) w6 lo3 hi3)
    as (dm & w7 & Hdm & Hw7 & _ & Hdmin);
    [done|by rewrite Hw6, Hw5; simpl; rewrite Hframe|done|].
  destruct (dict_comp_randint_total "capacity_range" (facility <$> range nf) w7 lo4 hi4)
    as (cp & w8 & Hcp & Hw8 & _ & Hcpin);
    [done|by rewrite Hw7, Hw6, Hw5; simpl; rewrite Hframe|done|].
  eexists _, w8, nf, nc. split.
  - unfold sample. rewrite (bind_run _ _ _ _ _ Hnf).
    erewrite bind_run by apply setparam_run. rewrite Hw1. simpl. fold w2.
    rewrite (bind_run _ _ _ _ _ Hnc).
    erewrite bind_run by apply setparam_run. rewrite Hw3. simpl. fold a. fold w4.
    erewrite bind_run; last first.
    { apply getparam_run. simpl. unfold a.
      rewrite lookup_insert_ne by done. apply lookup_insert_eq. }
    erewrite bind_run by done.
    erewrite bind_run; last first.
    { apply getparam_run. simpl. apply lookup_insert_eq. }
    erewrite bind_run by done.
    rewrite (bind_run _ _ _ _ _ Hfc), (bind_run _ _ _ _ _ Htc).
    rewrite (bind_run _ _ _ _ _ Hdm), (bind_run _ _ _ _ _ Hcp). done.
  - simpl. split; [by exists lo, hi|]. split; [by exists lo0, hi0|].
    split; [done|]. split; [done|].
    split; [intros k v Hin; exists lo1, hi1; eauto|].
    split; [intros k v Hin; exists lo2, hi2; eauto|].
    split; [intros k v Hin; exists lo3, hi3; eauto|].
    intros k v Hin; exists lo4, hi4; eauto.
Qed.

End facts.
End CFLPFacts.


(** ** TSP: what [generate_instance] builds *)

Module TSPFacts.
Import Py Init Value Gurobi Loops PyFacts GurobiFacts LoopFacts ValueFacts TSP.

Lemma cities_NoDup n : NoDup (city <$> range n).
Proof. apply (numbered_NoDup "city_"), range_NoDup. Qed.

Lemma arcs_elem (cities : list string) i j :
  (i, j) ∈ arcs cities ↔ i ∈ cities ∧ j ∈ cities ∧ i ≠ j.
Proof.
  unfold arcs. rewrite list_elem_of_bind. split.
  - intros (i' & (j' & [= -> ->] & Hj)%list_elem_of_fmap & Hi).
    apply list_elem_of_filter in Hj as [Hne Hj]. done.
  - intros (Hi & Hj & Hne). exists i. split; [|done].
    apply list_elem_of_fmap. exists j. split; [done|].
    by apply list_elem_of_filter.
Qed.

Lemma arcs_NoDup (cities : list string) : NoDup cities → NoDup (arcs cities).
Proof.
  intros Hnd. unfold arcs. apply NoDup_bind; [| |done].
  - intros x1 x2 [a b] _ _ (j1 & [= -> ->] & _)%list_elem_of_fmap
      (j2 & [= -> _] & _)%list_elem_of_fmap. done.
  - intros i _. apply (NoDup_fmap_2 _). by apply NoDup_filter.
Qed.

Section facts.
Context `{Random}.

Lemma bounds_run (cities : list string) (w : world) :
  for_each (λ i,
      c0 ← first cities;
      mret (if decide (i ≠ c0)
            then [u_lower i; u_upper (length cities) i] else [])) cities w
  = (Ret ((λ i, if decide (Some i ≠ head cities)
                then [u_lower i; u_upper (length cities) i] else []) <$> cities), w).
Proof.
  apply for_each_pure. intros i Hi.
  destruct cities as [|c cs]; [by apply elem_of_nil in Hi|].
  simpl. unfold mbind, M_bind, bind, ret, mret, M_ret. simpl.
  destruct (decide (i ≠ c)), (decide (Some i ≠ Some c)); try done;
    exfalso; naive_solver.
Qed.

Lemma subtours_run (cities : list string) (keys : list (string * string)) (w : world) :
  keys ⊆ arcs cities →
  for_each (λ k,
      c0 ← first cities;
      if decide (k.1 ≠ c0)
      then c0 ← first cities;
           mret (if decide (k.2 ≠ c0) then [mtz (length cities) k.1 k.2] else [])
      else mret []) keys w
  = (Ret ((λ k, if decide (Some k.1 ≠ head cities ∧ Some k.2 ≠ head cities)
                then [mtz (length cities) k.1 k.2] else []) <$> keys), w).
Proof.
  intros Hsub. apply for_each_pure. intros [i j] Hk.
  apply Hsub, arcs_elem in Hk as (Hi & _ & _).
  destruct cities as [|c cs]; [by apply elem_of_nil in Hi|].
  simpl. unfold mbind, M_bind, bind, ret, mret, M_ret. simpl.
  destruct (decide (i ≠ c)) as [Hi'|Hi']; simpl.
  - destruct (decide (j ≠ c)) as [Hj'|Hj'],
      (decide (Some i ≠ Some c ∧ Some j ≠ Some c)) as [Hij|Hij]; try done.
    + exfalso. apply Hij. split; congruence.
    + exfalso. destruct Hij as [_ Hij]. apply Hj'. intros ->. by apply Hij.
  - destruct (decide (Some i ≠ Some c ∧ Some j ≠ Some c)) as [[Hij _]|]; [|done].
    exfalso. apply Hi'. intros ->. by apply Hij.
Qed.

(** The part of [generate_instance] after the number of cities is fixed. *)
Lemma generate_from_count self g n m w' :
  attrs self !! "n_cities" = Some (VInt n) →
  generate_instance (self, g) = (Ret m, w') →
  ∃ distances,
    distances.*1 = arcs (city <$> range n) ∧
    (∀ k d, (k, d) ∈ distances → within self "distance_range" d) ∧
    w'.1 = stored self n distances ∧
    m = model_of (city <$> range n) distances.
Proof.
  intros Hn. unfold generate_instance.
  rewrite (bind_run _ _ _ _ _ (getparam_run "n_cities" (self, g) _ Hn)).
  simpl is_tuple. cbv iota.
  rewrite (bind_run _ _ _ _ _ (mret_run _ _)).
  rewrite (bind_run _ _ _ _ _ (getparam_run "n_cities" (self, g) _ Hn)).
  erewrite bind_run by done.
  erewrite bind_run by apply setparam_run.
  intros (distances & w1 & Hd & Hrest)%bind_ret.
  apply dict_comp_randint_ret in Hd as (Hw1 & Hkeys & Hin);
    [|apply arcs_NoDup, cities_NoDup].
  erewrite bind_run in Hrest by apply setparam_run.
  cbv zeta in Hrest.
  erewrite bind_run in Hrest by apply bounds_run.
  erewrite bind_run in Hrest by (apply subtours_run; by rewrite Hkeys).
  injection Hrest as <- <-.
  exists distances. split; [done|]. split; [|split].
  - intros k d Hkd. destruct (Hin k d Hkd) as (lo & hi & Ha & Hd).
    simpl in Ha. rewrite lookup_insert_ne in Ha by done. by exists lo, hi.
  - rewrite Hw1. simpl. unfold stored. f_equal.
    by rewrite (insert_id (attrs self) "n_cities" (VInt n)).
  - rewrite !addConstrs_eq.
    unfold model_of, setObjective, addVars, new_model, bounds_of, subtours_of.
    simpl. by rewrite !list_fmap_id, <- !list_fmap_compose, <- !app_assoc.
Qed.

Lemma generate_from_count_total self g n :
  attrs self !! "n_cities" = Some (VInt n) →
  (arcs (city <$> range n) ≠ [] → valid_range self "distance_range") →
  ∃ m w', generate_instance (self, g) = (Ret m, w').
Proof.
  intros Hn Hrange.
  set (w1 := ({| attrs := <["cities" := VList (city <$> range n)]> (attrs self);
                 seed := seed self |}, g)).
  assert (∃ distances w2,
    dict_comp (λ _, randint_star "distance_range") (arcs (city <$> range n)) w1
    = (Ret distances, w2) ∧ distances.*1 = arcs (city <$> range n))
    as (distances & w2 & Hd & Hkeys).
  { destruct (arcs (city <$> range n)) as [|k ks] eqn:Harcs.
    - by exists [], w1.
    - destruct Hrange as (lo & hi & Ha & Hle); [done|].
      destruct (dict_comp_randint_total "distance_range" (k :: ks) w1 lo hi)
        as (d & w2 & Hd & _ & Hkeys & _); [|by simpl; rewrite lookup_insert_ne|done|].
      + rewrite <- Harcs. apply arcs_NoDup, cities_NoDup.
      + by exists d, w2. }
  unfold generate_instance.
  rewrite (bind_run _ _ _ _ _ (getparam_run "n_cities" (self, g) _ Hn)).
  simpl is_tuple. cbv iota.
  rewrite (bind_run _ _ _ _ _ (mret_run _ _)).
  rewrite (bind_run _ _ _ _ _ (getparam_run "n_cities" (self, g) _ Hn)).
  erewrite bind_run by done.
  erewrite bind_run by apply setparam_run.
  fold w1. rewrite (bind_run _ _ _ _ _ Hd).
  erewrite bind_run by apply setparam_run.
  cbv zeta.
  erewrite bind_run by apply bounds_run.
  erewrite bind_run by (apply subtours_run; by rewrite Hkeys).
  rewrite mret_run. eauto.
Qed.

(** With a range for [n_cities], the first call draws the number of cities
    and goes on as a call on an instance that holds the number. *)
Lemma generate_draws_count self g lo hi n g' :
  attrs self !! "n_cities" = Some (VRange lo hi) →
  randint lo hi g = (Ret n, g') →
  generate_instance (self, g)
  = generate_instance ({| attrs := <["n_cities" := VInt n]> (attrs self);
                          seed := seed self |}, g').
Proof.
  intros Ha Hr. unfold generate_instance.
  rewrite (bind_run _ _ _ _ _ (getparam_run "n_cities" (self, g) _ Ha)).
  simpl is_tuple. cbv iota.
  assert (randint_unpack (VRange lo hi) (self, g) = (Ret n, (self, g'))) as Hdraw.
  { simpl. unfold random_randint. simpl. by rewrite Hr. }
  erewrite bind_run; last first.
  { erewrite (bind_run _ _ _ _ _ Hdraw). apply setparam_run. }
  simpl fst. simpl snd.
  set (self' := {| attrs := <["n_cities" := VInt n]> (attrs self); seed := seed self |}).
  assert (attrs self' !! "n_cities" = Some (VInt n)) as Hn
    by (unfold self'; simpl; apply lookup_insert_eq).
  rewrite (bind_run _ _ _ _ _ (getparam_run "n_cities" (self', g') _ Hn)).
  rewrite (bind_run _ _ _ _ _ (getparam_run "n_cities" (self', g') _ Hn)).
  simpl is_tuple. cbv iota.
  rewrite (bind_run _ _ _ _ _ (mret_run _ _)).
  by rewrite (bind_run _ _ _ _ _ (getparam_run "n_cities" (self', g') _ Hn)).
Qed.

Lemma tsp_generate_instance_ret self g m w' :
  generate_instance (self, g) = (Ret m, w') →
  ∃ n distances,
    (attrs self !! "n_cities" = Some (VInt n) ∨ within self "n_cities" n) ∧
    distances.*1 = arcs (city <$> range n) ∧
    (∀ k d, (k, d) ∈ distances → within self "distance_range" d) ∧
    w'.1 = stored self n distances ∧
    m = model_of (city <$> range n) distances.
Proof.
  intros Hgen.
  destruct (attrs self !! "n_cities") as [v|] eqn:Ha.
  - destruct v as [n|f|lo hi|l|d].
    + destruct (generate_from_count _ _ _ _ _ Ha Hgen) as (ds & ? & ? & ? & ?).
      exists n, ds. eauto 10.
    + exfalso. unfold generate_instance in Hgen.
      rewrite (bind_run _ _ _ _ _ (getparam_run "n_cities" (self, g) _ Ha)) in Hgen.
      simpl is_tuple in Hgen. cbv iota in Hgen.
      rewrite (bind_run _ _ _ _ _ (mret_run _ _)) in Hgen.
      rewrite (bind_run _ _ _ _ _ (getparam_run "n_cities" (self, g) _ Ha)) in Hgen.
      done.
    + destruct (randint lo hi g) as [[n| |] g'] eqn:Hr.
      * rewrite (generate_draws_count _ _ _ _ _ _ Ha Hr) in Hgen.
        apply generate_from_count with (n := n) in Hgen as (ds & Hk & Hin & Hw & Hm);
          [|apply lookup_insert_eq].
        exists n, ds. split; [right; exists lo, hi; split; [done|by eapply randint_ret]|].
        split; [done|]. split.
        { intros k d Hkd. destruct (Hin k d Hkd) as (l & h & Hl & Hd).
          simpl in Hl. rewrite lookup_insert_ne in Hl by done. by exists l, h. }
        split; [|done]. rewrite Hw. unfold stored. simpl.
        by rewrite insert_insert_eq.
      * exfalso. unfold generate_instance in Hgen.
        rewrite (bind_run _ _ _ _ _ (getparam_run "n_cities" (self, g) _ Ha)) in Hgen.
        simpl is_tuple in Hgen. cbv iota in Hgen.
        unfold mbind, M_bind, bind in Hgen. simpl in Hgen.
        unfold random_randint in Hgen. simpl in Hgen. by rewrite Hr in Hgen.
      * exfalso. unfold generate_instance in Hgen.
        rewrite (bind_run _ _ _ _ _ (getparam_run "n_cities" (self, g) _ Ha)) in Hgen.
        simpl is_tuple in Hgen. cbv iota in Hgen.
        unfold mbind, M_bind, bind in Hgen. simpl in Hgen.
        unfold random_randint in Hgen. simpl in Hgen. by rewrite Hr in Hgen.
    + exfalso. unfold generate_instance in Hgen.
      rewrite (bind_run _ _ _ _ _ (getparam_run "n_cities" (self, g) _ Ha)) in Hgen.
      simpl is_tuple in Hgen. cbv iota in Hgen.
      rewrite (bind_run _ _ _ _ _ (mret_run _ _)) in Hgen.
      rewrite (bind_run _ _ _ _ _ (getparam_run "n_cities" (self, g) _ Ha)) in Hgen.
      done.
    + exfalso. unfold generate_instance in Hgen.
      rewrite (bind_run _ _ _ _ _ (getparam_run "n_cities" (self, g) _ Ha)) in Hgen.
      simpl is_tuple in Hgen. cbv iota in Hgen.
      rewrite (bind_run _ _ _ _ _ (mret_run _ _)) in Hgen.
      rewrite (bind_run _ _ _ _ _ (getparam_run "n_cities" (self, g) _ Ha)) in Hgen.
      done.
  - exfalso. unfold generate_instance, mbind, M_bind, bind, getparam in Hgen.
    simpl in Hgen. by rewrite Ha in Hgen.
Qed.

End facts.
End TSPFacts.


(** ** SetCover: the sampling loop and the feasibility repair *)

Module SetCoverFacts.
Import Py Init Value Gurobi Loops PyFacts GurobiFacts LoopFacts ValueFacts SetCover.

Lemma range2_elem a b k : k ∈ range2 a b ↔ (a ≤ k < b)%Z.
Proof.
  unfold range2. rewrite list_elem_of_fmap. split.
  - intros (i & -> & Hi%elem_of_seq). lia.
  - intros Hk. exists (Z.to_nat (k - a)). split; [lia|]. apply elem_of_seq. lia.
Qed.

Lemma range2_length a b : length (range2 a b) = Z.to_nat (b - a).
Proof. unfold range2. by rewrite length_fmap, length_seq. Qed.

Lemma pairs_length {A B} (l1 : list A) (l2 : list B) :
  length (i ← l1; (λ j, (i, j)) <$> l2) = length l1 * length l2.
Proof.
  induction l1 as [|a l1 IH]; [done|].
  change (length (((λ j, (a, j)) <$> l2) ++ (i ← l1; (λ j, (i, j)) <$> l2))
          = length (a :: l1) * length l2).
  rewrite length_app, length_fmap, IH. simpl. lia.
Qed.

Lemma all_pairs_elem n m i j :
  (i, j) ∈ all_pairs n m ↔ (1 ≤ i ≤ n)%Z ∧ (1 ≤ j ≤ m)%Z.
Proof.
  unfold all_pairs. rewrite elem_of_list_to_set, list_elem_of_bind. split.
  - intros (i' & (j' & [= -> ->] & Hj%range2_elem)%list_elem_of_fmap & Hi%range2_elem).
    lia.
  - intros [Hi Hj]. exists i. split; [|apply range2_elem; lia].
    apply list_elem_of_fmap. exists j. split; [done|]. apply range2_elem. lia.
Qed.

Lemma all_pairs_size n m :
  (Z.of_nat (size (all_pairs n m)) ≤ Z.max 0 n * Z.max 0 m)%Z.
Proof.
  unfold all_pairs.
  assert (∀ l : list (Z * Z), size (list_to_set l : gset (Z * Z)) ≤ length l) as Hle.
  { induction l as [|p l IH].
    - by rewrite list_to_set_nil, size_empty.
    - rewrite list_to_set_cons, size_union_alt, size_singleton. simpl length.
      pose proof (subseteq_size (list_to_set l ∖ {[p]}) (list_to_set l : gset (Z * Z))) as Hs.
      assert (list_to_set l ∖ {[p]} ⊆ (list_to_set l : gset (Z * Z))) as Hsub
        by (intros q Hq; by apply elem_of_difference in Hq as [? _]).
      specialize (Hs Hsub). lia. }
  specialize (Hle (i ← range2 1 (n + 1); (λ j, (i, j)) <$> range2 1 (m + 1))).
  rewrite pairs_length, !range2_length in Hle. nia.
Qed.

Lemma size_add (p : Z * Z) (X : gset (Z * Z)) : size ({[p]} ∪ X) ≤ S (size X).
Proof.
  rewrite size_union_alt, size_singleton.
  pose proof (subseteq_size (X ∖ {[p]}) X) as Hs.
  assert (X ∖ {[p]} ⊆ X) as Hsub
    by (intros q Hq; by apply elem_of_difference in Hq as [? _]).
  specialize (Hs Hsub). lia.
Qed.

Section facts.
Context `{Random}.

Lemma random_randint_ret a b (w : world) v w' :
  random_randint a b w = (Ret v, w') → w'.1 = w.1 ∧ (a ≤ v ≤ b)%Z.
Proof.
  unfold random_randint. destruct (randint a b w.2) as [o g'] eqn:Hr.
  intros [= -> <-]. split; [done|]. by eapply randint_ret.
Qed.

(** On a stream that brings the number of distinct pairs to [num], the
    loop returns, with [num] pairs. *)
Lemma sample_associations_terminates t num n_sets n_elements acc (w : world) pairs w1 :
  drawn_pairs t n_sets n_elements acc w = (Ret pairs, w1) →
  Z.of_nat (size pairs) = num →
  (Z.of_nat (size acc) ≤ num)%Z →
  ∃ fuel associations w',
    sample_associations fuel num n_sets n_elements acc w = (Ret associations, w') ∧
    Z.of_nat (size associations) = num.
Proof.
  revert acc w. induction t as [|t IH]; intros acc w Hd Hsize Hacc.
  - injection Hd as <- <-. exists 0, acc, w. split; [|done].
    simpl. by rewrite decide_False by lia.
  - destruct (decide (Z.of_nat (size acc) < num)%Z) as [Hlt|Hge].
    + simpl in Hd. apply bind_ret in Hd as (i & w2 & Hi & Hd).
      apply bind_ret in Hd as (j & w3 & Hj & Hd).
      destruct (IH _ _ Hd Hsize) as (fuel & assoc & w' & Hloop & Hn).
      { pose proof (size_add (i, j) acc). lia. }
      exists (S fuel), assoc, w'. split; [|done].
      simpl. rewrite decide_True by done.
      by rewrite (bind_run _ _ _ _ _ Hi), (bind_run _ _ _ _ _ Hj).
    + exists 0, acc, w. split; [|lia]. simpl. by rewrite decide_False.
Qed.

(** With more pairs asked for than there are, the loop does not return. *)
Lemma sample_associations_never_returns fuel num n_sets n_elements acc (w : world) :
  acc ⊆ all_pairs n_sets n_elements →
  (Z.max 0 n_sets * Z.max 0 n_elements < num)%Z →
  ∀ associations w',
    sample_associations fuel num n_sets n_elements acc w ≠ (Ret associations, w').
Proof.
  intros Hsub Hnum. revert acc w Hsub.
  induction fuel as [|fuel IH]; intros acc w Hsub assoc w' Hloop.
  - simpl in Hloop. rewrite decide_True in Hloop; [done|].
    pose proof (subseteq_size _ _ Hsub). pose proof (all_pairs_size n_sets n_elements). lia.
  - simpl in Hloop. rewrite decide_True in Hloop.
    + apply bind_ret in Hloop as (i & w2 & Hi & Hloop).
      apply bind_ret in Hloop as (j & w3 & Hj & Hloop).
      apply random_randint_ret in Hi as [_ Hi]. apply random_randint_ret in Hj as [_ Hj].
      apply IH in Hloop; [done|].
      intros p [->%elem_of_singleton|Hp]%elem_of_union; [|by apply Hsub].
      by apply all_pairs_elem.
    + pose proof (subseteq_size _ _ Hsub). pose proof (all_pairs_size n_sets n_elements). lia.
Qed.

End facts.

Lemma covered_true sets e : covered sets e = true ↔ Exists (λ kv, e ∈ kv.2) sets.
Proof. unfold covered. apply bool_decide_eq_true. Qed.

Lemma dict_set_covers (sets : list (Z * gset string)) i s e :
  dict_lookup sets i = Some s →
  covered (dict_set sets i ({[e]} ∪ s)) e = true ∧
  grows sets (dict_set sets i ({[e]} ∪ s)).
Proof.
  intros Hget. split.
  - apply covered_true. induction sets as [|[k v] sets IH]; [done|].
    simpl in *. destruct (decide (k = i)) as [->|Hne].
    + injection Hget as ->. apply Exists_cons_hd. simpl. set_solver.
    + apply Exists_cons_tl. by apply IH.
  - intros e' He'. apply covered_true in He'. apply covered_true.
    induction sets as [|[k v] sets IH]; [done|].
    simpl in *. destruct (decide (k = i)) as [->|Hne].
    + injection Hget as ->. apply Exists_cons in He' as [He'|He'].
      * apply Exists_cons_hd. simpl in *. set_solver.
      * by apply Exists_cons_tl.
    + apply Exists_cons in He' as [He'|He'].
      * by apply Exists_cons_hd.
      * apply Exists_cons_tl. by apply IH.
Qed.

Lemma add_to_ret {S} (sets : list (Z * gset string)) i e (w : S) sets' w' :
  add_to sets i e w = (Ret sets', w') →
  w' = w ∧ covered sets' e = true ∧ grows sets sets'.
Proof.
  unfold add_to, dict_get. destruct (dict_lookup sets i) as [s|] eqn:Hget; [|done].
  intros [= <- <-]. split; [done|]. by apply dict_set_covers.
Qed.

Section repair.
Context `{Random}.

(** After the repair every element is in some set, and no element has lost
    its cover. *)
Lemma ensure_feasibility_ret elements sets (w : world) sets' w' :
  ensure_feasibility elements sets w = (Ret sets', w') →
  grows sets sets' ∧ ∀ e, e ∈ elements → covered sets' e = true.
Proof.
  unfold ensure_feasibility. revert sets w.
  induction elements as [|e0 es IH]; intros sets w Hrun.
  - injection Hrun as <- <-. split; [by intros e|]. by intros e ?%elem_of_nil.
  - simpl in Hrun. apply bind_ret in Hrun as (sets1 & w1 & Hbody & Hrest).
    apply IH in Hrest as [Hgrow Hcov].
    assert (grows sets sets1 ∧ covered sets1 e0 = true) as [Hg1 Hc1].
    { destruct (covered sets e0) eqn:Hc.
      - injection Hbody as <- <-. split; [by intros e|done].
      - apply bind_ret in Hbody as (rs & w2 & _ & Hadd).
        apply add_to_ret in Hadd as (_ & ? & ?). done. }
    split; [intros e He; by apply Hgrow, Hg1|].
    intros e [->|He]%elem_of_cons; [by apply Hgrow|by apply Hcov].
Qed.

Lemma draw_data_covers fuel self g d w' :
  draw_data fuel (self, g) = (Ret d, w') →
  ∀ e, e ∈ elements d → covered (sets d) e = true.
Proof.
  unfold draw_data. intros Hrun.
  repeat match type of Hrun with
         | (_ ≫= _) _ = (Ret _, _) =>
             let a := fresh "a" in let w := fresh "w" in
             let Hc := fresh "Hc" in
             apply bind_ret in Hrun as (a & w & Hc & Hrun)
         end.
  injection Hrun as <- <-. simpl.
  match goal with
  | Hf : ensure_feasibility _ _ _ = _ |- _ =>
      apply ensure_feasibility_ret in Hf as [_ Hcov]
  end.
  done.
Qed.

Lemma build_model_constrs d (w : world) m w' :
  build_model d w = (Ret m, w') →
  constrs m = cover (sets d) <$> elements d.
Proof.
  unfold build_model. intros (obj & w1 & _ & Hret)%bind_ret.
  injection Hret as <- <-. by rewrite addConstrs_eq.
Qed.

End repair.

(** The all-ones assignment on a sum of variables counts them. *)
Lemma eval_ones {A} (f : A → var) (l : list A) :
  eval (λ _, 1%Z) ((λ a, (1%Z, f a)) <$> l) = Z.of_nat (length l).
Proof. induction l as [|a l IH]; [done|]. rewrite fmap_cons. simpl in *. lia. Qed.

Lemma cover_nonempty sets e :
  covered sets e = true →
  lhs (cover sets e) ≠ [] ∧ satisfies (λ _, 1%Z) (cover sets e).
Proof.
  intros Hc%covered_true. unfold cover, satisfies. simpl.
  assert (filter (λ kv : Z * gset string, e ∈ kv.2) sets ≠ []) as Hne.
  { apply Exists_exists in Hc as (kv & Hin & He).
    intros Hnil. assert (kv ∈ filter (λ kv : Z * gset string, e ∈ kv.2) sets) as Hkv
      by by apply list_elem_of_filter.
    rewrite Hnil in Hkv. by apply elem_of_nil in Hkv. }
  split.
  - intros Hnil%fmap_nil_inv. done.
  - rewrite eval_ones.
    destruct (filter (λ kv : Z * gset string, e ∈ kv.2) sets); [done|]. simpl. lia.
Qed.

End SetCoverFacts.


(** ** [print_solution] touches standard output and nothing else *)

Module ReportFacts.
Import Py Value Loops LoopFacts Report.

Section frames.
Context {D : Type}.

Lemma frames_ret {A} (a : A) : frames (mret a : M (pworld D) A).
Proof. intros w o w' [= <- <-]. repeat split. exists []. by rewrite app_nil_r. Qed.

Lemma frames_raise {A} e : frames (raise e : M (pworld D) A).
Proof. intros w o w' [= <- <-]. repeat split. exists []. by rewrite app_nil_r. Qed.

Lemma frames_lift {A} (o : outcome A) : frames (lift o : M (pworld D) A).
Proof. intros w o' w' [= <- <-]. repeat split. exists []. by rewrite app_nil_r. Qed.

Lemma frames_gets {A} (f : pworld D → A) : frames (gets f).
Proof. intros w o w' [= <- <-]. repeat split. exists []. by rewrite app_nil_r. Qed.

Lemma frames_print s : frames (print s : M (pworld D) unit).
Proof. intros w o w' [= <- <-]. repeat split. by exists [s]. Qed.

Lemma frames_read_X v : frames (read_X v : M (pworld D) float).
Proof. intros w o w' [= <- <-]. repeat split. exists []. by rewrite app_nil_r. Qed.

Lemma frames_bind {A B} (c : M (pworld D) A) (k : A → M (pworld D) B) :
  frames c → (∀ a, frames (k a)) → frames (c ≫= k).
Proof.
  intros Hc Hk w o w'. unfold mbind, M_bind, bind.
  destruct (c w) as [[a|e|] w1] eqn:Hcw.
  - intros Hkw. destruct (Hc _ _ _ Hcw) as (Hs & Hm & out1 & Ho1).
    destruct (Hk a _ _ _ Hkw) as (Hs' & Hm' & out2 & Ho2).
    split; [congruence|]. split; [congruence|].
    exists (out1 ++ out2). by rewrite Ho2, Ho1, app_assoc.
  - intros [= <- <-]. by apply (Hc _ _ _ Hcw).
  - intros [= <- <-]. by apply (Hc _ _ _ Hcw).
Qed.

Lemma frames_index {A} (l : list A) i : frames (index l i : M (pworld D) A).
Proof. unfold index. destruct (l !! i); [apply frames_ret|apply frames_raise]. Qed.

Lemma frames_dict_get {K} `{EqDecision K} {V} (d : list (K * V)) k :
  frames (dict_get d k : M (pworld D) V).
Proof.
  unfold dict_get. destruct (dict_lookup d k); [apply frames_ret|apply frames_raise].
Qed.

Lemma frames_var_key v : frames (var_key v : M (pworld D) string).
Proof.
  unfold var_key. apply frames_bind; [apply frames_index|].
  intros rest. apply frames_index.
Qed.

Lemma frames_for_each {A B} (body : A → M (pworld D) B) l :
  (∀ a, frames (body a)) → frames (for_each body l).
Proof.
  intros Hbody. induction l as [|a l IH]; [apply frames_ret|].
  simpl. apply frames_bind; [done|]. intros b.
  apply frames_bind; [done|]. intros bs. apply frames_ret.
Qed.

Lemma frames_for_ {A} (body : A → M (pworld D) unit) l :
  (∀ a, frames (body a)) → frames (for_ body l).
Proof.
  intros Hbody. induction l as [|a l IH]; [apply frames_ret|].
  simpl. apply frames_bind; [done|]. by intros [].
Qed.

End frames.

(** The usual steps of a proof that a computation frames. *)
Ltac frames_step :=
  first
    [ apply frames_bind; [|intros ?]
    | apply frames_ret | apply frames_raise | apply frames_lift
    | apply frames_gets | apply frames_print | apply frames_read_X
    | apply frames_index | apply frames_dict_get | apply frames_var_key
    | apply (frames_ret (D := _) tt) ].

Section tsp.
Context `{Format}.
Import TSPReport.

Lemma frames_find_next current_city vs : frames (find_next current_city vs).
Proof.
  induction vs as [|v vs IH]; [apply frames_ret|]. simpl.
  destruct (String.prefix "route" (VarName v)); [|done].
  apply frames_bind; [apply frames_var_key|]. intros k.
  destruct (split ","%char k) as [|city1 [|city2 [|? ?]]]; try apply frames_raise.
  destruct (decide (city1 = current_city)); [|done].
  apply frames_bind; [apply frames_read_X|]. intros x.
  destruct (flt (lit 1 2) x); [apply frames_ret|done].
Qed.

Lemma frames_follow steps current_city route : frames (follow steps current_city route).
Proof.
  revert current_city route. induction steps as [|n IH]; intros c route;
    [apply frames_ret|].
  simpl. apply frames_bind; [apply frames_gets|]. intros vs.
  apply frames_bind; [apply frames_find_next|]. intros [c'|]; [apply IH|apply frames_ret].
Qed.

Lemma frames_segments route total : frames (segments route total).
Proof.
  revert total. induction route as [|a route IH]; intros total; [apply frames_ret|].
  destruct route as [|b route]; [apply frames_ret|].
  change (segments (a :: b :: route) total) with
    (d ← gets (λ w, distances (self w));
     distance ← dict_get d (a, b);
     print (center 10 a +:+ " " +:+ center 10 b +:+ " " +:+ center_int 10 distance);;
     segments (b :: route) (total + distance)%Z).
  repeat frames_step. apply IH.
Qed.

Lemma frames_tsp_print_solution : frames print_solution.
Proof.
  unfold print_solution. apply frames_bind; [apply frames_gets|]. intros status.
  destruct (decide (status ≠ OPTIMAL)); [apply frames_print|].
  repeat first [apply frames_follow | apply frames_segments | frames_step].
Qed.

Lemma tsp_not_optimal (w : pworld data) :
  Status (mdl w) ≠ OPTIMAL →
  print_solution w
  = (Ret tt, PWorld (self w) (mdl w) (stdout w ++ ["No optimal solution found."])
                    (reads w)).
Proof.
  intros Hs. unfold print_solution, mbind, M_bind, bind, gets. simpl.
  by rewrite decide_True.
Qed.

End tsp.

Section portfolio.
Context `{Format}.
Import PortfolioReport.

Lemma frames_X_by_name name : frames (X_by_name name).
Proof.
  unfold X_by_name. apply frames_bind; [apply frames_gets|]. intros vs.
  destruct (list_find _ vs) as [[? v]|]; [apply frames_read_X|apply frames_raise].
Qed.

Lemma frames_collect vs weights : frames (collect vs weights).
Proof.
  revert weights. induction vs as [|v vs IH]; intros weights; [apply frames_ret|].
  simpl. destruct (String.prefix "Weights" (VarName v)); [|done].
  repeat frames_step. apply IH.
Qed.

Lemma frames_portfolio_print_solution : frames print_solution.
Proof.
  unfold print_solution. apply frames_bind; [apply frames_gets|]. intros status.
  destruct (decide (status ≠ OPTIMAL)); [apply frames_print|].
  repeat first
    [ apply frames_X_by_name | apply frames_collect
    | apply frames_for_each; intros ? | apply frames_for_; intros ?
    | frames_step ].
Qed.

Lemma portfolio_not_optimal (w : pworld data) :
  Status (mdl w) ≠ OPTIMAL →
  print_solution w
  = (Ret tt, PWorld (self w) (mdl w) (stdout w ++ ["No optimal solution found."])
                    (reads w)).
Proof.
  intros Hs. unfold print_solution, mbind, M_bind, bind, gets. simpl.
  by rewrite decide_True.
Qed.

End portfolio.
End ReportFacts.


(** * The claims *)

Import PyFacts InitFacts GurobiFacts LoopFacts.

(** ** C1: user parameters and defaults *)

Lemma init_user_dict `{Random} {V} (cls : generator_class V)
    (p : gmap string V) sd g :
  size p ≠ 0 →
  ∃ self, __init__ cls (Some p) sd g
            = (Ret self, match sd with Some s => seed_rng s | None => g end) ∧
          attrs self = p ∧ seed self = sd.
Proof.
  intros Hp. destruct (init_attrs cls (Some p) sd g) as (self & Hinit & Hsd & Ha).
  exists self. split; [done|]. split; [|done]. rewrite Ha. simpl.
  destruct (default_guard cls); [|done].
  by rewrite bool_decide_eq_false_2.
Qed.

(** C1 fails on the code: the Knapsack generator built with
    [{"n_items": (5, 5)}] has no attribute [value_range]. *)
Lemma C1_counterexample : ¬ merges_with_defaults (H := lcg) Knapsack.cls.
Proof.
  intros Hm.
  set (p := {["n_items" := VRange 5 5]} : gmap string value).
  assert (size p ≠ 0) as Hp by (by unfold p; rewrite map_size_singleton).
  destruct (init_user_dict (H := lcg) Knapsack.cls p None 0%Z Hp)
    as (self & Hinit & Ha & Hsd).
  destruct (Hm p None 0%Z self _ Hp Hinit) as [_ Hdef].
  specialize (Hdef "value_range" (VRange 10 300)).
  unfold getattr in Hdef. rewrite Ha in Hdef.
  assert (p !! "value_range" = None) as Hnone by done.
  rewrite Hnone in Hdef. simpl in Hdef.
  by specialize (Hdef eq_refl eq_refl).
Qed.

(** C1, amended: for a non-empty user dict [__init__] stores the entries of
    the dict and nothing else. Every key of the dict other than [seed]
    reads back the user's value, [self.seed] is the [seed] argument, and a
    default key that the dict omits is not an attribute of the instance. *)
Theorem init_stores_user_dict_only `{Random} {V} (cls : generator_class V)
    (p : gmap string V) (sd : option Z) (g : rng) :
  size p ≠ 0 →
  ∃ self g',
    __init__ cls (Some p) sd g = (Ret self, g') ∧
    attrs self = p ∧
    getattr self "seed" = Some (Seed sd) ∧
    (∀ k v, p !! k = Some v → k ≠ "seed" → getattr self k = Some (Param v)) ∧
    (∀ k, k ∈ dom (default_parameters cls) → p !! k = None → ¬ reserved k →
          getattr self k = None).
Proof.
  intros Hp. destruct (init_user_dict cls p sd g Hp) as (self & Hinit & Ha & Hsd).
  exists self. eexists. split; [done|]. split; [done|]. unfold getattr.
  split; [by rewrite Hsd|]. split.
  - intros k v Hk Hne. rewrite decide_False by done. by rewrite Ha, Hk.
  - intros k _ Hk Hres. unfold reserved in Hres.
    rewrite decide_False by tauto. rewrite Ha, Hk.
    rewrite decide_False by tauto. done.
Qed.

Lemma init_stores_user_dict_only_witness :
  ∃ self g',
    __init__ (H := lcg) Knapsack.cls (Some {["n_items" := VRange 5 5]}) None 0%Z
      = (Ret self, g') ∧
    attrs self = {["n_items" := VRange 5 5]} ∧
    getattr self "value_range" = None.
Proof.
  destruct (init_stores_user_dict_only (H := lcg) Knapsack.cls
              {["n_items" := VRange 5 5]} None 0%Z)
    as (self & g' & Hinit & Ha & _ & _ & Hdef).
  - vm_compute. discriminate.
  - exists self, g'. split; [done|]. split; [done|].
    apply Hdef.
    + apply elem_of_dom. vm_compute. eauto.
    + reflexivity.
    + unfold reserved. intros [?|[?|?]]; discriminate.
Defined.


(** ** C2: [parameters=None] and [parameters={}] *)

(** Where the test is [parameters is None or not parameters], the two calls
    build the same instance, which carries every default. *)
Lemma init_none_or_empty `{Random} {V} (cls : generator_class V) sd g :
  default_guard cls = NoneOrEmpty →
  __init__ cls None sd g = __init__ cls (Some ∅) sd g ∧
  ∃ self g', __init__ cls (Some ∅) sd g = (Ret self, g') ∧
             attrs self = default_parameters cls.
Proof.
  intros Hg. split.
  - unfold __init__. by rewrite Hg.
  - destruct (init_attrs cls (Some ∅) sd g) as (self & Hinit & _ & Ha).
    exists self. eexists. split; [done|]. by rewrite Ha, Hg.
Qed.

Lemma init_none `{Random} {V} (cls : generator_class V) sd g :
  ∃ self g', __init__ cls None sd g = (Ret self, g') ∧
             attrs self = default_parameters cls.
Proof.
  destruct (init_attrs cls None sd g) as (self & Hinit & _ & Ha).
  exists self. eexists. split; [done|]. by rewrite Ha.
Qed.

(** C2 fails on MCND and Structure_based_assignment, whose test is
    [parameters is None] alone: built with [{}], the instance has no
    parameter attribute at all, and MCND's [generate_instance] raises
    [AttributeError] at its first statement. Built with [None], it carries
    the defaults. *)
Theorem MCND_empty_dict_sets_no_attribute `{Random} (sd : option Z) (g : rng) :
  ∃ self_none self_empty g',
    __init__ MCND.cls None sd g = (Ret self_none, g') ∧
    attrs self_none = default_parameters MCND.cls ∧
    __init__ MCND.cls (Some ∅) sd g = (Ret self_empty, g') ∧
    attrs self_empty = ∅ ∧
    getattr self_empty "n_nodes" = None ∧
    (∀ g2, MCND.draw_sizes (self_empty, g2) = (Raise AttributeError, (self_empty, g2))) ∧
    ∃ sba, __init__ SBA.cls (Some ∅) sd g = (Ret sba, g') ∧ attrs sba = ∅.
Proof.
  destruct (init_attrs MCND.cls None sd g) as (s1 & Hi1 & _ & Ha1).
  destruct (init_attrs MCND.cls (Some ∅) sd g) as (s2 & Hi2 & _ & Ha2).
  destruct (init_attrs SBA.cls (Some ∅) sd g) as (s3 & Hi3 & _ & Ha3).
  simpl in Ha1, Ha2, Ha3.
  exists s1, s2. eexists. repeat split; try done.
  - unfold getattr. by rewrite Ha2.
  - intros g2. unfold MCND.draw_sizes, randint_star, mbind, M_bind, bind, getparam.
    simpl. by rewrite Ha2.
  - by exists s3.
Qed.


(** ** C3: a seed fixes the instance *)

(** The seed goes to the global source when the object is built, and
    [generate_instance] draws from the state the source is in when it is
    called: of two objects built one after the other with the same
    parameters and seed, the one that generates second continues the stream
    of the first. *)
Remark generate_draws_from_the_global_source :
  ∃ a b g1 g2 da wa db wb,
    __init__ (H := lcg) Knapsack.cls (Some two_items) (Some 1%Z) 0%Z = (Ret a, g1) ∧
    __init__ (H := lcg) Knapsack.cls (Some two_items) (Some 1%Z) g1 = (Ret b, g2) ∧
    Knapsack.draw_data (H := lcg) (a, g2) = (Ret da, wa) ∧
    Knapsack.draw_data (H := lcg) (b, wa.2) = (Ret db, wb) ∧
    Knapsack.item_values da ≠ Knapsack.item_values db.
Proof.
  do 8 eexists.
  split; [vm_compute; reflexivity|]. split; [vm_compute; reflexivity|].
  split; [vm_compute; reflexivity|]. split; [vm_compute; reflexivity|].
  vm_compute. discriminate.
Qed.

(** C3 fails on the code: two generators built one after the other with
    the parameters [two_items] and the seed 1, then asked for an instance
    one after the other, draw different values. *)
Lemma C3_counterexample : ¬ two_constructions_agree (H := lcg).
Proof.
  intros Hagree.
  destruct generate_draws_from_the_global_source
    as (a & b & g1 & g2 & da & wa & db & wb & Ha & Hb & Hda & Hdb & Hne).
  apply Hne. by rewrite (Hagree _ _ _ _ _ _ _ _ _ _ _ Ha Hb Hda Hdb).
Qed.

(** C3, amended: with a seed, [__init__] leaves the global random source in
    the state the seed gives, whatever it was before; a
    [generate_instance] that is called directly after its own construction
    therefore gives an outcome, data (items, values, weights, capacity)
    and a model that depend on the parameters and the seed alone, not on
    the state of the source before the construction. *)
Theorem seeded_instance_deterministic `{Random}
    (parameters : option (gmap string value)) (s : Z) (g1 g2 : rng) :
  (∃ self, __init__ Knapsack.cls parameters (Some s) g1 = (Ret self, seed_rng s) ∧
           __init__ Knapsack.cls parameters (Some s) g2 = (Ret self, seed_rng s)) ∧
  seeded_instance parameters (Some s) g1 = seeded_instance parameters (Some s) g2 ∧
  seeded_model parameters (Some s) g1 = seeded_model parameters (Some s) g2.
Proof.
  destruct (init_attrs Knapsack.cls parameters (Some s) g1) as (self1 & H1 & Hs1 & Ha1).
  destruct (init_attrs Knapsack.cls parameters (Some s) g2) as (self2 & H2 & Hs2 & Ha2).
  assert (self1 = self2) as <-.
  { destruct self1, self2. simpl in *. congruence. }
  split; [by exists self1|].
  unfold seeded_instance, seeded_model, bind. by rewrite H1, H2.
Qed.


(** ** C4: the Knapsack model *)

Lemma floor_of_nonneg (p : number) K :
  nonneg p = true → int_of p = Ret K → floor_of p = Ret K.
Proof.
  destruct p as [n|x]; [done|]. destruct x as [s|s| |s m e]; try done.
  simpl. destruct s; [done|]. intros _ [= <-]. by destruct (0 <=? e)%Z.
Qed.

(** The product is a product of doubles: for a total weight of 90 and the
    default ratio [0.7] it is [62.99999999999999], and the capacity is 62. *)
Example capacity_of_weight_90 :
  int_times 90 (VFloat (lit 7 10))
  = Ret (NFloat (S754_finite false 8866461766385663 (-47))) ∧
  int_of (NFloat (S754_finite false 8866461766385663 (-47))) = Ret 62%Z.
Proof. split; vm_compute; reflexivity. Qed.

Lemma fmap_swap_zip {A B C} (f : A → C) (l : list (A * B)) :
  (λ kv, (kv.2, f kv.1)) <$> l = zip l.*2 (f <$> l.*1).
Proof. induction l as [|[a b] l IH]; [done|]. simpl. by f_equal. Qed.

(** C4 fails on the code: the product is [-1.5], [int] gives [-1] and the
    floor is [-2]. *)
Lemma C4_counterexample : ¬ capacity_is_floor (H := lcg).
Proof.
  intros Hc.
  destruct (Knapsack.generate_instance (H := lcg) (negative_weight, 0%Z))
    as [[m| |] w'] eqn:Hgen; try (by vm_compute in Hgen).
  destruct (Hc _ _ _ _ Hgen) as (d & ratio & product & K & Hd & Hr & Hp & Hf & HK).
  vm_compute in Hgen. injection Hgen as <- <-.
  vm_compute in Hd. injection Hd as <-.
  vm_compute in Hr. injection Hr as <-.
  vm_compute in Hp. injection Hp as <-.
  vm_compute in Hf. injection Hf as <-.
  vm_compute in HK. discriminate.
Qed.

(** C4, amended: the model of a returning [generate_instance] has one
    binary variable per item, the objective maximises the sum of
    [value_j * x_j], and the only constraint is
    [sum of weight_j * x_j <= K] with [K = int(total_weight * capacity_ratio)],
    the product truncated toward zero; [K] is the floor of the product
    whenever the product is not negative. *)
Theorem knapsack_model_is_textbook `{Random} self g m w' :
  Knapsack.generate_instance (self, g) = (Ret m, w') →
  ∃ d ratio product,
    Knapsack.draw_data (self, g) = (Ret d, w') ∧
    let values := (Knapsack.item_values d).*2 in
    let weights := (Knapsack.item_weights d).*2 in
    let n := length (Knapsack.items d) in
    let xs := (λ j, Knapsack.x (Knapsack.item j)) <$> seq 0 n in
    length values = n ∧ length weights = n ∧
    vars m = (λ v, (v, BINARY)) <$> xs ∧
    model_sense m = MAXIMIZE ∧
    objective m = zip values xs ∧
    constrs m = [Constr (zip weights xs) LESS_EQUAL (Knapsack.knapsack_capacity d)
                        (Some "WeightCapacity")] ∧
    attrs self !! "capacity_ratio" = Some ratio ∧
    int_times (Knapsack.sum weights) ratio = Ret product ∧
    int_of product = Ret (Knapsack.knapsack_capacity d) ∧
    (nonneg product = true → floor_of product = Ret (Knapsack.knapsack_capacity d)).
Proof.
  intros Hgen.
  apply KnapsackFacts.knapsack_generate_instance_ret in Hgen as (d & Hd & ->).
  destruct (KnapsackFacts.draw_data_ret _ _ _ _ Hd)
    as (n & ratio & product & _ & _ & Hits & Hv & Hw & _ & _ & Hr & Hp & HK).
  exists d, ratio, product. split; [done|]. simpl.
  assert ((λ j, Knapsack.x (Knapsack.item j)) <$> seq 0 (length (Knapsack.items d))
          = Knapsack.x <$> Knapsack.items d) as ->.
  { rewrite Hits, length_fmap. unfold range.
    by rewrite length_seq, <- list_fmap_compose. }
  repeat split; try done.
  - by rewrite length_fmap, <- Hv, length_fmap.
  - by rewrite length_fmap, <- Hw, length_fmap.
  - by rewrite <- list_fmap_compose.
  - by rewrite fmap_swap_zip, Hv.
  - by rewrite fmap_swap_zip, Hw.
  - intros Hnn. by apply floor_of_nonneg.
Qed.

Lemma knapsack_model_is_textbook_witness :
  ∃ m w' d,
    Knapsack.generate_instance (H := lcg) (negative_weight, 0%Z) = (Ret m, w') ∧
    Knapsack.draw_data (H := lcg) (negative_weight, 0%Z) = (Ret d, w') ∧
    rhs <$> constrs m = [Knapsack.knapsack_capacity d] ∧
    Knapsack.knapsack_capacity d = (-1)%Z.
Proof.
  destruct (Knapsack.generate_instance (H := lcg) (negative_weight, 0%Z))
    as [[m| |] w'] eqn:Hgen; try (by vm_compute in Hgen).
  destruct (knapsack_model_is_textbook (H := lcg) _ _ _ _ Hgen)
    as (d & ratio & product & Hd & _ & _ & _ & _ & _ & Hc & _ & _ & _ & _).
  exists m, w', d. split; [done|]. split; [done|]. split; [by rewrite Hc|].
  vm_compute in Hd. by injection Hd as <- _.
Defined.


(** ** C6: sampled values lie in their ranges *)

(** C6: when every range parameter is a pair [(lo, hi)] with [lo <= hi],
    the sampling of Knapsack's and of CFLP's [generate_instance] returns,
    the drawn counts lie in their ranges, and every sampled value, weight,
    cost, demand and capacity lies in the range it was drawn from. *)
Theorem sampled_values_within_ranges `{Random} (self : Generator value) (g : rng) :
  (Forall (valid_range self) ["n_items"; "value_range"; "weight_range"] →
   ∃ its vals wts w' n,
     Knapsack.sample (self, g) = (Ret (its, vals, wts), w') ∧
     within self "n_items" n ∧ its = Knapsack.item <$> range n ∧
     Forall (λ kv, within self "value_range" kv.2) vals ∧
     Forall (λ kv, within self "weight_range" kv.2) wts) ∧
  (Forall (valid_range self)
     ["n_facilities"; "n_customers"; "fixed_cost_range"; "transport_cost_range";
      "demand_range"; "capacity_range"] →
   ∃ d w' nf nc,
     CFLP.sample (self, g) = (Ret d, w') ∧
     within self "n_facilities" nf ∧ within self "n_customers" nc ∧
     CFLP.facilities d = CFLP.facility <$> range nf ∧
     CFLP.customers d = CFLP.customer <$> range nc ∧
     Forall (λ kv, within self "fixed_cost_range" kv.2) (CFLP.fixed_costs d) ∧
     Forall (λ kv, within self "transport_cost_range" kv.2) (CFLP.transport_costs d) ∧
     Forall (λ kv, within self "demand_range" kv.2) (CFLP.demands d) ∧
     Forall (λ kv, within self "capacity_range" kv.2) (CFLP.capacities d)).
Proof.
  split.
  - intros Hall.
    apply Forall_cons in Hall as [Hn Hall].
    apply Forall_cons in Hall as [Hv Hall].
    apply Forall_cons in Hall as [Hw _].
    destruct (KnapsackFacts.sample_total self g Hn Hv Hw)
      as (its & vals & wts & w' & Hs).
    destruct (KnapsackFacts.sample_ret _ _ _ _ _ _ Hs)
      as (n & Hin & _ & Hits & _ & _ & Hvals & Hwts).
    exists its, vals, wts, w', n. repeat split; try done.
    + apply Forall_forall. intros [k v] Hkv. by apply (Hvals k v).
    + apply Forall_forall. intros [k v] Hkv. by apply (Hwts k v).
  - intros Hall.
    destruct (CFLPFacts.sample_spec self g Hall)
      as (d & w' & nf & nc & Hs & Hnf & Hnc & Hf & Hc & H1 & H2 & H3 & H4).
    exists d, w', nf, nc. repeat split; try done.
    + apply Forall_forall. intros [k v] Hkv. by apply (H1 k v).
    + apply Forall_forall. intros [k v] Hkv. by apply (H2 k v).
    + apply Forall_forall. intros [k v] Hkv. by apply (H3 k v).
    + apply Forall_forall. intros [k v] Hkv. by apply (H4 k v).
Qed.

Lemma sampled_values_within_ranges_witness :
  (∃ its vals wts w' n,
     Knapsack.sample (H := lcg) (knapsack_default, 7%Z) = (Ret (its, vals, wts), w') ∧
     within knapsack_default "n_items" n ∧
     Forall (λ kv, within knapsack_default "value_range" kv.2) vals ∧
     Forall (λ kv, within knapsack_default "weight_range" kv.2) wts) ∧
  (∃ d w',
     CFLP.sample (H := lcg) (cflp_default, 7%Z) = (Ret d, w') ∧
     Forall (λ kv, within cflp_default "demand_range" kv.2) (CFLP.demands d)).
Proof.
  split.
  - destruct (proj1 (sampled_values_within_ranges (H := lcg) knapsack_default 7%Z))
      as (its & vals & wts & w' & n & Hs & Hn & _ & Hv & Hw).
    + repeat (apply Forall_cons; split); [..|by apply Forall_nil].
      * exists 3%Z, 30%Z. split; [by vm_compute|lia].
      * exists 10%Z, 300%Z. split; [by vm_compute|lia].
      * exists 1%Z, 50%Z. split; [by vm_compute|lia].
    + exists its, vals, wts, w', n.
      split; [exact Hs|]. split; [exact Hn|]. split; [exact Hv|exact Hw].
  - destruct (proj2 (sampled_values_within_ranges (H := lcg) cflp_default 7%Z))
      as (d & w' & nf & nc & Hs & _ & _ & _ & _ & _ & _ & Hd & _).
    + repeat (apply Forall_cons; split); [..|by apply Forall_nil].
      * exists 3%Z, 3%Z. split; [by vm_compute|lia].
      * exists 3%Z, 3%Z. split; [by vm_compute|lia].
      * exists 80000%Z, 120000%Z. split; [by vm_compute|lia].
      * exists 10%Z, 100%Z. split; [by vm_compute|lia].
      * exists 300%Z, 500%Z. split; [by vm_compute|lia].
      * exists 800%Z, 1200%Z. split; [by vm_compute|lia].
    + exists d, w'. split; [exact Hs|exact Hd].
Defined.


(** ** C5: the constraints of the TSP model *)

Lemma filter_named (pre : string) (mk : string → constr) (l : list string) j :
  (∀ i, cname (mk i) = Some (pre +:+ i)) → NoDup l → j ∈ l →
  filter (λ c, cname c = Some (pre +:+ j)) (mk <$> l) = [mk j].
Proof.
  intros Hname. induction l as [|a l IH]; intros Hnd Hj; [by apply elem_of_nil in Hj|].
  apply NoDup_cons in Hnd as [Ha Hnd]. rewrite fmap_cons, filter_cons.
  destruct (decide (cname (mk a) = Some (pre +:+ j))) as [Heq|Hne].
  - rewrite Hname in Heq. injection Heq as Heq.
    apply (inj (String.app pre)) in Heq as ->. f_equal.
    clear IH Hj. induction l as [|b l IH]; [done|].
    rewrite fmap_cons, filter_cons. apply not_elem_of_cons in Ha as [Hjb Ha].
    apply NoDup_cons in Hnd as [_ Hnd].
    rewrite decide_False; [by apply IH|].
    rewrite Hname. intros [= Heq]. by apply (inj (String.app pre)) in Heq.
  - apply elem_of_cons in Hj as [->|Hj]; [by rewrite Hname in Hne|by apply IH].
Qed.

Lemma filter_other_names (name : string) (l : list constr) :
  Forall (λ c, cname c ≠ Some name) l →
  filter (λ c, cname c = Some name) l = [].
Proof.
  induction 1 as [|c l Hc _ IH]; [done|].
  rewrite filter_cons. by rewrite decide_False.
Qed.

Lemma bounds_unnamed cities : Forall (λ c, cname c = None) (TSP.bounds_of cities).
Proof.
  unfold TSP.bounds_of. generalize (length cities), (head cities). intros n h.
  induction cities as [|i cs IH]; [constructor|]. rewrite fmap_cons. simpl.
  destruct (decide (Some i ≠ h)); [|done]. by repeat constructor.
Qed.

Lemma subtours_unnamed cities keys :
  Forall (λ c, cname c = None) (TSP.subtours_of cities keys).
Proof.
  unfold TSP.subtours_of. induction keys as [|k ks IH]; [constructor|].
  rewrite fmap_cons. simpl.
  destruct (decide (Some k.1 ≠ head cities ∧ Some k.2 ≠ head cities)); [|done].
  by constructor.
Qed.

Lemma head_cities n i :
  i ∈ TSP.city <$> seq 0 n → head (TSP.city <$> seq 0 n) = Some (TSP.city 0).
Proof. destruct n; [by intros ?%elem_of_nil|done]. Qed.

(** C5: in the model of a returning [generate_instance] every city has
    exactly one constraint named [visit_<city>], which sets the sum of its
    incoming arcs to 1, and exactly one named [depart_<city>], which sets
    the sum of its outgoing arcs to 1; every ordered pair of distinct
    cities other than the first has its constraint
    [u_i - u_j + n*x_ij <= n - 1], and every city other than the first has
    [u_i >= 0] and [u_i <= n - 1]. *)
Theorem tsp_model_constraints `{Random} self g m w' :
  TSP.generate_instance (self, g) = (Ret m, w') →
  ∃ n : nat,
    let cities := TSP.city <$> seq 0 n in
    attrs w'.1 !! "cities" = Some (VList cities) ∧
    (∀ j, j ∈ cities →
       filter (λ c, cname c = Some ("visit_" +:+ j)) (constrs m)
       = [Constr ((λ i, (1%Z, TSP.x i j)) <$> filter (λ i, i ≠ j) cities)
                 EQUAL 1 (Some ("visit_" +:+ j))]) ∧
    (∀ i, i ∈ cities →
       filter (λ c, cname c = Some ("depart_" +:+ i)) (constrs m)
       = [Constr ((λ j, (1%Z, TSP.x i j)) <$> filter (λ j, i ≠ j) cities)
                 EQUAL 1 (Some ("depart_" +:+ i))]) ∧
    (∀ i j, i ∈ cities → j ∈ cities → i ≠ j →
       i ≠ TSP.city 0 → j ≠ TSP.city 0 →
       Constr [(1%Z, TSP.u i); ((-1)%Z, TSP.u j); (Z.of_nat n, TSP.x i j)]
              LESS_EQUAL (Z.of_nat n - 1) None ∈ constrs m) ∧
    (∀ i, i ∈ cities → i ≠ TSP.city 0 →
       Constr [(1%Z, TSP.u i)] GREATER_EQUAL 0 None ∈ constrs m ∧
       Constr [(1%Z, TSP.u i)] LESS_EQUAL (Z.of_nat n - 1) None ∈ constrs m).
Proof.
  intros Hgen.
  apply TSPFacts.tsp_generate_instance_ret in Hgen as (nz & ds & _ & Hkeys & _ & Hw & ->).
  exists (Z.to_nat nz). unfold range in *. set (n := Z.to_nat nz) in *.
  set (cities := TSP.city <$> seq 0 n) in *. simpl.
  pose proof (TSPFacts.cities_NoDup nz) as Hnd. unfold range in Hnd. fold n cities in Hnd.
  assert (length cities = n) as Hlen by (unfold cities; by rewrite length_fmap, length_seq).
  split; [|split; [|split; [|split]]].
  - rewrite Hw. simpl. rewrite lookup_insert_ne by done. apply lookup_insert_eq.
  - intros j Hj. rewrite !filter_app.
    rewrite (filter_named "visit_" (TSP.visit cities)) by done.
    rewrite !filter_other_names; [done| | |].
    + eapply Forall_impl; [apply subtours_unnamed|]. by intros c ->.
    + eapply Forall_impl; [apply bounds_unnamed|]. by intros c ->.
    + apply Forall_fmap, Forall_forall. intros i _. simpl. by intros [=].
  - intros i Hi. rewrite !filter_app.
    rewrite (filter_named "depart_" (TSP.depart cities)) by done.
    rewrite !filter_other_names; [done| | |].
    + eapply Forall_impl; [apply subtours_unnamed|]. by intros c ->.
    + eapply Forall_impl; [apply bounds_unnamed|]. by intros c ->.
    + apply Forall_fmap, Forall_forall. intros j _. simpl. by intros [=].
  - intros i j Hi Hj Hij Hi0 Hj0.
    rewrite !elem_of_app. right. right. right.
    unfold TSP.subtours_of. rewrite Hkeys.
    pose proof (head_cities n i Hi) as Hhead. fold cities in Hhead.
    apply list_elem_of_In, in_concat. exists [TSP.mtz n i j]. split; [|by left].
    apply list_elem_of_In, list_elem_of_fmap. exists (i, j).
    split; [|by apply TSPFacts.arcs_elem].
    cbn [fst snd]. rewrite Hhead, Hlen.
    by rewrite decide_True by (split; congruence).
  - intros i Hi Hi0.
    assert (∀ c, c ∈ [TSP.u_lower i; TSP.u_upper n i] → c ∈ TSP.bounds_of cities)
      as Hin.
    { intros c Hc. unfold TSP.bounds_of.
      pose proof (head_cities n i Hi) as Hhead. fold cities in Hhead.
      apply list_elem_of_In, in_concat.
      exists [TSP.u_lower i; TSP.u_upper n i]. split; [|by apply list_elem_of_In].
      apply list_elem_of_In, list_elem_of_fmap. exists i. split; [|done].
      rewrite Hhead, Hlen. by rewrite decide_True by congruence. }
    split; rewrite !elem_of_app; right; right; left; apply Hin.
    + apply list_elem_of_here.
    + apply list_elem_of_further, list_elem_of_here.
Qed.

Lemma tsp_model_constraints_witness :
  ∃ m w',
    TSP.generate_instance (H := lcg) (three_cities, 42%Z) = (Ret m, w') ∧
    Constr [(1%Z, TSP.u "city_1"); ((-1)%Z, TSP.u "city_2");
            (Z.of_nat 3, TSP.x "city_1" "city_2")]
           LESS_EQUAL (Z.of_nat 3 - 1) None ∈ constrs m.
Proof.
  destruct (TSP.generate_instance (H := lcg) (three_cities, 42%Z))
    as [[m| |] w'] eqn:Hgen; try (by vm_compute in Hgen).
  exists m, w'. split; [reflexivity|].
  destruct (tsp_model_constraints (H := lcg) _ _ _ _ Hgen)
    as (n & Hc & _ & _ & Hmtz & _).
  assert (attrs (TSP.generate_instance (H := lcg) (three_cities, 42%Z)).2.1 !! "cities"
          = Some (VList ["city_0"; "city_1"; "city_2"])) as Hw
    by (vm_compute; reflexivity).
  rewrite Hgen in Hw. cbn [fst snd] in Hw, Hc. rewrite Hc in Hw.
  injection Hw as Hw.
  assert (n = 3) as ->.
  { apply (f_equal length) in Hw. by rewrite length_fmap, length_seq in Hw. }
  apply Hmtz.
  - apply list_elem_of_fmap. exists 1. split; [by vm_compute|]. apply elem_of_seq. lia.
  - apply list_elem_of_fmap. exists 2. split; [by vm_compute|]. apply elem_of_seq. lia.
  - discriminate.
  - vm_compute. discriminate.
  - vm_compute. discriminate.
Defined.


(** ** C9: a second call of [generate_instance] *)

(** C9: after a call of Knapsack's [generate_instance] has returned,
    [n_items] holds the drawn number, which lies in the range it replaced,
    and any further call raises [TypeError] (and changes nothing). After a
    call of TSP's [generate_instance] has returned, a further call returns
    too, and keeps the number of cities and the cities of the first call:
    its model has the same variables and the same constraints. *)
Theorem second_call_of_generate_instance `{Random} :
  (∀ self g m w',
     Knapsack.generate_instance (self, g) = (Ret m, w') →
     (∃ n, within self "n_items" n ∧ attrs w'.1 !! "n_items" = Some (VInt n)) ∧
     ∀ g2, Knapsack.generate_instance (w'.1, g2) = (Raise TypeError, (w'.1, g2))) ∧
  (∀ self g m w',
     TSP.generate_instance (self, g) = (Ret m, w') →
     ∀ g2, ∃ n m2 w2,
       attrs w'.1 !! "n_cities" = Some (VInt n) ∧
       TSP.generate_instance (w'.1, g2) = (Ret m2, w2) ∧
       attrs w2.1 !! "n_cities" = Some (VInt n) ∧
       attrs w2.1 !! "cities" = attrs w'.1 !! "cities" ∧
       vars m2 = vars m ∧ constrs m2 = constrs m).
Proof.
  split.
  - intros self g m w' Hgen.
    apply KnapsackFacts.knapsack_generate_instance_ret in Hgen as (d & Hd & _).
    apply KnapsackFacts.draw_data_ret in Hd as (n & _ & _ & Hn & Hw & _).
    assert (attrs w'.1 !! "n_items" = Some (VInt n)) as Ha.
    { rewrite Hw. simpl. apply lookup_insert_eq. }
    split; [by exists n|]. intros g2.
    unfold Knapsack.generate_instance, Knapsack.draw_data, Knapsack.sample.
    do 3 (apply bind_raise). unfold randint_star.
    by rewrite (bind_run _ _ _ _ _ (ValueFacts.getparam_run "n_items" (w'.1, g2) _ Ha)).
  - intros self g m w' Hgen g2.
    apply TSPFacts.tsp_generate_instance_ret in Hgen as (n & ds & _ & Hkeys & Hin & Hw & ->).
    assert (attrs w'.1 !! "n_cities" = Some (VInt n)) as Ha.
    { rewrite Hw. simpl. rewrite !lookup_insert_ne by done. apply lookup_insert_eq. }
    destruct (TSPFacts.generate_from_count_total w'.1 g2 n Ha) as (m2 & w2 & Hgen2).
    { intros Hne. destruct ds as [|[k d] ds]; [by rewrite <- Hkeys in Hne|].
      destruct (Hin k d) as (lo & hi & Hr & Hd); [apply list_elem_of_here|].
      exists lo, hi. split; [|lia].
      rewrite Hw. simpl. by rewrite !lookup_insert_ne. }
    exists n, m2, w2. split; [done|]. split; [done|].
    apply TSPFacts.generate_from_count with (n := n) in Hgen2
      as (ds2 & Hkeys2 & _ & Hw2 & ->); [|done].
    rewrite Hw2, Hw. simpl.
    split; [by rewrite !lookup_insert_ne by done; apply lookup_insert_eq|].
    split.
    { rewrite !(lookup_insert_ne _ "distances" "cities") by done.
      by rewrite !lookup_insert_eq. }
    by rewrite Hkeys2, Hkeys.
Qed.

Lemma second_call_of_generate_instance_witness :
  (∃ m w',
     Knapsack.generate_instance (H := lcg) (negative_weight, 0%Z) = (Ret m, w') ∧
     Knapsack.generate_instance (H := lcg) (w'.1, 5%Z) = (Raise TypeError, (w'.1, 5%Z))) ∧
  (∃ m w' n m2 w2,
     TSP.generate_instance (H := lcg) (three_cities, 42%Z) = (Ret m, w') ∧
     TSP.generate_instance (H := lcg) (w'.1, 5%Z) = (Ret m2, w2) ∧
     attrs w2.1 !! "n_cities" = Some (VInt n) ∧ constrs m2 = constrs m).
Proof.
  split.
  - destruct (Knapsack.generate_instance (H := lcg) (negative_weight, 0%Z))
      as [[m| |] w'] eqn:Hgen; try (by vm_compute in Hgen).
    exists m, w'. split; [reflexivity|].
    exact (proj2 (proj1 (second_call_of_generate_instance (H := lcg)) _ _ _ _ Hgen) 5%Z).
  - destruct (TSP.generate_instance (H := lcg) (three_cities, 42%Z))
      as [[m| |] w'] eqn:Hgen; try (by vm_compute in Hgen).
    destruct (proj2 (second_call_of_generate_instance (H := lcg)) _ _ _ _ Hgen 5%Z)
      as (n & m2 & w2 & _ & Hgen2 & Hn & _ & _ & Hc).
    exists m, w', n, m2, w2. split; [reflexivity|]. split; [exact Hgen2|].
    split; [exact Hn|exact Hc].
Defined.


(** ** C7: the feasibility repair of SetCover *)

(** C7: when [generate_instance] returns, every element of the universe is
    in at least one of the sets; the constraints of the model are the
    coverage constraints of the elements, each has at least one variable on
    its left-hand side, and the assignment of 1 to every variable satisfies
    each of them. *)
Theorem setcover_repair_makes_feasible `{Random} fuel self g m w' :
  SetCover.generate_instance fuel (self, g) = (Ret m, w') →
  ∃ d w1,
    SetCover.draw_data fuel (self, g) = (Ret d, w1) ∧
    (∀ e, e ∈ SetCover.elements d → ∃ i s, (i, s) ∈ SetCover.sets d ∧ e ∈ s) ∧
    constrs m = SetCover.cover (SetCover.sets d) <$> SetCover.elements d ∧
    Forall (λ c, lhs c ≠ [] ∧ satisfies (λ _, 1%Z) c) (constrs m).
Proof.
  unfold SetCover.generate_instance. intros (d & w1 & Hd & Hb)%bind_ret.
  pose proof (SetCoverFacts.draw_data_covers _ _ _ _ _ Hd) as Hcov.
  apply SetCoverFacts.build_model_constrs in Hb.
  exists d, w1. split; [done|]. split; [|split; [done|]].
  - intros e He. apply Hcov, SetCoverFacts.covered_true, Exists_exists in He
      as ([i s] & Hin & Hes).
    by exists i, s.
  - rewrite Hb. apply Forall_fmap, Forall_forall. intros e He.
    by apply SetCoverFacts.cover_nonempty, Hcov.
Qed.

Lemma setcover_repair_makes_feasible_witness :
  ∃ m w',
    SetCover.generate_instance (H := lcg) 100 (small_cover, 42%Z) = (Ret m, w') ∧
    Forall (λ c, lhs c ≠ [] ∧ satisfies (λ _, 1%Z) c) (constrs m).
Proof.
  destruct (SetCover.generate_instance (H := lcg) 100 (small_cover, 42%Z))
    as [[m| |] w'] eqn:Hgen; try (by vm_compute in Hgen).
  exists m, w'. split; [reflexivity|].
  destruct (setcover_repair_makes_feasible (H := lcg) _ _ _ _ _ Hgen)
    as (d & w1 & _ & _ & _ & Hall).
  exact Hall.
Defined.


(** ** C8: the loop that samples the associations *)

(** C8 fails on the code: with one set, one element and a density of 1.5
    the loop asks for [int(1.5)], one pair, and returns after one
    iteration. *)
Lemma C8_counterexample :
  ¬ (terminates_up_to_one (H := lcg) ∧ never_exits_above_one (H := lcg)).
Proof.
  intros [_ Hc].
  apply (Hc (lit 3 2) 1%Z 1%Z 1%Z eq_refl eq_refl 1
            ({| attrs := ∅; seed := None |}, 0%Z)
            {[(1%Z, 1%Z)]} ({| attrs := ∅; seed := None |}, lcg_next (lcg_next 0%Z))).
  vm_compute. reflexivity.
Qed.

(** C8, amended: on every stream whose first draws bring the number of
    distinct pairs to [num], the loop returns with exactly [num] pairs;
    when [num] is positive and above [n_sets * n_elements], as it is for
    [num = int(density * n_sets * n_elements)] with a density large enough,
    the loop does not return, whatever the bound on its iterations. A
    density above 1 that [int] truncates to [n_sets * n_elements] or less
    does not prevent the exit. *)
Theorem sampling_loop_exit `{Random} (num n_sets n_elements : Z) (w : world) :
  (∀ t pairs w1,
     SetCover.drawn_pairs t n_sets n_elements ∅ w = (Ret pairs, w1) →
     Z.of_nat (size pairs) = num →
     ∃ fuel associations w',
       SetCover.sample_associations fuel num n_sets n_elements ∅ w
       = (Ret associations, w') ∧
       Z.of_nat (size associations) = num) ∧
  ((0 < num)%Z → (n_sets * n_elements < num)%Z →
   ∀ fuel associations w',
     SetCover.sample_associations fuel num n_sets n_elements ∅ w
     ≠ (Ret associations, w')).
Proof.
  split.
  - intros t pairs w1 Hd Hsize.
    apply (SetCoverFacts.sample_associations_terminates t num _ _ ∅ w pairs w1 Hd Hsize).
    rewrite size_empty. lia.
  - intros Hpos Hnum fuel.
    apply SetCoverFacts.sample_associations_never_returns.
    + intros p Hp. by apply elem_of_empty in Hp.
    + nia.
Qed.

Lemma sampling_loop_exit_witness :
  (∃ fuel associations w',
     SetCover.sample_associations (H := lcg) fuel 2 2 2 ∅
       ({| attrs := ∅; seed := None |}, 0%Z) = (Ret associations, w') ∧
     Z.of_nat (size associations) = 2%Z) ∧
  (∀ fuel associations w',
     SetCover.sample_associations (H := lcg) fuel 5 2 2 ∅
       ({| attrs := ∅; seed := None |}, 0%Z) ≠ (Ret associations, w')).
Proof.
  split.
  - destruct (SetCover.drawn_pairs (H := lcg) 3 2 2 ∅
                ({| attrs := ∅; seed := None |}, 0%Z)) as [[pairs| |] w1] eqn:Hd;
      try (by vm_compute in Hd).
    apply (proj1 (sampling_loop_exit (H := lcg) 2 2 2 _) 3 pairs w1 Hd).
    vm_compute in Hd. injection Hd as <- _. vm_compute. reflexivity.
  - apply (proj2 (sampling_loop_exit (H := lcg) 5 2 2 _)); lia.
Defined.


(** ** C10: [print_solution] *)

(** C10: whatever the model and whatever it returns or raises,
    [print_solution] of TSP and of Portfolio leaves the generator's stored
    data and the model as they were and only appends lines to standard
    output; when the status of the model is not [GRB.OPTIMAL] it prints the
    one line "No optimal solution found." and returns, having read the
    value of no variable. *)
Theorem print_solution_only_prints `{Report.Format} :
  (∀ w : Report.pworld TSPReport.data,
     Report.self (TSPReport.print_solution w).2 = Report.self w ∧
     Report.mdl (TSPReport.print_solution w).2 = Report.mdl w ∧
     (∃ out, Report.stdout (TSPReport.print_solution w).2 = Report.stdout w ++ out) ∧
     (Report.Status (Report.mdl w) ≠ Report.OPTIMAL →
      TSPReport.print_solution w
      = (Ret tt, Report.PWorld (Report.self w) (Report.mdl w)
                   (Report.stdout w ++ ["No optimal solution found."])
                   (Report.reads w)))) ∧
  (∀ w : Report.pworld PortfolioReport.data,
     Report.self (PortfolioReport.print_solution w).2 = Report.self w ∧
     Report.mdl (PortfolioReport.print_solution w).2 = Report.mdl w ∧
     (∃ out, Report.stdout (PortfolioReport.print_solution w).2 = Report.stdout w ++ out) ∧
     (Report.Status (Report.mdl w) ≠ Report.OPTIMAL →
      PortfolioReport.print_solution w
      = (Ret tt, Report.PWorld (Report.self w) (Report.mdl w)
                   (Report.stdout w ++ ["No optimal solution found."])
                   (Report.reads w)))).
Proof.
  split; intros w.
  - destruct (TSPReport.print_solution w) as [o w'] eqn:Hrun.
    destruct (ReportFacts.frames_tsp_print_solution _ _ _ Hrun) as (Hs & Hm & Hout).
    repeat split; try done.
    intros Hst. rewrite <- Hrun. by apply ReportFacts.tsp_not_optimal.
  - destruct (PortfolioReport.print_solution w) as [o w'] eqn:Hrun.
    destruct (ReportFacts.frames_portfolio_print_solution _ _ _ Hrun) as (Hs & Hm & Hout).
    repeat split; try done.
    intros Hst. rewrite <- Hrun. by apply ReportFacts.portfolio_not_optimal.
Qed.

Lemma print_solution_only_prints_witness :
  TSPReport.print_solution (Report.PWorld two_cities infeasible [] [])
  = (Ret tt, Report.PWorld two_cities infeasible ["No optimal solution found."] []) ∧
  PortfolioReport.print_solution (Report.PWorld two_assets infeasible [] [])
  = (Ret tt, Report.PWorld two_assets infeasible ["No optimal solution found."] []).
Proof.
  split.
  - apply (proj1 print_solution_only_prints (Report.PWorld two_cities infeasible [] [])).
    discriminate.
  - apply (proj2 print_solution_only_prints (Report.PWorld two_assets infeasible [] [])).
    discriminate.
Defined.


(** * Further properties of the generators *)

Import Py Init Value Gurobi Loops.
Import PyFacts InitFacts GurobiFacts LoopFacts ValueFacts.
Import Bounds.

(** ** Floats: the sign of a product *)

Module FloatFacts.
Import Py.

Lemma binary_round_aux_sign sx mx ex lx :
  match binary_round_aux prec emax sx mx ex lx with
  | S754_zero s | S754_infinity s | S754_finite s _ _ => s = sx
  | S754_nan => True
  end.
Proof.
  unfold binary_round_aux.
  destruct (shr_fexp prec emax mx ex lx) as [mrs' e'].
  destruct (shr_fexp prec emax _ e' loc_Exact) as [mrs'' e''].
  destruct (shr_m mrs''); [done| |done].
  by destruct (_ <=? _)%Z.
Qed.

Lemma float_of_int_sign n f :
  (0 ≤ n)%Z → float_of_int n = Ret f → not_negative f.
Proof.
  unfold float_of_int, binary_normalize. intros Hn.
  destruct n as [|p|p]; [by intros [= <-]| |lia].
  unfold binary_round. destruct (shl_align _ _ _) as [mz ez].
  pose proof (binary_round_aux_sign false (Z.pos mz) ez loc_Exact) as Hs.
  destruct (binary_round_aux prec emax false (Z.pos mz) ez loc_Exact);
    intros [= <-]; done.
Qed.

Lemma fle_zero_sign x : fle (S754_zero false) x = true → not_negative x.
Proof. destruct x as [s|s| |s m e]; try done; by destruct s. Qed.

Lemma fmul_sign x y : not_negative x → not_negative y → not_negative (fmul x y).
Proof.
  unfold fmul, SFmul.
  destruct x as [sx|sx| |sx mx ex], y as [sy|sy| |sy my ey]; simpl; try done;
    try (by intros -> ->); try (by intros _ ->); try (by intros -> _).
  intros -> ->.
  pose proof (binary_round_aux_sign false (Z.pos (mx * my)) (ex + ey) loc_Exact) as Hs.
  simpl. by destruct (binary_round_aux _ _ _ _ _ _).
Qed.

Lemma int_of_float_sign x K : not_negative x → int_of_float x = Ret K → (0 ≤ K)%Z.
Proof.
  destruct x as [s|s| |s m e]; simpl; try done.
  - by intros _ [= <-].
  - intros -> [= <-]. destruct (Z.leb_spec 0 e).
    + apply Z.mul_nonneg_nonneg; [lia|]. apply Z.pow_nonneg. lia.
    + apply Z.div_pos; [lia|]. apply Z.pow_pos_nonneg; lia.
Qed.

End FloatFacts.

(** ** Knapsack: failures and feasibility *)

Module KnapsackMore.
Import FloatFacts KnapsackFacts Knapsack.

Lemma sum_from (l : list Z) (z : Z) : foldl Z.add z l = (z + foldl Z.add 0 l)%Z.
Proof.
  revert z. induction l as [|a l IH]; intros z; simpl; [lia|].
  rewrite (IH (z + a)%Z), (IH (0 + a)%Z). lia.
Qed.

Lemma sum_nonneg (l : list Z) : Forall (λ v, 0 ≤ v)%Z l → (0 ≤ sum l)%Z.
Proof.
  unfold sum. induction 1 as [|a l Ha _ IH]; simpl; [done|].
  rewrite sum_from. lia.
Qed.

Lemma eval_zero (e : linexpr) : eval (λ _, 0%Z) e = 0%Z.
Proof. induction e as [|t e IH]; simpl; lia. Qed.

Lemma int_times_nonneg total ratio product K :
  (0 ≤ total)%Z → nonneg_value ratio →
  int_times total ratio = Ret product → int_of product = Ret K → (0 ≤ K)%Z.
Proof.
  intros Ht Hr. destruct ratio as [r|x| | |]; simpl in *; try done.
  - intros [= <-] [= <-]. lia.
  - destruct (float_of_int total) as [f| |] eqn:Hf; simpl; try done.
    intros [= <-]. simpl. apply int_of_float_sign, fmul_sign.
    + by eapply float_of_int_sign.
    + by apply fle_zero_sign.
Qed.

End KnapsackMore.

(** Knapsack: with weights drawn from a range that starts at 0 or above and
    a capacity ratio that is not negative, the capacity of a returned model
    is not negative, so the selection of no item satisfies its constraint
    and the bounds of its variables: the model is feasible. *)
Theorem knapsack_empty_selection_is_feasible `{Random} self g m w' lo hi ratio :
  attrs self !! "weight_range" = Some (VRange lo hi) → (0 ≤ lo)%Z →
  attrs self !! "capacity_ratio" = Some ratio → nonneg_value ratio →
  Knapsack.generate_instance (self, g) = (Ret m, w') →
  Forall (λ c, 0 ≤ rhs c)%Z (constrs m) ∧ feasible (λ _, 0%Z) m.
Proof.
  intros Hw Hlo Hr Hnn Hgen.
  apply KnapsackFacts.knapsack_generate_instance_ret in Hgen as (d & Hd & ->).
  destruct (KnapsackFacts.draw_data_ret _ _ _ _ Hd)
    as (n & ratio' & product & _ & _ & _ & _ & _ & _ & Hws & Hr' & Hp & HK).
  rewrite Hr in Hr'. injection Hr' as <-.
  assert (0 ≤ Knapsack.knapsack_capacity d)%Z as Hcap.
  { eapply KnapsackMore.int_times_nonneg; [|done|done|done].
    apply KnapsackMore.sum_nonneg, Forall_fmap, Forall_forall. intros [k v] Hkv.
    destruct (Hws k v Hkv) as (lo' & hi' & Ha & Hv).
    rewrite Hw in Ha. injection Ha as <- <-. simpl. lia. }
  split; [by repeat constructor|]. split.
  - apply Forall_fmap, Forall_forall. intros i _. unfold in_bounds. simpl. lia.
  - repeat constructor. unfold satisfies. simpl. by rewrite KnapsackMore.eval_zero.
Qed.

Lemma knapsack_empty_selection_is_feasible_witness :
  ∃ m w',
    Knapsack.generate_instance (H := lcg) (knapsack_default, 7%Z) = (Ret m, w') ∧
    feasible (λ _, 0%Z) m.
Proof.
  destruct (Knapsack.generate_instance (H := lcg) (knapsack_default, 7%Z))
    as [[m| |] w'] eqn:Hgen; try (by vm_compute in Hgen).
  exists m, w'. split; [reflexivity|].
  apply (knapsack_empty_selection_is_feasible (H := lcg) knapsack_default 7%Z m w'
           1%Z 50%Z (VFloat (lit 7 10))).
  - vm_compute. reflexivity.
  - lia.
  - vm_compute. reflexivity.
  - vm_compute. reflexivity.
  - exact Hgen.
Defined.

(** Knapsack: when the parameters hold a range of at least one item but no
    [value_range], [generate_instance] raises [AttributeError] only after
    it has replaced [n_items] by the number it drew; a second call on the
    same object then raises [TypeError]. *)
Theorem knapsack_missing_range_fails_after_the_draw `{Random} self g lo hi :
  attrs self !! "n_items" = Some (VRange lo hi) → (1 ≤ lo ≤ hi)%Z →
  attrs self !! "value_range" = None →
  ∃ n g',
    (lo ≤ n ≤ hi)%Z ∧
    Knapsack.generate_instance (self, g)
    = (Raise AttributeError, (Knapsack.drawn self n, g')) ∧
    ∀ g2, Knapsack.generate_instance (Knapsack.drawn self n, g2)
          = (Raise TypeError, (Knapsack.drawn self n, g2)).
Proof.
  intros Hn Hlo Hv.
  destruct (randint_star_total "n_items" (self, g) lo hi Hn ltac:(lia))
    as (n & [s1 g'] & Hdraw & Hs1 & Hin).
  simpl in Hs1. subst s1. exists n, g'. split; [done|]. split.
  - unfold Knapsack.generate_instance, Knapsack.draw_data, Knapsack.sample.
    do 2 apply bind_raise.
    rewrite (bind_run _ _ _ _ _ Hdraw).
    erewrite bind_run by apply setparam_run. simpl fst. simpl snd.
    fold (Knapsack.drawn self n).
    erewrite bind_run by (apply getparam_run; simpl; apply lookup_insert_eq).
    erewrite bind_run by done.
    apply bind_raise. unfold dict_comp. apply bind_raise.
    unfold range. destruct (Z.to_nat n) as [|k] eqn:Hk; [lia|].
    simpl seq. rewrite fmap_cons, for_each_cons.
    do 2 apply bind_raise. unfold randint_star. apply bind_raise.
    unfold getparam. simpl. by rewrite lookup_insert_ne, Hv.
  - intros g2.
    unfold Knapsack.generate_instance, Knapsack.draw_data, Knapsack.sample.
    do 3 apply bind_raise. unfold randint_star.
    erewrite bind_run by (apply getparam_run; simpl; apply lookup_insert_eq).
    done.
Qed.

Lemma knapsack_missing_range_fails_after_the_draw_witness :
  ∃ n g',
    Knapsack.generate_instance (H := lcg)
      ({| attrs := {["n_items" := VRange 5 5]}; seed := None |}, 0%Z)
    = (Raise AttributeError,
       (Knapsack.drawn {| attrs := {["n_items" := VRange 5 5]}; seed := None |} n, g')) ∧
    n = 5%Z.
Proof.
  destruct (knapsack_missing_range_fails_after_the_draw (H := lcg)
              {| attrs := {["n_items" := VRange 5 5]}; seed := None |} 0%Z 5 5)
    as (n & g' & Hn & Hgen & _).
  - vm_compute. reflexivity.
  - lia.
  - vm_compute. reflexivity.
  - exists n, g'. split; [exact Hgen|lia].
Defined.

(** ** TSP: the tour in the order of the cities *)

Module TourFacts.
Import TSPFacts TSP Tour.

Lemma position_city n k : k < n → position n (city k) = Some k.
Proof.
  intros Hk. unfold position.
  assert (list_find (λ k', city k' = city k) (seq 0 n) = Some (k, k)) as ->; [|done].
  apply list_find_Some. split; [by apply lookup_seq|]. split; [done|].
  intros j y Hj Hlt. apply lookup_seq in Hj as [-> _]. simpl.
  intros Heq%(numbered_inj "city_"). lia.
Qed.

Lemma tour_x n a b :
  a < n → b < n →
  tour n (x (city a) (city b)) = if decide (b = next n a) then 1%Z else 0%Z.
Proof.
  intros Ha Hb. unfold tour, x. cbn [key family].
  rewrite decide_True by done. by rewrite !position_city by done.
Qed.

Lemma tour_u n a : a < n → tour n (u (city a)) = Z.of_nat a.
Proof.
  intros Ha. unfold tour, u. cbn [key family].
  rewrite decide_True by done. by rewrite position_city by done.
Qed.

Lemma tour_route_binary n i j : (0 ≤ tour n (x i j) ≤ 1)%Z.
Proof.
  unfold tour, x. cbn [key family]. destruct (decide _); [|lia].
  destruct (position n i), (position n j); try lia. destruct (decide _); lia.
Qed.

Lemma tour_nonneg n v : (0 ≤ tour n v)%Z.
Proof.
  unfold tour. destruct (key v) as [|i [|j [|]]]; try lia.
  - destruct (decide _); [|lia]. destruct (position n i); lia.
  - destruct (decide _); [|lia].
    destruct (position n i), (position n j); try lia. destruct (decide _); lia.
Qed.

Lemma eval_units_zero {A} (a : var → Z) (g : A → var) (l : list A) :
  (∀ i, i ∈ l → a (g i) = 0%Z) → eval a ((λ i, (1%Z, g i)) <$> l) = 0%Z.
Proof.
  induction l as [|i l IH]; intros Hz; [done|]. rewrite fmap_cons. simpl.
  rewrite (Hz i) by apply list_elem_of_here.
  rewrite IH; [lia|]. intros i' Hi'. by apply Hz, list_elem_of_further.
Qed.

(** A sum of variables of which one is 1 and the others are 0. *)
Lemma eval_units_single {A} (a : var → Z) (g : A → var) (l : list A) i0 :
  NoDup l → i0 ∈ l → a (g i0) = 1%Z →
  (∀ i, i ∈ l → i ≠ i0 → a (g i) = 0%Z) →
  eval a ((λ i, (1%Z, g i)) <$> l) = 1%Z.
Proof.
  induction l as [|i l IH]; intros Hnd Hin H1 H0; [by apply elem_of_nil in Hin|].
  apply NoDup_cons in Hnd as [Hi Hnd]. rewrite fmap_cons. simpl.
  apply elem_of_cons in Hin as [<-|Hin].
  - rewrite H1, eval_units_zero; [lia|].
    intros i Hil. apply H0; [by apply list_elem_of_further|]. by intros ->.
  - rewrite (H0 i); [|apply list_elem_of_here|by intros ->].
    rewrite IH; [lia|done|done|done|].
    intros i' Hi'. by apply H0, list_elem_of_further.
Qed.

(** The city before city [k] of [n]. *)
Lemma next_inv n a b :
  a < n → b < n → (b = next n a ↔ a = if decide (b = 0) then n - 1 else b - 1).
Proof.
  intros Ha Hb. unfold next.
  destruct (decide (S a = n)), (decide (b = 0)); lia.
Qed.

Lemma elem_of_cities n c : c ∈ city <$> seq 0 n ↔ ∃ k, c = city k ∧ k < n.
Proof.
  rewrite list_elem_of_fmap. split.
  - intros (k & -> & Hk%elem_of_seq). exists k. split; [done|lia].
  - intros (k & -> & Hk). exists k. split; [done|]. apply elem_of_seq. lia.
Qed.

Lemma cities_NoDup_seq n : NoDup (city <$> seq 0 n).
Proof. apply (numbered_NoDup "city_"), NoDup_seq. Qed.

Lemma visit_tour n b :
  2 ≤ n → b < n → satisfies (tour n) (visit (city <$> seq 0 n) (city b)).
Proof.
  intros Hn Hb. unfold satisfies, visit. simpl.
  set (p := if decide (b = 0) then n - 1 else b - 1).
  assert (p < n ∧ p ≠ b) as [Hp Hpb] by (unfold p; destruct (decide (b = 0)); lia).
  apply (eval_units_single _ (λ i, x i (city b)) _ (city p)).
  - apply NoDup_filter, cities_NoDup_seq.
  - apply list_elem_of_filter. split.
    + intros Heq%(numbered_inj "city_"). done.
    + apply elem_of_cities. by exists p.
  - rewrite tour_x by done. rewrite decide_True; [done|]. by apply next_inv.
  - intros i [_ (a & -> & Ha)%elem_of_cities]%list_elem_of_filter Hne.
    rewrite tour_x by done. rewrite decide_False; [done|].
    intros Hnext%next_inv; [|done|done]. apply Hne. by rewrite Hnext.
Qed.

Lemma depart_tour n a :
  2 ≤ n → a < n → satisfies (tour n) (depart (city <$> seq 0 n) (city a)).
Proof.
  intros Hn Ha. unfold satisfies, depart. simpl.
  assert (next n a < n ∧ next n a ≠ a) as [Hp Hpa]
    by (unfold next; destruct (decide (S a = n)); lia).
  apply (eval_units_single _ (λ j, x (city a) j) _ (city (next n a))).
  - apply NoDup_filter, cities_NoDup_seq.
  - apply list_elem_of_filter. split.
    + intros Heq%(numbered_inj "city_"). done.
    + apply elem_of_cities. by exists (next n a).
  - rewrite tour_x by done. by rewrite decide_True.
  - intros j [_ (b & -> & Hb)%elem_of_cities]%list_elem_of_filter Hne.
    rewrite tour_x by done. rewrite decide_False; [done|]. by intros ->.
Qed.

Lemma head_cities_seq n : 0 < n → head (city <$> seq 0 n) = Some (city 0).
Proof. by destruct n; [lia|]. Qed.

Lemma bounds_tour n :
  0 < n → Forall (satisfies (tour n)) (bounds_of (city <$> seq 0 n)).
Proof.
  intros Hn. unfold bounds_of. apply Forall_concat, Forall_fmap, Forall_forall.
  intros i (a & -> & Ha)%elem_of_cities. simpl.
  destruct (decide _); [|constructor].
  rewrite length_fmap, length_seq.
  repeat constructor; unfold satisfies; simpl; rewrite tour_u by done; lia.
Qed.

Lemma subtours_tour n :
  0 < n →
  Forall (satisfies (tour n))
    (subtours_of (city <$> seq 0 n) (arcs (city <$> seq 0 n))).
Proof.
  intros Hn. unfold subtours_of. apply Forall_concat, Forall_fmap, Forall_forall.
  intros [i j] (Hi & Hj & Hij)%arcs_elem.
  apply elem_of_cities in Hi as (a & -> & Ha).
  apply elem_of_cities in Hj as (b & -> & Hb). simpl.
  rewrite head_cities_seq by done.
  destruct (decide _) as [[Ha0 Hb0]|]; [|constructor].
  assert (a ≠ 0 ∧ b ≠ 0 ∧ a ≠ b) as (Ha' & Hb' & Hab).
  { repeat split; intros ->; done. }
  rewrite length_fmap, length_seq.
  repeat constructor. unfold satisfies. simpl.
  rewrite !tour_u, tour_x by done.
  destruct (decide (b = next n a)) as [Hnext|]; [|lia].
  unfold next in Hnext. destruct (decide (S a = n)); lia.
Qed.

End TourFacts.

(** TSP: a returned model of two cities or more is feasible. The tour that
    visits the cities in the order of their numbers and comes back to the
    first, with [u] the number of the city, satisfies the bounds of the
    variables and every constraint. *)
Theorem tsp_model_is_feasible `{Random} self g m w' n :
  TSP.generate_instance (self, g) = (Ret m, w') →
  attrs w'.1 !! "n_cities" = Some (VInt n) → (2 ≤ n)%Z →
  feasible (Tour.tour (Z.to_nat n)) m.
Proof.
  intros Hgen Hn Hle.
  apply TSPFacts.tsp_generate_instance_ret in Hgen as (n0 & ds & _ & Hkeys & _ & Hw & ->).
  rewrite Hw in Hn. simpl in Hn. rewrite !lookup_insert_ne in Hn by done.
  rewrite lookup_insert_eq in Hn. injection Hn as ->.
  unfold range in *. set (k := Z.to_nat n) in *.
  assert (2 ≤ k) as Hk by lia.
  split; simpl.
  - apply Forall_app. split.
    + apply Forall_fmap, Forall_forall. intros [i j] _.
      unfold in_bounds. simpl. apply TourFacts.tour_route_binary.
    + apply Forall_fmap, Forall_forall. intros c _.
      unfold in_bounds. simpl. apply TourFacts.tour_nonneg.
  - rewrite Hkeys. repeat (apply Forall_app; split).
    + apply Forall_fmap, Forall_forall.
      intros j (b & -> & Hb)%TourFacts.elem_of_cities. by apply TourFacts.visit_tour.
    + apply Forall_fmap, Forall_forall.
      intros i (a & -> & Ha)%TourFacts.elem_of_cities. by apply TourFacts.depart_tour.
    + apply TourFacts.bounds_tour. lia.
    + apply TourFacts.subtours_tour. lia.
Qed.

Lemma tsp_model_is_feasible_witness :
  ∃ m w',
    TSP.generate_instance (H := lcg) (three_cities, 42%Z) = (Ret m, w') ∧
    feasible (Tour.tour 3) m.
Proof.
  destruct (TSP.generate_instance (H := lcg) (three_cities, 42%Z))
    as [[m| |] w'] eqn:Hgen; try (by vm_compute in Hgen).
  exists m, w'. split; [reflexivity|].
  apply (tsp_model_is_feasible (H := lcg) three_cities 42%Z m w' 3%Z Hgen); [|lia].
  assert (attrs (TSP.generate_instance (H := lcg) (three_cities, 42%Z)).2.1 !! "n_cities"
          = Some (VInt 3)) as Hw by (vm_compute; reflexivity).
  rewrite Hgen in Hw. exact Hw.
Defined.

(** TSP: a returned model of one city is infeasible. Its constraint
    [visit_city_0] is a sum of no variable set equal to 1, which no
    assignment satisfies. *)
Theorem tsp_single_city_is_infeasible `{Random} self g m w' :
  TSP.generate_instance (self, g) = (Ret m, w') →
  attrs w'.1 !! "n_cities" = Some (VInt 1) →
  Constr [] EQUAL 1 (Some "visit_city_0") ∈ constrs m ∧
  ∀ a, ¬ Forall (satisfies a) (constrs m).
Proof.
  intros Hgen Hn.
  apply TSPFacts.tsp_generate_instance_ret in Hgen as (n0 & ds & _ & Hkeys & _ & Hw & ->).
  rewrite Hw in Hn. simpl in Hn. rewrite !lookup_insert_ne in Hn by done.
  rewrite lookup_insert_eq in Hn. injection Hn as ->.
  assert (Constr [] EQUAL 1 (Some "visit_city_0")
          ∈ constrs (TSP.model_of (TSP.city <$> range 1) ds)) as Hin.
  { simpl.
    assert (TSP.visit [TSP.city 0] (TSP.city 0)
            = Constr [] EQUAL 1 (Some "visit_city_0")) as ->
      by (vm_compute; reflexivity).
    apply list_elem_of_here. }
  split; [done|]. intros a Hall.
  rewrite Forall_forall in Hall. by specialize (Hall _ Hin).
Qed.

Lemma tsp_single_city_is_infeasible_witness :
  ∃ m w',
    TSP.generate_instance (H := lcg)
      ({| attrs := list_to_map [("n_cities", VRange 1 1); ("distance_range", VRange 10 20)];
          seed := None |}, 42%Z) = (Ret m, w') ∧
    ∀ a, ¬ Forall (satisfies a) (constrs m).
Proof.
  destruct (TSP.generate_instance (H := lcg)
      ({| attrs := list_to_map [("n_cities", VRange 1 1); ("distance_range", VRange 10 20)];
          seed := None |}, 42%Z)) as [[m| |] w'] eqn:Hgen; try (by vm_compute in Hgen).
  exists m, w'. split; [reflexivity|].
  refine (proj2 (tsp_single_city_is_infeasible (H := lcg) _ _ m w' Hgen _)).
  match type of Hgen with ?run = _ =>
    assert (attrs run.2.1 !! "n_cities" = Some (VInt 1)) as Hw by (vm_compute; reflexivity)
  end.
  rewrite Hgen in Hw. exact Hw.
Defined.

(** ** SetCover: the sets and the repair *)

Module SetCoverMore.
Import SetCoverFacts SetCover.

Section dict.
Context {K : Type} `{EqDecision K} {V : Type}.

Lemma dict_set_keys (d : list (K * V)) k v v' :
  dict_lookup d k = Some v → (dict_set d k v').*1 = d.*1.
Proof.
  induction d as [|[k0 v0] d IH]; [done|]. simpl.
  destruct (decide (k0 = k)) as [->|Hne]; [done|].
  intros Hl. rewrite !fmap_cons. simpl. f_equal. by apply IH.
Qed.

(** An assignment to an existing key changes the one entry of the key. *)
Lemma dict_set_Forall2 (R : K * V → K * V → Prop) (d : list (K * V)) k v v' :
  dict_lookup d k = Some v → (∀ kv, R kv kv) → R (k, v) (k, v') →
  Forall2 R d (dict_set d k v').
Proof.
  intros Hl Hrefl Hk. induction d as [|[k0 v0] d IH]; [done|]. simpl in *.
  destruct (decide (k0 = k)) as [->|Hne].
  - injection Hl as ->. constructor; [done|]. by apply Forall_Forall2_diag, Forall_forall.
  - constructor; [done|]. by apply IH.
Qed.

End dict.

Import Repair.

Lemma extends_refl added kv : extends added kv kv.
Proof. split; [done|]. split; [done|]. by left. Qed.

Lemma extends_trans added1 added2 a b c :
  added1 ⊆ added2 → extends added1 a b → extends added2 b c → extends added2 a c.
Proof.
  intros Hsub (Hk1 & Hs1 & Ha1) (Hk2 & Hs2 & Ha2).
  split; [congruence|]. split; [set_solver|].
  intros e [He|He]%Ha2; [|by right]. destruct (Ha1 e He); [by left|right; by apply Hsub].
Qed.

Lemma Forall2_extends_trans added1 added2 l1 l2 l3 :
  added1 ⊆ added2 →
  Forall2 (extends added1) l1 l2 → Forall2 (extends added2) l2 l3 →
  Forall2 (extends added2) l1 l3.
Proof.
  intros Hsub H12. revert l3. induction H12 as [|a b l1 l2 Hab _ IH]; intros l3 H23.
  - by apply Forall2_nil_inv_l in H23 as ->.
  - apply Forall2_cons_inv_l in H23 as (c & l3' & Hbc & H23 & ->).
    constructor; [by eapply extends_trans|by apply IH].
Qed.

Lemma add_to_extends {S} (sets : list (Z * gset string)) i e (w : S) sets' w' :
  add_to sets i e w = (Ret sets', w') →
  w' = w ∧ Forall2 (extends [e]) sets sets'.
Proof.
  unfold add_to, dict_get. destruct (dict_lookup sets i) as [s|] eqn:Hget; [|done].
  intros [= <- <-]. split; [done|].
  apply (dict_set_Forall2 _ _ _ s); [done|apply extends_refl|].
  split; [done|]. simpl. split; [set_solver|].
  intros e' [->%elem_of_singleton|He']%elem_of_union; [right; apply list_elem_of_here|by left].
Qed.

Section repair.
Context `{Random}.

Lemma ensure_feasibility_extends elements sets (w : world) sets' w' :
  ensure_feasibility elements sets w = (Ret sets', w') →
  Forall2 (extends elements) sets sets'.
Proof.
  unfold ensure_feasibility. revert sets w.
  induction elements as [|e0 es IH]; intros sets w Hrun.
  - injection Hrun as <- <-. apply Forall_Forall2_diag, Forall_forall.
    intros kv _. apply extends_refl.
  - simpl in Hrun. apply bind_ret in Hrun as (sets1 & w1 & Hbody & Hrest).
    apply IH in Hrest.
    assert (Forall2 (extends [e0]) sets sets1) as H1.
    { destruct (covered sets e0).
      - injection Hbody as <- <-. apply Forall_Forall2_diag, Forall_forall.
        intros kv _. apply extends_refl.
      - apply bind_ret in Hbody as (rs & w2 & _ & Hadd).
        by apply add_to_extends in Hadd as [_ ?]. }
    apply (Forall2_extends_trans [e0] (e0 :: es) sets sets1 sets').
    + intros e ->%list_elem_of_singleton. apply list_elem_of_here.
    + done.
    + eapply Forall2_impl; [done|]. intros a b (Hk & Hs & Ha).
      split; [done|]. split; [done|]. intros e He.
      destruct (Ha e He); [by left|right; by apply list_elem_of_further].
Qed.

Lemma ensure_feasibility_covered elements sets (w : world) :
  (∀ e, e ∈ elements → covered sets e = true) →
  ensure_feasibility elements sets w = (Ret sets, w).
Proof.
  unfold ensure_feasibility. induction elements as [|e0 es IH]; intros Hcov; [done|].
  simpl. rewrite (Hcov e0) by apply list_elem_of_here.
  erewrite bind_run by done. apply IH. intros e He. by apply Hcov, list_elem_of_further.
Qed.

End repair.

Lemma Forall2_extends_keys added l1 l2 :
  Forall2 (extends added) l1 l2 → l2.*1 = l1.*1.
Proof.
  induction 1 as [|a b l1 l2 (Hk & _) _ IH]; [done|].
  rewrite !fmap_cons. by f_equal.
Qed.

Lemma Forall2_extends_members (added universe : list string) l1 l2 :
  (∀ e, e ∈ added → e ∈ universe) →
  Forall (λ kv : Z * gset string, ∀ e, e ∈ kv.2 → e ∈ universe) l1 →
  Forall2 (extends added) l1 l2 →
  Forall (λ kv : Z * gset string, ∀ e, e ∈ kv.2 → e ∈ universe) l2.
Proof.
  intros Hadd Hall H12. induction H12 as [|a b l1 l2 (_ & _ & Hb) _ IH]; [constructor|].
  apply Forall_cons in Hall as [Ha Hall]. constructor; [|by apply IH].
  intros e [He|He]%Hb; [by apply Ha|by apply Hadd].
Qed.

Lemma build_sets_ret {S} (l : list (Z * Z)) sets (w : S) sets' w' :
  fold_for (λ sets ij, add_to sets ij.1 (element ij.2)) l sets w = (Ret sets', w') →
  w' = w ∧ Forall2 (extends ((λ ij, element ij.2) <$> l)) sets sets'.
Proof.
  revert sets. induction l as [|ij l IH]; intros sets Hrun.
  - injection Hrun as <- <-. split; [done|].
    apply Forall_Forall2_diag, Forall_forall. intros kv _. apply extends_refl.
  - simpl in Hrun. apply bind_ret in Hrun as (sets1 & w1 & Hadd & Hrest).
    apply add_to_extends in Hadd as [-> H1]. apply IH in Hrest as [-> H2].
    split; [done|]. rewrite fmap_cons.
    apply (Forall2_extends_trans [element ij.2] _ sets sets1 sets').
    + intros e ->%list_elem_of_singleton. apply list_elem_of_here.
    + done.
    + eapply Forall2_impl; [done|]. intros a b (Hk & Hs & Ha).
      split; [done|]. split; [done|]. intros e He.
      destruct (Ha e He); [by left|right; by apply list_elem_of_further].
Qed.

Lemma range2_NoDup a b : NoDup (range2 a b).
Proof.
  unfold range2. apply NoDup_fmap_2; [|apply NoDup_seq]. intros x y ?. lia.
Qed.

Section draw.
Context `{Random}.

Lemma sample_associations_ret fuel num n k acc (w : world) assoc w' :
  sample_associations fuel num n k acc w = (Ret assoc, w') →
  w'.1 = w.1 ∧ ∀ p, p ∈ assoc → p ∈ acc ∨ p ∈ all_pairs n k.
Proof.
  revert acc w. induction fuel as [|fuel IH]; intros acc w; simpl.
  - destruct (decide _); [done|]. intros [= <- <-]. split; [done|]. by left.
  - destruct (decide _).
    + intros (i & w1 & Hi & Hrest)%bind_ret.
      apply bind_ret in Hrest as (j & w2 & Hj & Hrest).
      apply random_randint_ret in Hi as [Hw1 Hi].
      apply random_randint_ret in Hj as [Hw2 Hj].
      apply IH in Hrest as [Hw' Hsub]. split; [congruence|].
      intros p [[->%elem_of_singleton|Hp]%elem_of_union|Hp]%Hsub; [right|by left|by right].
      by apply all_pairs_elem.
    + intros [= <- <-]. split; [done|]. by left.
Qed.

(** What a returning [draw_data] has drawn. *)
Lemma draw_data_shape fuel self g d w' :
  draw_data fuel (self, g) = (Ret d, w') →
  ∃ n k,
    within self "n_sets" n ∧ within self "n_elements" k ∧
    attrs w'.1 = <["n_elements" := VInt k]> (<["n_sets" := VInt n]> (attrs self)) ∧
    elements d = element <$> range2 1 (k + 1) ∧
    (sets d).*1 = range2 1 (n + 1) ∧
    Forall (λ kv, ∀ e, e ∈ kv.2 → e ∈ elements d) (sets d) ∧
    (costs d).*1 = range2 1 (n + 1) ∧
    ∀ i c, (i, c) ∈ costs d → within self "cost_range" c.
Proof.
  unfold draw_data.
  intros (n & w1 & Hn & Hrest)%bind_ret.
  apply randint_star_ret in Hn as [Hw1 Hn]. simpl in Hw1, Hn.
  apply bind_ret in Hrest as ([] & w2 & Hset & Hrest).
  rewrite setparam_run in Hset. injection Hset as <-.
  apply bind_ret in Hrest as (k & w3 & Hk & Hrest).
  apply randint_star_ret in Hk as [Hw3 Hk]. simpl in Hw3, Hk.
  rewrite lookup_insert_ne in Hk by done. rewrite Hw1 in Hk.
  apply bind_ret in Hrest as ([] & w4 & Hset & Hrest).
  rewrite setparam_run in Hset. injection Hset as <-.
  apply bind_ret in Hrest as (density & w5 & Hdens & Hrest).
  apply getparam_ret in Hdens as [-> _].
  apply bind_ret in Hrest as (num & w6 & Hnum & Hrest).
  apply KnapsackFacts.lift_ret in Hnum as [_ ->].
  apply bind_ret in Hrest as (assoc & w7 & Hloop & Hrest).
  apply sample_associations_ret in Hloop as [Hw7 Hsub].
  apply bind_ret in Hrest as (sets1 & w8 & Hbuild & Hrest).
  apply build_sets_ret in Hbuild as [-> Hext1].
  apply bind_ret in Hrest as (cs & w9 & Hcosts & Hrest).
  apply dict_comp_randint_ret in Hcosts as (Hw9 & Hckeys & Hcin);
    [|apply range2_NoDup].
  apply bind_ret in Hrest as (sets2 & w10 & Hrep & Hrest).
  injection Hrest as <- <-. simpl.
  assert (w10.1 = w9.1) as Hw10.
  { clear -Hrep. unfold ensure_feasibility in Hrep.
    revert sets1 w9 Hrep. generalize (element <$> range2 1 (k + 1)).
    induction l as [|e0 es IH]; intros sets1 w9 Hrep.
    - by injection Hrep as <- <-.
    - simpl in Hrep. apply bind_ret in Hrep as (s1 & wa & Hbody & Hrest).
      apply IH in Hrest. rewrite Hrest.
      destruct (covered sets1 e0); [by injection Hbody as <- <-|].
      apply bind_ret in Hbody as (rs & wb & Hc & Hadd).
      apply add_to_ret in Hadd as [-> _].
      unfold random_choice in Hc. destruct (choice _ _) as [o g']. by injection Hc as _ <-. }
  apply ensure_feasibility_extends in Hrep as Hext2.
  exists n, k. split; [exact Hn|]. split; [exact Hk|].
  split.
  { rewrite Hw10, Hw9, Hw7. simpl. rewrite Hw3. simpl. by rewrite Hw1. }
  split; [done|]. split.
  { rewrite (Forall2_extends_keys _ _ _ Hext2), (Forall2_extends_keys _ _ _ Hext1).
    by rewrite <- list_fmap_compose, list_fmap_id. }
  split.
  { eapply Forall2_extends_members; [| |done]; [done|].
    eapply Forall2_extends_members; [| |done].
    - intros e ([i j] & -> & Hij%elem_of_elements)%list_elem_of_fmap. simpl.
      destruct (Hsub _ Hij) as [Hnil|Hall]; [by apply elem_of_empty in Hnil|].
      apply all_pairs_elem in Hall as [_ Hj].
      apply list_elem_of_fmap. exists j. split; [done|]. apply range2_elem. lia.
    - apply Forall_fmap, Forall_forall. intros i _ e He. by apply elem_of_empty in He. }
  split; [done|].
  intros i c Hic. destruct (Hcin i c Hic) as (lo & hi & Ha & Hc).
  rewrite Hw7 in Ha. simpl in Ha. rewrite Hw3 in Ha. simpl in Ha.
  rewrite !lookup_insert_ne in Ha by done. rewrite Hw1 in Ha. by exists lo, hi.
Qed.

Lemma multiplicity_covered sets e :
  covered sets e = false ↔ multiplicity sets e = 0.
Proof.
  unfold covered, multiplicity. rewrite bool_decide_eq_false.
  induction sets as [|kv sets IH]; [split; [done|by intros _ ?%Exists_nil]|].
  rewrite filter_cons, Exists_cons. destruct (decide (e ∈ kv.2)); simpl; [|tauto].
  split; [tauto|lia].
Qed.

Lemma multiplicity_dict_set sets i s e e' :
  dict_lookup sets i = Some s → e ∉ s →
  multiplicity (dict_set sets i ({[e]} ∪ s)) e'
  = if decide (e' = e) then S (multiplicity sets e') else multiplicity sets e'.
Proof.
  unfold multiplicity. intros Hget Hes.
  induction sets as [|[k v] sets IH]; [done|]. simpl in *.
  destruct (decide (k = i)) as [->|Hne].
  - injection Hget as ->. rewrite !filter_cons. simpl.
    destruct (decide (e' = e)) as [->|Hne].
    + rewrite decide_True by (apply elem_of_union; left; by apply elem_of_singleton).
      by rewrite decide_False.
    + destruct (decide (e' ∈ s)).
      * by rewrite decide_True by (apply elem_of_union; by right).
      * by rewrite decide_False
          by (intros [?%elem_of_singleton|?]%elem_of_union; done).
  - rewrite !filter_cons. simpl. specialize (IH Hget).
    destruct (decide (e' ∈ v)); simpl; rewrite IH; by destruct (decide (e' = e)).
Qed.

Lemma multiplicity_lookup sets i s e :
  multiplicity sets e = 0 → dict_lookup sets i = Some s → e ∉ s.
Proof.
  unfold multiplicity. induction sets as [|[k v] sets IH]; [done|]. simpl.
  rewrite filter_cons. simpl. destruct (decide (e ∈ v)); [done|].
  destruct (decide (k = i)); [by intros _ [= <-]|]. apply IH.
Qed.

(** From sets that hold none of the elements, the repair puts every
    element into exactly one set. *)
Lemma ensure_feasibility_once elements sets (w : world) sets' w' :
  NoDup elements → (∀ e, e ∈ elements → multiplicity sets e = 0) →
  ensure_feasibility elements sets w = (Ret sets', w') →
  (∀ e, e ∈ elements → multiplicity sets' e = 1) ∧
  (∀ e, e ∉ elements → multiplicity sets' e = multiplicity sets e).
Proof.
  unfold ensure_feasibility. revert sets w.
  induction elements as [|e0 es IH]; intros sets w Hnd Hzero Hrun.
  - injection Hrun as <- <-. split; [by intros e ?%elem_of_nil|done].
  - apply NoDup_cons in Hnd as [He0 Hnd]. simpl in Hrun.
    apply bind_ret in Hrun as (sets1 & w1 & Hbody & Hrest).
    assert (multiplicity sets e0 = 0) as Hz0 by apply Hzero, list_elem_of_here.
    rewrite (proj2 (multiplicity_covered sets e0) Hz0) in Hbody.
    apply bind_ret in Hbody as (i & w2 & _ & Hadd).
    unfold add_to, dict_get in Hadd.
    destruct (dict_lookup sets i) as [s|] eqn:Hget; [|done].
    injection Hadd as <- <-.
    pose proof (multiplicity_lookup _ _ _ _ Hz0 Hget) as Hes.
    apply IH in Hrest as [Hone Hsame]; [|done|].
    + split.
      * intros e [->|He]%elem_of_cons; [|by apply Hone].
        rewrite Hsame by done. rewrite multiplicity_dict_set by done.
        rewrite decide_True by done. by rewrite Hz0.
      * intros e [Hne He]%not_elem_of_cons. rewrite Hsame by done.
        rewrite multiplicity_dict_set by done. by rewrite decide_False.
    + intros e He. rewrite multiplicity_dict_set by done.
      rewrite decide_False by (by intros ->). by apply Hzero, list_elem_of_further.
Qed.

Lemma num_associations_zero density total num :
  zero_value density → num_associations density total = Ret num → num = 0%Z.
Proof.
  unfold num_associations. destruct density as [r|[s|s| |s m e]| | |]; try done; simpl.
  - intros -> [= <-]. lia.
  - intros _. destruct (float_of_int total) as [f| |]; simpl; try done.
    destruct f as [s'|s'| |s' m' e']; simpl; try done; by intros [= <-].
Qed.

Lemma elements_NoDup a b : NoDup (element <$> range2 a b).
Proof.
  apply NoDup_fmap_2; [|apply range2_NoDup].
  intros i j Heq. apply (inj (String.app "e")) in Heq. by apply (inj pretty).
Qed.

Lemma multiplicity_empty (keys : list Z) e :
  multiplicity ((λ i, (i, ∅ : gset string)) <$> keys) e = 0.
Proof.
  unfold multiplicity. induction keys as [|i keys IH]; [done|].
  rewrite fmap_cons, filter_cons. simpl.
  by rewrite decide_False by apply not_elem_of_empty.
Qed.

(** With a density of zero no association is drawn, and the sets are what
    the repair makes of empty sets. *)
Lemma draw_data_zero_density fuel self g d w' density :
  attrs self !! "density" = Some density → zero_value density →
  draw_data fuel (self, g) = (Ret d, w') →
  ∀ e, e ∈ elements d → multiplicity (sets d) e = 1.
Proof.
  intros Hdens Hzero. unfold draw_data.
  intros (n & w1 & Hn & Hrest)%bind_ret.
  apply randint_star_ret in Hn as [Hw1 _]. simpl in Hw1.
  apply bind_ret in Hrest as ([] & w2 & Hset & Hrest).
  rewrite setparam_run in Hset. injection Hset as <-.
  apply bind_ret in Hrest as (k & w3 & Hk & Hrest).
  apply randint_star_ret in Hk as [Hw3 _]. simpl in Hw3.
  apply bind_ret in Hrest as ([] & w4 & Hset & Hrest).
  rewrite setparam_run in Hset. injection Hset as <-.
  apply bind_ret in Hrest as (density' & w5 & Hget & Hrest).
  apply getparam_ret in Hget as [-> Hget]. simpl in Hget.
  rewrite Hw3 in Hget. simpl in Hget. rewrite !lookup_insert_ne in Hget by done.
  rewrite Hw1, Hdens in Hget. injection Hget as <-.
  apply bind_ret in Hrest as (num & w6 & Hnum & Hrest).
  apply KnapsackFacts.lift_ret in Hnum as [Hnum ->].
  apply num_associations_zero in Hnum as ->; [|done].
  apply bind_ret in Hrest as (assoc & w7 & Hloop & Hrest).
  assert (assoc = ∅) as ->.
  { destruct fuel; cbn [sample_associations] in Hloop;
      rewrite decide_False in Hloop by (rewrite size_empty; lia);
      by injection Hloop as <- _. }
  rewrite elements_empty in Hrest.
  apply bind_ret in Hrest as (sets1 & w8 & Hbuild & Hrest).
  injection Hbuild as <- <-.
  apply bind_ret in Hrest as (cs & w9 & _ & Hrest).
  apply bind_ret in Hrest as (sets2 & w10 & Hrep & Hrest).
  injection Hrest as <- <-. simpl.
  apply ensure_feasibility_once in Hrep as [Hone _]; [done|apply elements_NoDup|].
  intros e _. apply multiplicity_empty.
Qed.

(** The model is built from the data without a failure and without a
    change of the state. *)
Lemma setcover_build_model_run fuel self g d w1 :
  draw_data fuel (self, g) = (Ret d, w1) →
  build_model d w1
  = (Ret (addConstrs (cover (sets d)) (elements d)
            (setObjective ((λ ic, (ic.2, x ic.1)) <$> costs d) MINIMIZE
               (addVars ((λ i : Z, [pretty i]) <$> (sets d).*1) BINARY "Selected"
                  (new_model "SetCovering")))), w1).
Proof.
  intros Hd.
  destruct (draw_data_shape _ _ _ _ _ Hd)
    as (n & k & _ & _ & _ & _ & Hkeys & _ & Hckeys & _).
  unfold build_model. rewrite Hkeys, <- Hckeys.
  erewrite bind_run; last first.
  { apply (for_each_dict_get (costs d) (λ i c, (c, x i))).
    rewrite Hckeys. apply range2_NoDup. }
  done.
Qed.

End draw.

End SetCoverMore.

(** SetCover: the feasibility repair only adds. Every set keeps its key and
    its members, and what it gains is an element of the universe; when
    every element is covered already, the sets stay as they are and no
    random number is drawn. *)
Theorem setcover_repair_only_adds `{Random} elements sets (w : world) :
  (∀ sets' w', SetCover.ensure_feasibility elements sets w = (Ret sets', w') →
     Forall2 (Repair.extends elements) sets sets') ∧
  ((∀ e, e ∈ elements → SetCover.covered sets e = true) →
     SetCover.ensure_feasibility elements sets w = (Ret sets, w)).
Proof.
  split.
  - intros sets' w'. apply SetCoverMore.ensure_feasibility_extends.
  - apply SetCoverMore.ensure_feasibility_covered.
Qed.

Lemma setcover_repair_only_adds_witness :
  ∃ sets' w',
    SetCover.ensure_feasibility (H := lcg) ["e1"; "e2"]
      [(1%Z, {["e1"]}); (2%Z, ∅)] (small_cover, 42%Z) = (Ret sets', w') ∧
    Forall2 (Repair.extends ["e1"; "e2"]) [(1%Z, {["e1"]}); (2%Z, ∅)] sets' ∧
    SetCover.ensure_feasibility (H := lcg) ["e1"]
      [(1%Z, {["e1"]}); (2%Z, ∅)] (small_cover, 42%Z)
    = (Ret [(1%Z, {["e1"]}); (2%Z, ∅)], (small_cover, 42%Z)).
Proof.
  destruct (SetCover.ensure_feasibility (H := lcg) ["e1"; "e2"]
              [(1%Z, {["e1"]}); (2%Z, ∅)] (small_cover, 42%Z))
    as [[sets'| |] w'] eqn:Hrun; try (by vm_compute in Hrun).
  exists sets', w'. split; [reflexivity|]. split.
  - exact (proj1 (setcover_repair_only_adds (H := lcg) _ _ _) sets' w' Hrun).
  - apply (proj2 (setcover_repair_only_adds (H := lcg) ["e1"]
                    [(1%Z, {["e1"]}); (2%Z, ∅)] (small_cover, 42%Z))).
    intros e ->%list_elem_of_singleton. apply SetCoverFacts.covered_true.
    apply Exists_cons_hd. simpl. by apply elem_of_singleton.
Defined.

(** SetCover: the model of a returning [generate_instance]. The sets are
    numbered from 1 to the drawn [n_sets] and hold only elements of the
    universe [e1 .. e<n_elements>]; there is one binary variable per set,
    in the order of the numbers, the objective minimises the sum of
    [costs[i] * x[i]] with every cost drawn from [cost_range], and there
    is one constraint per element. *)
Theorem setcover_model_shape `{Random} fuel self g m w' :
  SetCover.generate_instance fuel (self, g) = (Ret m, w') →
  ∃ n k d,
    within self "n_sets" n ∧ within self "n_elements" k ∧
    SetCover.draw_data fuel (self, g) = (Ret d, w') ∧
    SetCover.elements d = SetCover.element <$> range2 1 (k + 1) ∧
    (SetCover.sets d).*1 = range2 1 (n + 1) ∧
    Forall (λ kv, ∀ e, e ∈ kv.2 → e ∈ SetCover.elements d) (SetCover.sets d) ∧
    vars m = (λ i, (SetCover.x i, BINARY)) <$> range2 1 (n + 1) ∧
    model_sense m = MINIMIZE ∧
    objective m = (λ ic, (ic.2, SetCover.x ic.1)) <$> SetCover.costs d ∧
    (SetCover.costs d).*1 = range2 1 (n + 1) ∧
    Forall (λ ic, within self "cost_range" ic.2) (SetCover.costs d) ∧
    length (constrs m) = length (SetCover.elements d).
Proof.
  unfold SetCover.generate_instance. intros (d & w1 & Hd & Hb)%bind_ret.
  destruct (SetCoverMore.draw_data_shape _ _ _ _ _ Hd)
    as (n & k & Hn & Hk & _ & Hel & Hkeys & Hmem & Hckeys & Hcin).
  rewrite (SetCoverMore.setcover_build_model_run _ _ _ _ _ Hd) in Hb.
  injection Hb as <- <-.
  exists n, k, d. rewrite addConstrs_eq. simpl.
  repeat split; try done.
  - by rewrite Hkeys, <- list_fmap_compose.
  - apply Forall_forall. intros [i c] Hic. by apply (Hcin i c).
  - by rewrite length_fmap.
Qed.

Lemma setcover_model_shape_witness :
  ∃ m w' n,
    SetCover.generate_instance (H := lcg) 100 (small_cover, 42%Z) = (Ret m, w') ∧
    within small_cover "n_sets" n ∧
    vars m = (λ i, (SetCover.x i, BINARY)) <$> range2 1 (n + 1).
Proof.
  destruct (SetCover.generate_instance (H := lcg) 100 (small_cover, 42%Z))
    as [[m| |] w'] eqn:Hgen; try (by vm_compute in Hgen).
  destruct (setcover_model_shape (H := lcg) _ _ _ _ _ Hgen)
    as (n & k & d & Hn & _ & _ & _ & _ & _ & Hv & _).
  exists m, w', n. split; [reflexivity|]. split; [exact Hn|exact Hv].
Defined.

(** SetCover: [generate_instance] replaces [n_sets] and [n_elements] by the
    numbers it drew, so on an object whose [generate_instance] has returned
    a further call raises [TypeError] and changes nothing. *)
Theorem setcover_second_call_raises `{Random} fuel self g m w' :
  SetCover.generate_instance fuel (self, g) = (Ret m, w') →
  (∃ n k, within self "n_sets" n ∧ within self "n_elements" k ∧
          attrs w'.1 !! "n_sets" = Some (VInt n) ∧
          attrs w'.1 !! "n_elements" = Some (VInt k)) ∧
  ∀ fuel2 g2, SetCover.generate_instance fuel2 (w'.1, g2)
              = (Raise TypeError, (w'.1, g2)).
Proof.
  intros Hgen.
  assert (∃ d, SetCover.draw_data fuel (self, g) = (Ret d, w')) as [d Hd].
  { unfold SetCover.generate_instance in Hgen.
    apply bind_ret in Hgen as (d & w1 & Hd & Hb).
    rewrite (SetCoverMore.setcover_build_model_run _ _ _ _ _ Hd) in Hb.
    injection Hb as _ <-. by exists d. }
  destruct (SetCoverMore.draw_data_shape _ _ _ _ _ Hd) as (n & k & Hn & Hk & Ha & _).
  assert (attrs w'.1 !! "n_sets" = Some (VInt n)) as Hsets.
  { rewrite Ha. rewrite lookup_insert_ne by done. apply lookup_insert_eq. }
  split.
  - exists n, k. split; [done|]. split; [done|]. split; [done|].
    rewrite Ha. apply lookup_insert_eq.
  - intros fuel2 g2. unfold SetCover.generate_instance, SetCover.draw_data.
    do 2 apply bind_raise. unfold randint_star.
    by rewrite (bind_run _ _ _ _ _ (getparam_run "n_sets" (w'.1, g2) _ Hsets)).
Qed.

Lemma setcover_second_call_raises_witness :
  ∃ m w',
    SetCover.generate_instance (H := lcg) 100 (small_cover, 42%Z) = (Ret m, w') ∧
    SetCover.generate_instance (H := lcg) 100 (w'.1, 5%Z) = (Raise TypeError, (w'.1, 5%Z)).
Proof.
  destruct (SetCover.generate_instance (H := lcg) 100 (small_cover, 42%Z))
    as [[m| |] w'] eqn:Hgen; try (by vm_compute in Hgen).
  exists m, w'. split; [reflexivity|].
  exact (proj2 (setcover_second_call_raises (H := lcg) _ _ _ _ _ Hgen) 100 5%Z).
Defined.

(** SetCover: with no set ([n_sets] drawn from [(0, 0)]), at least one
    element and a finite density, the sampling loop and the costs draw
    nothing and the repair raises [IndexError], from [random.choice] on the
    empty list of sets. *)
Theorem setcover_without_sets_raises `{Random} fuel self g lo hi density :
  attrs self !! "n_sets" = Some (VRange 0 0) →
  attrs self !! "n_elements" = Some (VRange lo hi) → (1 ≤ lo ≤ hi)%Z →
  attrs self !! "density" = Some density → finite_value density →
  ∃ k g',
    (lo ≤ k ≤ hi)%Z ∧
    SetCover.generate_instance fuel (self, g)
    = (Raise IndexError,
       ({| attrs := <["n_elements" := VInt k]> (<["n_sets" := VInt 0]> (attrs self));
           seed := seed self |}, g')).
Proof.
  intros Hn Hk Hlo Hd Hfin.
  destruct (randint_star_total "n_sets" (self, g) 0 0 Hn ltac:(lia))
    as (n & [s1 g1] & Hdraw1 & Hs1 & Hin1).
  simpl in Hs1. subst s1. assert (n = 0%Z) as -> by lia.
  set (self1 := {| attrs := <["n_sets" := VInt 0]> (attrs self); seed := seed self |}).
  destruct (randint_star_total "n_elements" (self1, g1) lo hi) as (k & [s2 g2] & Hdraw2 & Hs2 & Hin2);
    [by simpl; rewrite lookup_insert_ne|lia|].
  simpl in Hs2. subst s2.
  set (self2 := {| attrs := <["n_elements" := VInt k]> (attrs self1); seed := seed self1 |}).
  exists k, g2. split; [done|].
  unfold SetCover.generate_instance, SetCover.draw_data. apply bind_raise.
  rewrite (bind_run _ _ _ _ _ Hdraw1).
  erewrite bind_run by apply setparam_run. simpl fst. simpl snd. fold self1.
  rewrite (bind_run _ _ _ _ _ Hdraw2).
  erewrite bind_run by apply setparam_run. simpl fst. simpl snd. fold self2.
  erewrite bind_run; last first.
  { apply getparam_run. simpl. by rewrite !lookup_insert_ne. }
  assert (SetCover.num_associations density (0 * k) = Ret 0%Z) as Hnum.
  { replace (0 * k)%Z with 0%Z by lia. unfold SetCover.num_associations.
    destruct density as [r|[s|s| |s m e]| | |]; try done.
    simpl. f_equal. lia. }
  erewrite bind_run by (unfold lift; by rewrite Hnum).
  erewrite bind_run; last first.
  { instantiate (1 := (self2, g2)). instantiate (1 := ∅).
    destruct fuel; cbn [SetCover.sample_associations];
      by rewrite decide_False by (rewrite size_empty; lia). }
  rewrite elements_empty. simpl range2.
  erewrite bind_run by done. erewrite bind_run by done.
  unfold SetCover.ensure_feasibility, range2.
  destruct (Z.to_nat (k + 1 - 1)) as [|k'] eqn:Hk'; [lia|].
  simpl seq. rewrite fmap_cons. simpl.
  apply bind_raise. done.
Qed.

Lemma setcover_without_sets_raises_witness :
  ∃ w',
    SetCover.generate_instance (H := lcg) 10
      ({| attrs := list_to_map [("n_sets", VRange 0 0); ("n_elements", VRange 2 3);
                                ("density", VFloat (lit 4 10))];
          seed := None |}, 42%Z) = (Raise IndexError, w').
Proof.
  destruct (setcover_without_sets_raises (H := lcg) 10
      {| attrs := list_to_map [("n_sets", VRange 0 0); ("n_elements", VRange 2 3);
                               ("density", VFloat (lit 4 10))];
         seed := None |} 42%Z 2 3 (VFloat (lit 4 10)))
    as (k & g' & _ & Hgen).
  - vm_compute. reflexivity.
  - vm_compute. reflexivity.
  - lia.
  - vm_compute. reflexivity.
  - vm_compute. exact I.
  - eexists. exact Hgen.
Defined.

(** SetCover: with a density of zero the sampling loop draws no association
    and the repair puts every element into exactly one set, so every
    coverage constraint of a returned model has exactly one variable. *)
Theorem setcover_zero_density_is_a_partition `{Random} fuel self g m w' density :
  attrs self !! "density" = Some density → zero_value density →
  SetCover.generate_instance fuel (self, g) = (Ret m, w') →
  ∃ d, SetCover.draw_data fuel (self, g) = (Ret d, w') ∧
       (∀ e, e ∈ SetCover.elements d → Repair.multiplicity (SetCover.sets d) e = 1) ∧
       Forall (λ c, length (lhs c) = 1) (constrs m).
Proof.
  intros Hdens Hzero. unfold SetCover.generate_instance.
  intros (d & w1 & Hd & Hb)%bind_ret.
  rewrite (SetCoverMore.setcover_build_model_run _ _ _ _ _ Hd) in Hb. injection Hb as <- <-.
  pose proof (SetCoverMore.draw_data_zero_density _ _ _ _ _ _ Hdens Hzero Hd) as Hone.
  exists d. split; [done|]. split; [done|].
  rewrite addConstrs_eq. simpl. apply Forall_fmap, Forall_forall.
  intros e He. simpl. rewrite length_fmap. by apply Hone.
Qed.

Lemma setcover_zero_density_is_a_partition_witness :
  ∃ m w',
    SetCover.generate_instance (H := lcg) 10
      ({| attrs := list_to_map [("n_sets", VRange 2 3); ("n_elements", VRange 3 4);
                                ("density", VFloat (S754_zero false));
                                ("cost_range", VRange 1 9)];
          seed := None |}, 42%Z) = (Ret m, w') ∧
    Forall (λ c, length (lhs c) = 1) (constrs m).
Proof.
  set (self := {| attrs := list_to_map [("n_sets", VRange 2 3); ("n_elements", VRange 3 4);
                                        ("density", VFloat (S754_zero false));
                                        ("cost_range", VRange 1 9)];
                  seed := None |}).
  destruct (SetCover.generate_instance (H := lcg) 10 (self, 42%Z))
    as [[m| |] w'] eqn:Hgen; try (by vm_compute in Hgen).
  exists m, w'. split; [reflexivity|].
  assert (attrs self !! "density" = Some (VFloat (S754_zero false))) as Hdens
    by (vm_compute; reflexivity).
  destruct (setcover_zero_density_is_a_partition (H := lcg) 10 self 42%Z m w'
              (VFloat (S754_zero false)) Hdens I Hgen) as (d & _ & _ & Hall).
  exact Hall.
Defined.

(** ** CFLP: the model *)

Module CFLPMore.
Import CFLPFacts CFLP CFLPModel Expr.

Lemma facilities_NoDup n : NoDup (facility <$> range n).
Proof. apply (numbered_NoDup "facility_"), range_NoDup. Qed.

Lemma customers_NoDup n : NoDup (customer <$> range n).
Proof. apply (numbered_NoDup "customer_"), range_NoDup. Qed.

Lemma facilities_NoDup_seq n : NoDup (facility <$> seq 0 n).
Proof. apply (numbered_NoDup "facility_"), NoDup_seq. Qed.

Lemma customers_NoDup_seq n : NoDup (customer <$> seq 0 n).
Proof. apply (numbered_NoDup "customer_"), NoDup_seq. Qed.

Section facts.
Context `{Random}.

(** What a returning [sample] has drawn. *)
Lemma cflp_sample_ret self g d w' :
  sample (self, g) = (Ret d, w') →
  ∃ nf nc,
    within self "n_facilities" nf ∧ within self "n_customers" nc ∧
    facilities d = facility <$> range nf ∧
    customers d = customer <$> range nc ∧
    (fixed_costs d).*1 = facilities d ∧
    (transport_costs d).*1 = pairs (customers d) (facilities d) ∧
    (demands d).*1 = customers d ∧
    (capacities d).*1 = facilities d ∧
    (∀ k v, (k, v) ∈ fixed_costs d → within self "fixed_cost_range" v) ∧
    (∀ k v, (k, v) ∈ transport_costs d → within self "transport_cost_range" v) ∧
    (∀ k v, (k, v) ∈ demands d → within self "demand_range" v) ∧
    (∀ k v, (k, v) ∈ capacities d → within self "capacity_range" v).
Proof.
  unfold sample.
  intros (nf & w1 & Hnf & Hrest)%bind_ret.
  apply randint_star_ret in Hnf as [Hw1 Hnf]. simpl in Hw1, Hnf.
  apply bind_ret in Hrest as ([] & w2 & Hset & Hrest).
  rewrite setparam_run in Hset. injection Hset as <-.
  apply bind_ret in Hrest as (nc & w3 & Hnc & Hrest).
  apply randint_star_ret in Hnc as [Hw3 Hnc]. simpl in Hw3, Hnc.
  rewrite lookup_insert_ne in Hnc by done. rewrite Hw1 in Hnc.
  apply bind_ret in Hrest as ([] & w4 & Hset & Hrest).
  rewrite setparam_run in Hset. injection Hset as <-.
  apply bind_ret in Hrest as (vf & w5 & Hget & Hrest).
  apply getparam_ret in Hget as [-> Hvf]. simpl in Hvf.
  rewrite Hw3 in Hvf. simpl in Hvf.
  rewrite lookup_insert_ne, lookup_insert_eq in Hvf by done. injection Hvf as <-.
  apply bind_ret in Hrest as (rf & w6 & Hr & Hrest). injection Hr as <- <-.
  apply bind_ret in Hrest as (vc & w7 & Hget & Hrest).
  apply getparam_ret in Hget as [-> Hvc]. simpl in Hvc.
  rewrite lookup_insert_eq in Hvc. injection Hvc as <-.
  apply bind_ret in Hrest as (rc & w8 & Hr & Hrest). injection Hr as <- <-.
  set (a := <["n_customers" := VInt nc]> (<["n_facilities" := VInt nf]> (attrs self))).
  assert (<["n_customers" := VInt nc]> (attrs w3.1) = a) as Ha.
  { rewrite Hw3. simpl. by rewrite Hw1. }
  assert (∀ name, name ≠ "n_customers" → name ≠ "n_facilities" →
                  a !! name = attrs self !! name) as Hframe.
  { intros name ? ?. unfold a. by rewrite !lookup_insert_ne. }
  apply bind_ret in Hrest as (fc & w9 & Hfc & Hrest).
  apply dict_comp_randint_ret in Hfc as (Hw9 & Hkfc & Hfcin); [|apply facilities_NoDup].
  apply bind_ret in Hrest as (tc & w10 & Htc & Hrest).
  apply dict_comp_randint_ret in Htc as (Hw10 & Hktc & Htcin);
    [|apply pairs_NoDup; [apply customers_NoDup|apply facilities_NoDup]].
  apply bind_ret in Hrest as (dm & w11 & Hdm & Hrest).
  apply dict_comp_randint_ret in Hdm as (Hw11 & Hkdm & Hdmin); [|apply customers_NoDup].
  apply bind_ret in Hrest as (cp & w12 & Hcp & Hrest).
  apply dict_comp_randint_ret in Hcp as (Hw12 & Hkcp & Hcpin); [|apply facilities_NoDup].
  injection Hrest as <- <-. simpl.
  simpl in Hfcin. rewrite Ha in Hfcin.
  rewrite Hw9 in Htcin. simpl in Htcin. rewrite Ha in Htcin.
  rewrite Hw10, Hw9 in Hdmin. simpl in Hdmin. rewrite Ha in Hdmin.
  rewrite Hw11, Hw10, Hw9 in Hcpin. simpl in Hcpin. rewrite Ha in Hcpin.
  exists nf, nc. repeat split; try done.
  - intros k v Hin. destruct (Hfcin k v Hin) as (lo & hi & Hl & Hv).
    rewrite Hframe in Hl by done. by exists lo, hi.
  - intros k v Hin. destruct (Htcin k v Hin) as (lo & hi & Hl & Hv).
    rewrite Hframe in Hl by done. by exists lo, hi.
  - intros k v Hin. destruct (Hdmin k v Hin) as (lo & hi & Hl & Hv).
    rewrite Hframe in Hl by done. by exists lo, hi.
  - intros k v Hin. destruct (Hcpin k v Hin) as (lo & hi & Hl & Hv).
    rewrite Hframe in Hl by done. by exists lo, hi.
Qed.

Lemma dict_get_at_key {S K} `{EqDecision K} (d : list (K * Z)) k (s : S) :
  k ∈ d.*1 → dict_get d k s = (Ret (at_key d k), s).
Proof.
  unfold dict_get, at_key. intros Hk.
  destruct (dict_lookup d k) as [v|] eqn:Hl; [done|]. exfalso.
  induction d as [|[k0 v0] d IH]; [by apply elem_of_nil in Hk|].
  simpl in Hl. destruct (decide (k0 = k)); [done|].
  rewrite fmap_cons in Hk. apply elem_of_cons in Hk as [->|Hk]; [done|by apply IH].
Qed.

Lemma at_key_elem {K} `{EqDecision K} (d : list (K * Z)) k :
  k ∈ d.*1 → (k, at_key d k) ∈ d.
Proof.
  unfold at_key. induction d as [|[k0 v0] d IH]; [by intros ?%elem_of_nil|].
  rewrite fmap_cons. simpl. destruct (decide (k0 = k)) as [->|Hne].
  - intros _. apply list_elem_of_here.
  - intros [->|Hk]%elem_of_cons; [done|]. by apply list_elem_of_further, IH.
Qed.

Lemma cflp_build_model_run (d : data) (w : world) :
  NoDup (facilities d) → NoDup (customers d) →
  (fixed_costs d).*1 = facilities d →
  (transport_costs d).*1 = pairs (customers d) (facilities d) →
  (demands d).*1 = customers d →
  (capacities d).*1 = facilities d →
  build_model d w = (Ret (model_of d), w).
Proof.
  intros Hnf Hnc Hfc Htc Hdm Hcp. unfold build_model.
  erewrite bind_run; last first.
  { apply (for_each_pure _ (λ j, (at_key (fixed_costs d) j, y j))).
    intros j Hj. erewrite bind_run; [done|]. apply dict_get_at_key. by rewrite Hfc. }
  erewrite bind_run; last first.
  { apply (for_each_pure _ (λ ij, (at_key (transport_costs d) ij, x ij.1 ij.2))).
    intros ij Hij. erewrite bind_run; [done|]. apply dict_get_at_key. by rewrite Htc. }
  erewrite bind_run; last first.
  { apply (for_each_pure _ (λ i, demand (facilities d) i (at_key (demands d) i))).
    intros i Hi. erewrite bind_run; [done|]. apply dict_get_at_key. by rewrite Hdm. }
  erewrite bind_run; last first.
  { apply (for_each_pure _ (λ ij, valid ij.1 ij.2 (at_key (demands d) ij.1))).
    intros [i j] Hij. erewrite bind_run; [done|]. apply dict_get_at_key.
    rewrite Hdm. unfold pairs in Hij. apply list_elem_of_bind in Hij as (i' & Hj & Hi).
    apply list_elem_of_fmap in Hj as (j' & [= -> ->] & _). done. }
  erewrite bind_run; last first.
  { apply (for_each_pure _ (λ j, capacity (customers d) j (at_key (capacities d) j))).
    intros j Hj. erewrite bind_run; [done|]. apply dict_get_at_key. by rewrite Hcp. }
  rewrite mret_run, !addConstrs_eq. unfold model_of, setObjective, addVars, new_model.
  simpl. by rewrite !list_fmap_id, <- !list_fmap_compose, <- !app_assoc.
Qed.

Lemma cflp_generate_instance_ret self g m w' :
  generate_instance (self, g) = (Ret m, w') →
  ∃ d, sample (self, g) = (Ret d, w') ∧ m = model_of d.
Proof.
  unfold generate_instance. intros (d & w1 & Hd & Hb)%bind_ret.
  destruct (cflp_sample_ret _ _ _ _ Hd)
    as (nf & nc & _ & _ & Hf & Hc & Hfc & Htc & Hdm & Hcp & _).
  rewrite cflp_build_model_run in Hb; try done.
  - injection Hb as <- <-. by exists d.
  - rewrite Hf. apply facilities_NoDup.
  - rewrite Hc. apply customers_NoDup.
Qed.

End facts.

(** *** The value of an expression *)

Lemma eval_app a (e1 e2 : linexpr) : eval a (e1 ++ e2) = (eval a e1 + eval a e2)%Z.
Proof. induction e1 as [|t e1 IH]; simpl; [done|]. rewrite IH. lia. Qed.

Lemma eval_neg a (e : linexpr) : eval a (neg e) = (- eval a e)%Z.
Proof.
  induction e as [|t e IH]; [done|]. unfold neg in *. rewrite fmap_cons. simpl.
  rewrite IH. lia.
Qed.

Lemma eval_units_none {A} (a : var → Z) (g : A → var) (l : list A) :
  (∀ i, i ∈ l → a (g i) = 0%Z) → eval a ((λ i, (1%Z, g i)) <$> l) = 0%Z.
Proof.
  induction l as [|i l IH]; intros Hz; [done|]. rewrite fmap_cons. simpl.
  rewrite (Hz i) by apply list_elem_of_here.
  rewrite IH; [lia|]. intros i' Hi'. by apply Hz, list_elem_of_further.
Qed.

(** A sum of variables of which at most one is not 0. *)
Lemma eval_units_one {A} (a : var → Z) (g : A → var) (l : list A) i0 :
  NoDup l → i0 ∈ l → (∀ i, i ∈ l → i ≠ i0 → a (g i) = 0%Z) →
  eval a ((λ i, (1%Z, g i)) <$> l) = a (g i0).
Proof.
  induction l as [|i l IH]; intros Hnd Hin H0; [by apply elem_of_nil in Hin|].
  apply NoDup_cons in Hnd as [Hi Hnd]. rewrite fmap_cons. simpl.
  apply elem_of_cons in Hin as [<-|Hin].
  - rewrite eval_units_none; [lia|].
    intros i Hil. apply H0; [by apply list_elem_of_further|]. by intros ->.
  - rewrite (H0 i); [|apply list_elem_of_here|by intros ->].
    rewrite IH; [lia|done|done|].
    intros i' Hi'. by apply H0, list_elem_of_further.
Qed.

(** *** Every customer served by the facility of its number *)

Lemma one_to_one_y d j : one_to_one d (y j) = 1%Z.
Proof. done. Qed.

Lemma one_to_one_x d a b :
  one_to_one d (x (customer a) (facility b))
  = if decide (a = b ∧ a < length (customers d))
    then at_key (demands d) (customer a) else 0%Z.
Proof.
  unfold one_to_one, x. cbn [key family]. rewrite decide_True by done.
  destruct (list_find _ _) as [[i k]|] eqn:Hfind.
  - apply list_find_Some in Hfind as (Hlk & [Hc Hf] & _).
    apply lookup_seq in Hlk as [-> Hi]. simpl in Hc, Hf.
    apply (numbered_inj "customer_") in Hc. apply (numbered_inj "facility_") in Hf.
    rewrite decide_True; [done|]. split; [congruence|lia].
  - apply list_find_None in Hfind. rewrite decide_False; [done|].
    intros [<- Ha]. rewrite Forall_forall in Hfind.
    apply (Hfind a); [apply elem_of_seq; lia|done].
Qed.

Lemma dict_lookup_Some_elem {K} `{EqDecision K} {V} (d : list (K * V)) k v :
  dict_lookup d k = Some v → (k, v) ∈ d.
Proof.
  induction d as [|[k0 v0] d IH]; [done|]. simpl.
  destruct (decide (k0 = k)) as [->|].
  - intros [= ->]. apply list_elem_of_here.
  - intros Hl. by apply list_elem_of_further, IH.
Qed.

Lemma at_key_nonneg {K} `{EqDecision K} (d : list (K * Z)) k :
  (∀ k' v, (k', v) ∈ d → (0 ≤ v)%Z) → (0 ≤ at_key d k)%Z.
Proof.
  intros Hall. unfold at_key. destruct (dict_lookup d k) as [v|] eqn:Hl; [|done].
  simpl. eapply Hall. by apply dict_lookup_Some_elem.
Qed.

Lemma one_to_one_x_bounds d i j :
  (∀ k v, (k, v) ∈ demands d → (0 ≤ v)%Z) →
  (0 ≤ one_to_one d (x i j) ≤ at_key (demands d) i)%Z.
Proof.
  intros Hall. pose proof (at_key_nonneg (demands d) i Hall).
  unfold one_to_one, x. cbn [key family]. rewrite decide_True by done.
  destruct (list_find _ _); lia.
Qed.

Lemma elem_of_customers n c : c ∈ customer <$> seq 0 n ↔ ∃ k, c = customer k ∧ k < n.
Proof.
  rewrite list_elem_of_fmap. split.
  - intros (k & -> & Hk%elem_of_seq). exists k. split; [done|lia].
  - intros (k & -> & Hk). exists k. split; [done|]. apply elem_of_seq. lia.
Qed.

Lemma elem_of_facilities n c : c ∈ facility <$> seq 0 n ↔ ∃ k, c = facility k ∧ k < n.
Proof.
  rewrite list_elem_of_fmap. split.
  - intros (k & -> & Hk%elem_of_seq). exists k. split; [done|lia].
  - intros (k & -> & Hk). exists k. split; [done|]. apply elem_of_seq. lia.
Qed.

Lemma model_of_feasible (d : data) nc nf dl dh kl :
  customers d = customer <$> seq 0 nc → facilities d = facility <$> seq 0 nf →
  nc ≤ nf → (0 ≤ dl ≤ dh)%Z → (dh ≤ kl)%Z →
  (demands d).*1 = customers d → (capacities d).*1 = facilities d →
  (∀ k v, (k, v) ∈ demands d → (dl ≤ v ≤ dh)%Z) →
  (∀ k v, (k, v) ∈ capacities d → (kl ≤ v)%Z) →
  feasible (one_to_one d) (model_of d).
Proof.
  intros Hc Hf Hle Hd Hk Hdm Hcp Hdin Hkin.
  assert (length (customers d) = nc) as Hlen by (by rewrite Hc, length_fmap, length_seq).
  assert (∀ k v, (k, v) ∈ demands d → (0 ≤ v)%Z) as Hpos.
  { intros k v Hin. specialize (Hdin k v Hin). lia. }
  assert (∀ a, a < nc → (dl ≤ at_key (demands d) (customer a) ≤ dh)%Z) as Hdem.
  { intros a Ha. apply (Hdin (customer a)), at_key_elem.
    rewrite Hdm, Hc. apply elem_of_customers. by exists a. }
  assert (∀ b, b < nf → (kl ≤ at_key (capacities d) (facility b))%Z) as Hcap.
  { intros b Hb. apply (Hkin (facility b)), at_key_elem.
    rewrite Hcp, Hf. apply elem_of_facilities. by exists b. }
  split; unfold model_of; cbn [vars constrs].
  - apply Forall_app. split; apply Forall_fmap, Forall_forall.
    + intros j _. unfold in_bounds. cbn [fst snd compose]. rewrite one_to_one_y. lia.
    + intros [i j] _. unfold in_bounds. cbn [fst snd compose].
      pose proof (one_to_one_x_bounds d i j Hpos). lia.
  - repeat (apply Forall_app; split); apply Forall_fmap, Forall_forall.
    + intros i Hi. rewrite Hc in Hi.
      apply elem_of_customers in Hi as (a & -> & Ha).
      unfold compose, satisfies, demand. cbn [lhs csense rhs]. rewrite Hf.
      rewrite (eval_units_one _ (λ j, x (customer a) j) _ (facility a)).
      * rewrite one_to_one_x, decide_True; [done|lia].
      * apply facilities_NoDup_seq.
      * apply elem_of_facilities. exists a. split; [done|lia].
      * intros j (b & -> & Hb)%elem_of_facilities Hne.
        rewrite one_to_one_x, decide_False; [done|].
        intros [-> _]. done.
    + intros [i j] Hij. unfold compose, satisfies, valid, le_expr.
      cbn [lhs csense rhs fst snd].
      rewrite eval_app, eval_neg. cbn [eval foldr fst snd]. rewrite one_to_one_y.
      pose proof (one_to_one_x_bounds d i j Hpos). lia.
    + intros j Hj. rewrite Hf in Hj.
      apply elem_of_facilities in Hj as (b & -> & Hb).
      unfold compose, satisfies, capacity, le_expr. cbn [lhs csense rhs].
      rewrite eval_app, eval_neg. cbn [eval foldr fst snd]. rewrite one_to_one_y.
      specialize (Hcap b Hb). rewrite Hc.
      destruct (decide (b < nc)) as [Hbc|Hbc].
      * rewrite (eval_units_one _ (λ i, x i (facility b)) _ (customer b)).
        -- rewrite one_to_one_x, decide_True by (split; [done|lia]).
           specialize (Hdem b Hbc). lia.
        -- apply customers_NoDup_seq.
        -- apply elem_of_customers. by exists b.
        -- intros i (a & -> & Ha)%elem_of_customers Hne.
           rewrite one_to_one_x, decide_False; [done|].
           intros [-> _]. done.
      * rewrite eval_units_none; [lia|].
        intros i (a & -> & Ha)%elem_of_customers.
        rewrite one_to_one_x, decide_False; [done|].
        intros [-> _]. lia.
Qed.

End CFLPMore.

(** CFLP: when there are at least as many facilities as customers and no
    demand can exceed a capacity, every returned model is feasible: with
    every facility open and customer [i] served in full by facility [i],
    the bounds of the variables and the demand, linking and capacity
    constraints all hold. The default parameters are of this kind. *)
Theorem cflp_one_to_one_is_feasible `{Random} self g m w' fl fh cl ch dl dh kl kh :
  attrs self !! "n_facilities" = Some (VRange fl fh) →
  attrs self !! "n_customers" = Some (VRange cl ch) → (ch ≤ fl)%Z →
  attrs self !! "demand_range" = Some (VRange dl dh) →
  attrs self !! "capacity_range" = Some (VRange kl kh) →
  (0 ≤ dl ≤ dh)%Z → (dh ≤ kl)%Z →
  CFLPModel.generate_instance (self, g) = (Ret m, w') →
  ∃ d, CFLP.sample (self, g) = (Ret d, w') ∧ feasible (CFLPModel.one_to_one d) m.
Proof.
  intros Hnf Hnc Hle Hdr Hkr Hd Hk Hgen.
  apply CFLPMore.cflp_generate_instance_ret in Hgen as (d & Hs & ->).
  exists d. split; [done|].
  destruct (CFLPMore.cflp_sample_ret _ _ _ _ Hs)
    as (nf & nc & (lo1 & hi1 & Ha1 & Hin1) & (lo2 & hi2 & Ha2 & Hin2)
        & Hf & Hc & _ & _ & Hdm & Hcp & _ & _ & Hdin & Hkin).
  rewrite Hnf in Ha1. injection Ha1 as <- <-.
  rewrite Hnc in Ha2. injection Ha2 as <- <-.
  apply (CFLPMore.model_of_feasible d (Z.to_nat nc) (Z.to_nat nf) dl dh kl);
    try done; [lia| |].
  - intros k v Hin. destruct (Hdin k v Hin) as (lo & hi & Ha & Hv).
    rewrite Hdr in Ha. injection Ha as <- <-. done.
  - intros k v Hin. destruct (Hkin k v Hin) as (lo & hi & Ha & Hv).
    rewrite Hkr in Ha. injection Ha as <- <-. lia.
Qed.

Lemma cflp_one_to_one_is_feasible_witness :
  ∃ m w' d,
    CFLPModel.generate_instance (H := lcg) (cflp_default, 7%Z) = (Ret m, w') ∧
    CFLP.sample (H := lcg) (cflp_default, 7%Z) = (Ret d, w') ∧
    feasible (CFLPModel.one_to_one d) m.
Proof.
  destruct (CFLPModel.generate_instance (H := lcg) (cflp_default, 7%Z))
    as [[m| |] w'] eqn:Hgen; try (by vm_compute in Hgen).
  destruct (cflp_one_to_one_is_feasible (H := lcg) cflp_default 7%Z m w'
              3 3 3 3 300 500 800 1200) as (d & Hs & Hfeas).
  - vm_compute. reflexivity.
  - vm_compute. reflexivity.
  - lia.
  - vm_compute. reflexivity.
  - vm_compute. reflexivity.
  - lia.
  - lia.
  - exact Hgen.
  - exists m, w', d. split; [reflexivity|]. split; [exact Hs|exact Hfeas].
Defined.

(** ** Real-valued solutions *)

Module ContinuousFacts.
Import Reals Lra.
Import Continuous Expr.

Lemma evalR_app a (e1 e2 : linexpr) : evalR a (e1 ++ e2) = (evalR a e1 + evalR a e2)%R.
Proof. induction e1 as [|t e1 IH]; simpl; [lra|]. rewrite IH. lra. Qed.

Lemma evalR_neg a (e : linexpr) : evalR a (neg e) = (- evalR a e)%R.
Proof.
  induction e as [|t e IH]; [simpl; lra|]. unfold neg in *. rewrite fmap_cons. simpl.
  rewrite IH, opp_IZR. lra.
Qed.

Lemma evalR_units {A} a (g : A → var) (l : list A) :
  evalR a ((λ i, (1%Z, g i)) <$> l) = sumR (λ i, a (g i)) l.
Proof. induction l as [|i l IH]; [done|]. rewrite fmap_cons. simpl. rewrite IH. lra. Qed.

Lemma sumR_plus {A} (f g : A → R) (l : list A) :
  sumR (λ i, (f i + g i)%R) l = (sumR f l + sumR g l)%R.
Proof. induction l as [|i l IH]; simpl; [lra|]. rewrite IH. lra. Qed.

Lemma sumR_zero {A} (l : list A) : sumR (λ _, 0%R) l = 0%R.
Proof. induction l as [|i l IH]; simpl; [done|]. rewrite IH. lra. Qed.

Lemma sumR_exchange {A B} (f : A → B → R) (l1 : list A) (l2 : list B) :
  sumR (λ i, sumR (λ j, f i j) l2) l1 = sumR (λ j, sumR (λ i, f i j) l1) l2.
Proof.
  induction l1 as [|i l1 IH]; simpl.
  - by rewrite sumR_zero.
  - by rewrite IH, sumR_plus.
Qed.

Lemma sumR_le {A} (f g : A → R) (l : list A) :
  (∀ i, i ∈ l → (f i <= g i)%R) → (sumR f l <= sumR g l)%R.
Proof.
  induction l as [|i l IH]; intros Hle; simpl; [lra|].
  pose proof (Hle i (list_elem_of_here _ _)).
  pose proof (IH (λ j Hj, Hle j (list_elem_of_further _ _ _ Hj))). lra.
Qed.

Lemma sumR_ext {A} (f g : A → R) (l : list A) :
  (∀ i, i ∈ l → f i = g i) → sumR f l = sumR g l.
Proof.
  induction l as [|i l IH]; intros Heq; simpl; [done|].
  rewrite (Heq i) by apply list_elem_of_here.
  by rewrite IH by (intros j Hj; by apply Heq, list_elem_of_further).
Qed.

End ContinuousFacts.

Section cflp_real.
Import Reals Lra.
Import Continuous.

(** CFLP: in every solution of a returned model, with real values for the
    variables, the total demand is at most the capacity that is open: the
    sum of the demands is at most the sum of [capacities[j] * y[j]]. (Sum
    the demand constraints over the customers and the capacity constraints
    over the facilities.) *)
Theorem cflp_demand_fits_open_capacity `{Random} self g m w' (a : var → R) :
  CFLPModel.generate_instance (self, g) = (Ret m, w') →
  Forall (satisfiesR a) (constrs m) →
  ∃ d, CFLP.sample (self, g) = (Ret d, w') ∧
       (sumR (λ i, IZR (CFLPModel.at_key (CFLP.demands d) i)) (CFLP.customers d)
        <= sumR (λ j, IZR (CFLPModel.at_key (CFLP.capacities d) j) * a (CFLPModel.y j))
             (CFLP.facilities d))%R.
Proof.
  intros Hgen Hall.
  apply CFLPMore.cflp_generate_instance_ret in Hgen as (d & Hs & ->).
  exists d. split; [done|].
  unfold CFLPModel.model_of in Hall. cbn [constrs] in Hall.
  apply Forall_app in Hall as [Hdem Hall]. apply Forall_app in Hall as [_ Hcap].
  rewrite Forall_fmap, Forall_forall in Hdem.
  rewrite Forall_fmap, Forall_forall in Hcap.
  rewrite (ContinuousFacts.sumR_ext _
             (λ i, sumR (λ j, a (CFLPModel.x i j)) (CFLP.facilities d))).
  - rewrite ContinuousFacts.sumR_exchange. apply ContinuousFacts.sumR_le.
    intros j Hj. specialize (Hcap j Hj).
    unfold compose, satisfiesR, CFLPModel.capacity, Expr.le_expr in Hcap.
    cbn [lhs csense rhs] in Hcap.
    rewrite ContinuousFacts.evalR_app, ContinuousFacts.evalR_neg in Hcap.
    rewrite ContinuousFacts.evalR_units in Hcap. cbn [evalR foldr fst snd] in Hcap.
    lra.
  - intros i Hi. specialize (Hdem i Hi).
    unfold compose, satisfiesR, CFLPModel.demand in Hdem. cbn [lhs csense rhs] in Hdem.
    by rewrite ContinuousFacts.evalR_units in Hdem.
Qed.

Lemma cflp_demand_fits_open_capacity_witness :
  ∃ m w',
    CFLPModel.generate_instance (H := lcg) (cflp_default, 7%Z) = (Ret m, w') ∧
    ∀ a : var → R,
      Forall (satisfiesR a) (constrs m) →
      ∃ d, CFLP.sample (H := lcg) (cflp_default, 7%Z) = (Ret d, w') ∧
        (sumR (λ i, IZR (CFLPModel.at_key (CFLP.demands d) i)) (CFLP.customers d)
         <= sumR (λ j, IZR (CFLPModel.at_key (CFLP.capacities d) j) * a (CFLPModel.y j))
              (CFLP.facilities d))%R.
Proof.
  destruct (CFLPModel.generate_instance (H := lcg) (cflp_default, 7%Z))
    as [[m| |] w'] eqn:Hgen; try (by vm_compute in Hgen).
  exists m, w'. split; [reflexivity|].
  intros a Hall.
  exact (cflp_demand_fits_open_capacity (H := lcg) _ _ _ _ a Hgen Hall).
Defined.

End cflp_real.
